(** * Snake Attack: a shallow embedding of [main.py] and its game rules

    The development follows the source file top down: the configuration
    object, the pygame rectangle tests the game relies on, the [Snake]
    class, the [Game] class (spawning, high-score file, input handling and
    the per-frame [update]), and then the properties of the game rules.

    Conventions.
    - [CONFIG] is read from [config.json], which is data and not code; it is
      a [Config] record and every definition is parameterised by it.  Its
      numeric entries are taken to be integers.
    - Python exceptions are values of [exn]; a computation that can raise
      returns an [outcome].
    - [random.randrange] and the file [highscore.txt] are the two effects the
      game logic has.  They live in a [World] that is threaded through the
      computations of the monad [M]: the world holds the raw values the
      random generator is going to deliver and the state of the file.
    - Rendering and sound playback do not feed back into the game state and
      are left out. *)

From Stdlib Require Import ZArith List Bool Lia String Ascii.
From Stdlib Require Import DecimalString DecimalPos.
Import ListNotations.
Open Scope Z_scope.

(** ** Configuration *)

Record Config := {
  window_width : Z;
  window_height : Z;
  initial_length : Z;
  initial_speed : Z;
  targets_before_speedup : Z;
  max_speed : Z;
  speed_increase_amount : Z;
  target_1_points : Z;
  target_2_points : Z
}.

(** ** Exceptions and outcomes *)

Inductive exn :=
| IndexError
| ValueError
| ZeroDivisionError
| FileNotFoundError
| UnicodeDecodeError.

Definition exn_eqb (a b : exn) : bool :=
  match a, b with
  | IndexError, IndexError
  | ValueError, ValueError
  | ZeroDivisionError, ZeroDivisionError
  | FileNotFoundError, FileNotFoundError
  | UnicodeDecodeError, UnicodeDecodeError => true
  | _, _ => false
  end.

(** [OutOfDraws] is not a Python outcome: it says that the computation asked
    for a random value when the world had none left to give, so the run is
    cut short before the code returned. *)
Inductive outcome (A : Type) :=
| Ret (a : A)
| Raise (e : exn)
| OutOfDraws.

Arguments Ret {A} a.
Arguments Raise {A} e.
Arguments OutOfDraws {A}.

Definition obind {A B} (o : outcome A) (k : A -> outcome B) : outcome B :=
  match o with
  | Ret a => k a
  | Raise e => Raise e
  | OutOfDraws => OutOfDraws
  end.

(** ** Geometry: cells and pygame rectangles *)

Abbreviation Cell := (Z * Z)%type.

Definition cell_eqb (a b : Cell) : bool :=
  (fst a =? fst b) && (snd a =? snd b).

Record Rect := { rx : Z; ry : Z; rw : Z; rh : Z }.

(** [pygame.Rect.colliderect]: rectangles of zero area collide with nothing,
    and touching edges do not count as an overlap. *)
Definition colliderect (a b : Rect) : bool :=
  if (rw a =? 0) || (rh a =? 0) || (rw b =? 0) || (rh b =? 0) then false
  else
    (Z.min (rx a) (rx a + rw a) <? Z.max (rx b) (rx b + rw b)) &&
    (Z.min (ry a) (ry a + rh a) <? Z.max (ry b) (ry b + rh b)) &&
    (Z.max (rx a) (rx a + rw a) >? Z.min (rx b) (rx b + rw b)) &&
    (Z.max (ry a) (ry a + rh a) >? Z.min (ry b) (ry b + rh b)).

(** [pygame.Rect.collidepoint]: left and top edges are inside, right and
    bottom edges are outside. *)
Definition collidepoint (r : Rect) (p : Z * Z) : bool :=
  (rx r <=? fst p) && (fst p <? rx r + rw r) &&
  (ry r <=? snd p) && (snd p <? ry r + rh r).

(** The 30 by 30 rectangle the code builds around a position. *)
Definition cell_rect (c : Cell) : Rect :=
  {| rx := fst c; ry := snd c; rw := 30; rh := 30 |}.

(** ** The snake *)

Record Snake := {
  positions : list Cell;
  direction : Z * Z;
  length : Z;
  speed : Z;
  move_timer : Z;
  facing : Z * Z;
  targets_collected : Z
}.

Definition with_positions (ps : list Cell) (s : Snake) : Snake :=
  {| positions := ps; direction := direction s; length := length s;
     speed := speed s; move_timer := move_timer s; facing := facing s;
     targets_collected := targets_collected s |}.

Definition with_move_timer (t : Z) (s : Snake) : Snake :=
  {| positions := positions s; direction := direction s; length := length s;
     speed := speed s; move_timer := t; facing := facing s;
     targets_collected := targets_collected s |}.

Definition with_direction (d f : Z * Z) (s : Snake) : Snake :=
  {| positions := positions s; direction := d; length := length s;
     speed := speed s; move_timer := move_timer s; facing := f;
     targets_collected := targets_collected s |}.

Section SnakeClass.

Variable CONFIG : Config.

(** [Snake.__init__], without the image loading: the head at [(x, y)]
    followed by [length - 1] body cells to its left. *)
Definition Snake_init (x y : Z) : Snake :=
  let len := initial_length CONFIG in
  {| positions :=
       (x, y) :: map (fun i => (x - (Z.of_nat i + 1) * 30, y))
                     (seq 0 (Z.to_nat (len - 1)));
     direction := (0, 0);
     length := len;
     speed := initial_speed CONFIG;
     move_timer := 0;
     facing := (1, 0);
     targets_collected := 0 |}.

(** [Snake.move]: [positions[0]] raises on an empty list; [pop()] drops
    the last cell. *)
Definition move (s : Snake) : outcome Snake :=
  match positions s with
  | [] => Raise IndexError
  | (x, y) :: _ =>
      let '(dx, dy) := direction s in
      let new_head := (x + dx * 30, y + dy * 30) in
      let ps := new_head :: positions s in
      Ret (with_positions
             (if Z.of_nat (List.length ps) >? length s
              then removelast ps else ps) s)
  end.

(** [Snake.grow] *)
Definition grow (s : Snake) : Snake :=
  let len := length s + 1 in
  let collected := targets_collected s + 1 in
  let spd :=
    if (collected >? targets_before_speedup CONFIG) &&
       (speed s <? max_speed CONFIG)
    then Z.min (speed s + speed_increase_amount CONFIG) (max_speed CONFIG)
    else speed s in
  {| positions := positions s; direction := direction s; length := len;
     speed := spd; move_timer := move_timer s; facing := facing s;
     targets_collected := collected |}.

(** [Snake._get_rotation_angle]; the parameter [is_tail] is not used by the
    code. *)
Definition _get_rotation_angle (s : Snake) (d : Z * Z) : Z :=
  let dir_to_use := if cell_eqb d (0, 0) then facing s else d in
  if cell_eqb dir_to_use (1, 0) then 0
  else if cell_eqb dir_to_use (-1, 0) then 180
  else if cell_eqb dir_to_use (0, -1) then 90
  else if cell_eqb dir_to_use (0, 1) then -90
  else 180.

(** [Snake.check_collision] *)
Definition check_collision (s : Snake) (walls : list Rect) : outcome bool :=
  match positions s with
  | [] => Raise IndexError
  | head :: body =>
      let head_rect := cell_rect head in
      if existsb (fun wall => colliderect head_rect wall) walls then Ret true
      else if existsb (fun pos => cell_eqb head pos) body then Ret true
      else Ret false
  end.

End SnakeClass.

(** ** The world: random draws and the high-score file *)

(** A Python [str] is the sequence of its code points. *)
Definition Text : Type := list N.

(** The text of an ASCII string: every character stands for the code
    point of its number. *)
Definition ascii_text (s : string) : Text :=
  map N_of_ascii (list_ascii_of_string s).

(** [highscore.txt] is absent, holds bytes that do not decode as text, or
    holds some text.  The directory of the game is taken to be writable. *)
Inductive File :=
| Absent
| Undecodable
| Content (text : Text).

Record World := {
  draws : list nat;
  highscore_txt : File
}.

Definition M (A : Type) : Type := World -> outcome (A * World).

Definition ret {A} (a : A) : M A := fun w => Ret (a, w).

Definition bind {A B} (m : M A) (k : A -> M B) : M B :=
  fun w =>
    match m w with
    | Ret (a, w') => k a w'
    | Raise e => Raise e
    | OutOfDraws => OutOfDraws
    end.

Definition lift {A} (o : outcome A) : M A :=
  fun w =>
    match o with
    | Ret a => Ret (a, w)
    | Raise e => Raise e
    | OutOfDraws => OutOfDraws
    end.

Declare Scope monad_scope.
Delimit Scope monad_scope with monad.
Notation "x <- m ;; k" := (bind m (fun x => k))
  (at level 61, m at next level, right associativity) : monad_scope.
Notation "m ;;; k" := (bind m (fun _ => k))
  (at level 61, right associativity) : monad_scope.
Open Scope monad_scope.

(** A [for] loop over a list whose body updates the loop state. *)
Fixpoint for_each {A S} (xs : list A) (body : A -> S -> M S) (s : S) : M S :=
  match xs with
  | [] => ret s
  | x :: xs' => s' <- body x s ;; for_each xs' body s'
  end.

(** [random.randrange(start, stop, step)] for a positive [step]: the range
    has [n] elements, an empty range raises [ValueError], and the result is
    the element whose index the generator picks below [n].  The raw draw of
    the world is reduced modulo [n], so that every index can come out. *)
Definition randrange (start stop step : Z) : M Z :=
  fun w =>
    let n := (stop - start + step - 1) / step in
    if n <=? 0 then Raise ValueError
    else
      match draws w with
      | [] => OutOfDraws
      | r :: rest =>
          Ret (start + step * (Z.of_nat r mod n),
               {| draws := rest; highscore_txt := highscore_txt w |})
      end.

(** *** Reading and printing integers *)

(** [int(text)] for a [str], as CPython does it: white space around the
    number is skipped, one sign is allowed, the digits are the decimal
    digits of any script and may be grouped by single underscores.
    Anything else raises [ValueError] ([None] here).

    The white space is what [int] skips: the ASCII characters 9 to 13 and
    32 (not 28 to 31, which [str.isspace] accepts), and the white space
    beyond ASCII. *)
Definition is_space (c : N) : bool :=
  (((9 <=? c) && (c <=? 13)) || (c =? 32)
   || (c =? 0x85) || (c =? 0xa0) || (c =? 0x1680)
   || ((0x2000 <=? c) && (c <=? 0x200a))
   || (c =? 0x2028) || (c =? 0x2029) || (c =? 0x202f) || (c =? 0x205f)
   || (c =? 0x3000))%N.

(** The digit zero of every script with decimal digits (Unicode 14.0, the
    character database of CPython 3.11); the digits 1 to 9 of a script
    follow its zero. *)
Definition decimal_zeros : list N :=
  [0x30; 0x660; 0x6f0; 0x7c0; 0x966; 0x9e6; 0xa66; 0xae6; 0xb66; 0xbe6;
   0xc66; 0xce6; 0xd66; 0xde6; 0xe50; 0xed0; 0xf20; 0x1040; 0x1090; 0x17e0;
   0x1810; 0x1946; 0x19d0; 0x1a80; 0x1a90; 0x1b50; 0x1bb0; 0x1c40; 0x1c50;
   0xa620; 0xa8d0; 0xa900; 0xa9d0; 0xa9f0; 0xaa50; 0xabf0; 0xff10; 0x104a0;
   0x10d30; 0x11066; 0x110f0; 0x11136; 0x111d0; 0x112f0; 0x11450; 0x114d0;
   0x11650; 0x116c0; 0x11730; 0x118e0; 0x11950; 0x11c50; 0x11d50; 0x11da0;
   0x16a60; 0x16ac0; 0x16b50; 0x1d7ce; 0x1d7d8; 0x1d7e2; 0x1d7ec; 0x1d7f6;
   0x1e140; 0x1e2f0; 0x1e950; 0x1fbf0]%N.

Definition digit_of (c : N) : option Z :=
  match find (fun z => (z <=? c) && (c <=? z + 9))%N decimal_zeros with
  | Some z => Some (Z.of_N (c - z))
  | None => None
  end.

Fixpoint lstrip (s : Text) : Text :=
  match s with
  | [] => []
  | c :: s' => if is_space c then lstrip s' else s
  end.

Fixpoint all_space (s : Text) : bool :=
  match s with
  | [] => true
  | c :: s' => is_space c && all_space s'
  end.

Fixpoint int_digits (acc : Z) (after_digit : bool) (s : Text) : option Z :=
  match s with
  | [] => if after_digit then Some acc else None
  | c :: s' =>
      if is_space c then
        if after_digit && all_space s' then Some acc else None
      else if (c =? 95)%N then
        if after_digit then int_digits acc false s' else None
      else
        match digit_of c with
        | Some d => int_digits (10 * acc + d) true s'
        | None => None
        end
  end.

Definition py_int (text : Text) : option Z :=
  match lstrip text with
  | [] => None
  | c :: rest =>
      if (c =? 43)%N then int_digits 0 false rest
      else if (c =? 45)%N then option_map Z.opp (int_digits 0 false rest)
      else int_digits 0 false (c :: rest)
  end.

(** [str(n)] for an integer. *)
Definition py_str (n : Z) : Text :=
  ascii_text (NilZero.string_of_int (Z.to_int n)).

(** Since CPython 3.11 [int] and [str] refuse, with a [ValueError], a
    conversion of more than 4300 digits, unless that limit is changed with
    [sys.set_int_max_str_digits].  [py_int] and [py_str] are the
    conversions without the limit: they are [int] and [str] on texts and
    numbers of at most 4300 digits.  What is said of an arbitrary text of
    the file, or of the conversions for themselves, is said within the
    limit. *)
Definition max_str_digits : Z := 4300.

Definition count_digits (text : Text) : nat :=
  List.length (filter (fun c => match digit_of c with
                                | Some _ => true
                                | None => false
                                end) text).

(** An integer literal in the file has at most 4300 digits. *)
Definition within_max_str_digits (f : File) : Prop :=
  match f with
  | Content text =>
      py_int text = None \/ Z.of_nat (count_digits text) <= max_str_digits
  | _ => True
  end.

(** ** The game *)

Inductive GameState := MENU | PLAYING | GAME_OVER.

Record Target := { position : Cell; type : Z }.

(** [is_hovered] is the one mutable field of the start button. *)
Record Game := {
  state : GameState;
  score : Z;
  high_score : Z;
  is_hovered : bool;
  snake : Snake;
  targets : list Target
}.

Definition with_state (st : GameState) (g : Game) : Game :=
  {| state := st; score := score g; high_score := high_score g;
     is_hovered := is_hovered g; snake := snake g; targets := targets g |}.

Definition with_score (sc : Z) (g : Game) : Game :=
  {| state := state g; score := sc; high_score := high_score g;
     is_hovered := is_hovered g; snake := snake g; targets := targets g |}.

Definition with_high_score (hs : Z) (g : Game) : Game :=
  {| state := state g; score := score g; high_score := hs;
     is_hovered := is_hovered g; snake := snake g; targets := targets g |}.

Definition with_is_hovered (b : bool) (g : Game) : Game :=
  {| state := state g; score := score g; high_score := high_score g;
     is_hovered := b; snake := snake g; targets := targets g |}.

Definition with_snake (s : Snake) (g : Game) : Game :=
  {| state := state g; score := score g; high_score := high_score g;
     is_hovered := is_hovered g; snake := s; targets := targets g |}.

Definition with_targets (ts : list Target) (g : Game) : Game :=
  {| state := state g; score := score g; high_score := high_score g;
     is_hovered := is_hovered g; snake := snake g; targets := ts |}.

Definition GameState_eqb (a b : GameState) : bool :=
  match a, b with
  | MENU, MENU | PLAYING, PLAYING | GAME_OVER, GAME_OVER => true
  | _, _ => false
  end.

(** [list.pop(i)] for an index in range. *)
Definition pop {A} (i : nat) (l : list A) : list A :=
  firstn i l ++ skipn (S i) l.

(** *** The high-score file *)

(** [open('highscore.txt', 'r')] followed by [f.read()]. *)
Definition read_highscore_txt : M Text :=
  fun w =>
    match highscore_txt w with
    | Absent => Raise FileNotFoundError
    | Undecodable => Raise UnicodeDecodeError
    | Content text => Ret (text, w)
    end.

(** [open('highscore.txt', 'w')] followed by [f.write(text)]. *)
Definition write_highscore_txt (text : Text) : M unit :=
  fun w => Ret (tt, {| draws := draws w; highscore_txt := Content text |}).

Definition int_of_text (text : Text) : outcome Z :=
  match py_int text with
  | Some n => Ret n
  | None => Raise ValueError
  end.

(** [try: body  except e: handler] *)
Definition try_except {A} (body : M A) (e : exn) (handler : M A) : M A :=
  fun w =>
    match body w with
    | Raise e' => if exn_eqb e' e then handler w else Raise e'
    | r => r
    end.

(** *** Input events *)

Inductive Key := K_UP | K_DOWN | K_LEFT | K_RIGHT | K_SPACE | K_other.

Inductive Event :=
| QUIT
| KEYDOWN (key : Key)
| MOUSEMOTION (pos : Z * Z)
| MOUSEBUTTONDOWN
| OtherEvent.

Section GameClass.

Variable CONFIG : Config.

(** [self.walls]: assigned once in [Game.__init__] and never written
    again. *)
Definition walls : list Rect :=
  [ {| rx := 0; ry := 0; rw := window_width CONFIG; rh := 30 |};
    {| rx := 0; ry := window_height CONFIG - 30;
       rw := window_width CONFIG; rh := 30 |};
    {| rx := 0; ry := 0; rw := 30; rh := window_height CONFIG |};
    {| rx := window_width CONFIG - 30; ry := 0;
       rw := 30; rh := window_height CONFIG |} ].

(** [self.start_button.rect] *)
Definition start_button_rect : Rect :=
  {| rx := window_width CONFIG / 2 - 200 / 2; ry := 250;
     rw := 200; rh := 60 |}.

(** The test of line 319: the position is on no snake cell and on no
    target. *)
Definition is_free (g : Game) (pos : Cell) : bool :=
  negb (existsb (fun p => cell_eqb pos p) (positions (snake g))) &&
  negb (existsb (fun t => cell_eqb (position t) pos) (targets g)).

(** [Game._spawn_target]: the [while True] loop, one round per unit of
    fuel. *)
Fixpoint spawn_loop (fuel : nat) (g : Game) : M Cell :=
  match fuel with
  | O => fun _ => OutOfDraws
  | S fuel' =>
      x <- randrange 30 (window_width CONFIG - 60) 30 ;;
      y <- randrange 30 (window_height CONFIG - 60) 30 ;;
      let pos := (x, y) in
      if is_free g pos then ret pos else spawn_loop fuel' g
  end.

(** Every round takes two draws from the world, so the loop can never
    need more rounds than there are draws. *)
Definition _spawn_target (g : Game) : M Cell :=
  fun w => spawn_loop (S (List.length (draws w))) g w.

(** [Game._spawn_multiple_targets] *)
Definition _spawn_multiple_targets (g : Game) : M Game :=
  for_each [0; 1]
    (fun target_type =>
       for_each (seq 0 3)
         (fun _ g =>
            pos <- _spawn_target g ;;
            ret (with_targets
                   (targets g ++ [{| position := pos; type := target_type |}])
                   g)))
    g.

(** [Game.reset_game] *)
Definition reset_game (g : Game) : M Game :=
  let g1 :=
    with_snake (Snake_init CONFIG (window_width CONFIG * 3 / 4)
                                  (window_height CONFIG / 2)) g in
  let g2 := with_targets [] g1 in
  g3 <- _spawn_multiple_targets g2 ;;
  ret (with_score 0 g3).

(** [Game._load_high_score] *)
Definition _load_high_score : M Z :=
  try_except
    (text <- read_highscore_txt ;; lift (int_of_text text))
    FileNotFoundError
    (ret 0).

(** [Game._save_high_score] *)
Definition _save_high_score (g : Game) : M unit :=
  write_highscore_txt (py_str (high_score g)).

(** [Game.__init__], without the loading of images and sounds. *)
Definition Game_init : M Game :=
  hs <- _load_high_score ;;
  reset_game {| state := MENU; score := 0; high_score := hs;
                is_hovered := false;
                snake := Snake_init CONFIG 0 0; targets := [] |}.

(** [Button.handle_event] on the start button. *)
Definition Button_handle_event (e : Event) (g : Game) : bool * Game :=
  match e with
  | MOUSEMOTION pos =>
      (false, with_is_hovered (collidepoint start_button_rect pos) g)
  | MOUSEBUTTONDOWN => (is_hovered g, g)
  | _ => (false, g)
  end.

(** Lines 340 to 356: an arrow key in the PLAYING state. *)
Definition keydown_playing (key : Key) (g : Game) : Game :=
  let d := direction (snake g) in
  let new_direction :=
    match key with
    | K_UP => if negb (cell_eqb d (0, 1)) then Some (0, -1) else None
    | K_DOWN => if negb (cell_eqb d (0, -1)) then Some (0, 1) else None
    | K_LEFT => if negb (cell_eqb d (1, 0)) then Some (-1, 0) else None
    | K_RIGHT => if negb (cell_eqb d (-1, 0)) then Some (1, 0) else None
    | _ => None
    end in
  match new_direction with
  | Some nd => with_snake (with_direction nd nd (snake g)) g
  | None => g
  end.

(** The body of the event loop of [Game.handle_input] for an event other
    than [QUIT]. *)
Definition handle_event (e : Event) (g : Game) : M Game :=
  g1 <- match e with
        | KEYDOWN key =>
            if GameState_eqb (state g) PLAYING then
              ret (keydown_playing key g)
            else
              match key, state g with
              | K_SPACE, GAME_OVER =>
                  g' <- reset_game g ;; ret (with_state MENU g')
              | _, _ => ret g
              end
        | _ => ret g
        end ;;
  if GameState_eqb (state g1) MENU then
    let '(clicked, g2) := Button_handle_event e g1 in
    if clicked then ret (with_state PLAYING g2) else ret g2
  else ret g1.

(** [Game.handle_input] on the events [pygame.event.get()] delivers. *)
Fixpoint handle_input (events : list Event) (g : Game) : M (bool * Game) :=
  match events with
  | [] => ret (true, g)
  | QUIT :: _ => ret (false, g)
  | e :: rest => g' <- handle_event e g ;; handle_input rest g'
  end.

(** Lines 371 to 377 of [Game.update]: the move timer and the move. *)
Definition advance_snake (s : Snake) : outcome Snake :=
  if negb (cell_eqb (direction s) (0, 0)) then
    let s1 := with_move_timer (move_timer s + 1) s in
    if speed s1 =? 0 then Raise ZeroDivisionError
    else if move_timer s1 >=? 60 / speed s1 then
      obind (move s1) (fun s2 => Ret (with_move_timer 0 s2))
    else Ret s1
  else Ret s.

(** Lines 394 to 405: one round of the loop over [enumerate(self.targets)];
    the loop state is [collected_targets], the snake and the score. *)
Definition collect_step (head_rect : Rect)
    (acc : list nat * Snake * Z) (it : nat * Target) : list nat * Snake * Z :=
  let '(collected_targets, s, sc) := acc in
  let '(i, target) := it in
  if colliderect head_rect (cell_rect (position target)) then
    (collected_targets ++ [i],
     grow CONFIG s,
     sc + (if type target =? 0 then target_1_points CONFIG
           else target_2_points CONFIG))
  else acc.

Definition enumerate {A} (l : list A) : list (nat * A) :=
  combine (seq 0 (List.length l)) l.

(** Lines 408 to 414: one round of the replacement loop. *)
Definition replace_target (i : nat) (g : Game) : M Game :=
  match nth_error (targets g) i with
  | None => lift (Raise IndexError)
  | Some t =>
      let target_type := type t in
      let g1 := with_targets (pop i (targets g)) g in
      pos <- _spawn_target g1 ;;
      ret (with_targets
             (targets g1 ++ [{| position := pos; type := target_type |}])
             g1)
  end.

(** [Game.update] *)
Definition update (g : Game) : M Game :=
  if GameState_eqb (state g) PLAYING then
    s1 <- lift (advance_snake (snake g)) ;;
    hit <- lift (check_collision s1 walls) ;;
    if hit then
      let g1 := with_state GAME_OVER (with_snake s1 g) in
      if score g1 >? high_score g1 then
        let g2 := with_high_score (score g1) g1 in
        _save_high_score g2 ;;; ret g2
      else ret g1
    else
      match positions s1 with
      | [] => lift (Raise IndexError)
      | head :: _ =>
          let head_rect := cell_rect head in
          let '(collected_targets, s2, sc) :=
            fold_left (collect_step head_rect) (enumerate (targets g))
                      ([], s1, score g) in
          for_each (rev collected_targets) replace_target
                   (with_score sc (with_snake s2 g))
      end
  else ret g.

(** One round of the loop of [Game.run], without drawing and clock: the
    events of the frame are handled, then the game is updated, also on the
    frame that brings [QUIT]. *)
Definition frame (events : list Event) (g : Game) : M (bool * Game) :=
  r <- handle_input events g ;;
  g' <- update (snd r) ;;
  ret (fst r, g').

(** [Game.run] on the events of a number of frames. *)
Fixpoint run (frames : list (list Event)) (g : Game) : M Game :=
  match frames with
  | [] => ret g
  | events :: frames' =>
      r <- frame events g ;;
      if fst r then run frames' (snd r) else ret (snd r)
  end.

End GameClass.

(** ** Vocabulary of the statements *)

(** Number of cells in the body list, as an integer. *)
Definition body_size (s : Snake) : Z := Z.of_nat (List.length (positions s)).

(** [n] calls of [Snake.move] in a row, with no growth in between. *)
Fixpoint moves (n : nat) (s : Snake) : outcome Snake :=
  match n with
  | O => Ret s
  | S n' => obind (move s) (moves n')
  end.

(** [n] calls of [Snake.grow] in a row. *)
Fixpoint grows (CONFIG : Config) (n : nat) (s : Snake) : Snake :=
  match n with
  | O => s
  | S n' => grows CONFIG n' (grow CONFIG s)
  end.

(** The number a string of decimal digits stands for, read left to right
    on top of the digits already read. *)
Fixpoint uint_value (acc : Z) (d : Decimal.uint) : Z :=
  match d with
  | Decimal.Nil => acc
  | Decimal.D0 l => uint_value (10 * acc + 0) l
  | Decimal.D1 l => uint_value (10 * acc + 1) l
  | Decimal.D2 l => uint_value (10 * acc + 2) l
  | Decimal.D3 l => uint_value (10 * acc + 3) l
  | Decimal.D4 l => uint_value (10 * acc + 4) l
  | Decimal.D5 l => uint_value (10 * acc + 5) l
  | Decimal.D6 l => uint_value (10 * acc + 6) l
  | Decimal.D7 l => uint_value (10 * acc + 7) l
  | Decimal.D8 l => uint_value (10 * acc + 8) l
  | Decimal.D9 l => uint_value (10 * acc + 9) l
  end.

(** The vector pointing the other way. *)
Definition opposite (d : Z * Z) : Z * Z := (- fst d, - snd d).

(** The direction an arrow key asks for. *)
Definition requested (key : Key) : option (Z * Z) :=
  match key with
  | K_UP => Some (0, -1)
  | K_DOWN => Some (0, 1)
  | K_LEFT => Some (-1, 0)
  | K_RIGHT => Some (1, 0)
  | _ => None
  end.

(** Number of targets of one type. *)
Definition count_type (ty : Z) (ts : list Target) : nat :=
  List.length (filter (fun t => type t =? ty) ts).

(** *** The cells the spawner can reach *)

(** The number of values [randrange(30, width - 60, 30)] chooses from, and
    the same for the height. *)
Definition spawn_columns (CONFIG : Config) : Z :=
  (window_width CONFIG - 60 - 30 + 30 - 1) / 30.

Definition spawn_rows (CONFIG : Config) : Z :=
  (window_height CONFIG - 60 - 30 + 30 - 1) / 30.

(** The candidate a round of the spawner builds from its two draws. *)
Definition cell_of_draws (CONFIG : Config) (a b : nat) : Cell :=
  (30 + 30 * (Z.of_nat a mod spawn_columns CONFIG),
   30 + 30 * (Z.of_nat b mod spawn_rows CONFIG)).

(** A cell the spawner can propose. *)
Definition spawnable (CONFIG : Config) (pos : Cell) : Prop :=
  (30 <= fst pos < window_width CONFIG - 60 /\ fst pos mod 30 = 0) /\
  (30 <= snd pos < window_height CONFIG - 60 /\ snd pos mod 30 = 0).

(** The interior grid the specification speaks of: a cell of the 30-pixel
    grid of the window that touches none of [self.walls], that is, the
    playfield without its border of wall cells. *)
Definition interior_cell (CONFIG : Config) (pos : Cell) : bool :=
  (fst pos mod 30 =? 0) && (snd pos mod 30 =? 0) &&
  (0 <=? fst pos) && (fst pos <? window_width CONFIG) &&
  (0 <=? snd pos) && (snd pos <? window_height CONFIG) &&
  negb (existsb (fun wall => colliderect (cell_rect pos) wall) (walls CONFIG)).

(** No two targets on one cell. *)
Definition targets_distinct (g : Game) : Prop :=
  NoDup (map position (targets g)).

(** The target list of a game at rest: three targets of each type, on
    different cells. *)
Definition targets_at_rest (g : Game) : Prop :=
  count_type 0 (targets g) = 3%nat /\
  count_type 1 (targets g) = 3%nat /\
  targets_distinct g.

(** No target on a cell of the snake. *)
Definition targets_off_snake (g : Game) : Prop :=
  forall t, In t (targets g) -> ~ In (position t) (positions (snake g)).

(** The draws of a world, read two at a time as the spawner does. *)
Definition draws_of_pairs (pairs : list (nat * nat)) : list nat :=
  flat_map (fun ab => [fst ab; snd ab]) pairs.

Definition cell_of_pair (CONFIG : Config) (ab : nat * nat) : Cell :=
  cell_of_draws CONFIG (fst ab) (snd ab).

(** Pairs of draws that name pairwise different cells, all of them free in
    the given game. *)
Definition fresh_pairs (CONFIG : Config) (g : Game)
    (pairs : list (nat * nat)) : Prop :=
  NoDup (map (cell_of_pair CONFIG) pairs) /\
  forall ab, In ab pairs -> is_free g (cell_of_pair CONFIG ab) = true.

(** The pairs of indices the two [randrange] calls choose from, and the
    cells they name: the range of the spawner. *)
Definition all_pairs (CONFIG : Config) : list (nat * nat) :=
  list_prod (seq 0 (Z.to_nat (spawn_columns CONFIG)))
            (seq 0 (Z.to_nat (spawn_rows CONFIG))).

Definition spawn_cells (CONFIG : Config) : list Cell :=
  map (cell_of_pair CONFIG) (all_pairs CONFIG).

(** *** Counting runs of the spawner

    The generator picks each index of a [randrange] call with the same
    chance, so every sequence of [k] pairs of indices is as likely as any
    other.  Chances are therefore ratios of counts over [rounds CONFIG k],
    the list of all these sequences. *)
Fixpoint rounds (CONFIG : Config) (k : nat) : list (list (nat * nat)) :=
  match k with
  | O => [[]]
  | S k' =>
      flat_map (fun p => map (cons p) (rounds CONFIG k')) (all_pairs CONFIG)
  end.

(** The spawner run on a world that holds the given pairs of draws. *)
Definition spawn_on (CONFIG : Config) (g : Game) (ps : list (nat * nat))
  : outcome (Cell * World) :=
  _spawn_target CONFIG g
    {| draws := draws_of_pairs ps; highscore_txt := Absent |}.

Definition returns_cell (CONFIG : Config) (g : Game) (pos : Cell)
    (ps : list (nat * nat)) : bool :=
  match spawn_on CONFIG g ps with
  | Ret (c, _) => cell_eqb c pos
  | _ => false
  end.

Definition still_looping (CONFIG : Config) (g : Game)
    (ps : list (nat * nat)) : bool :=
  match spawn_on CONFIG g ps with
  | OutOfDraws => true
  | _ => false
  end.

(** Among the sequences of [k] rounds: how many make the spawner return the
    cell, and how many leave it in its loop. *)
Definition count_returning (CONFIG : Config) (g : Game) (k : nat)
    (pos : Cell) : nat :=
  List.length (filter (returns_cell CONFIG g pos) (rounds CONFIG k)).

Definition count_looping (CONFIG : Config) (g : Game) (k : nat) : nat :=
  List.length (filter (still_looping CONFIG g) (rounds CONFIG k)).

(** The pairs of indices that name an occupied cell. *)
Definition occupied_pairs (CONFIG : Config) (g : Game) : list (nat * nat) :=
  filter (fun p => negb (is_free g (cell_of_pair CONFIG p))) (all_pairs CONFIG).

(** *** Vocabulary of the further properties *)

(** The moves of the game state that the handling of one event can make,
    and those a frame update can make. *)
Definition input_step (a b : GameState) : bool :=
  match a, b with
  | MENU, MENU | MENU, PLAYING
  | PLAYING, PLAYING
  | GAME_OVER, GAME_OVER | GAME_OVER, MENU => true
  | _, _ => false
  end.

Definition update_step (a b : GameState) : bool :=
  match a, b with
  | MENU, MENU
  | PLAYING, PLAYING | PLAYING, GAME_OVER
  | GAME_OVER, GAME_OVER => true
  | _, _ => false
  end.

Definition is_quit (e : Event) : bool :=
  match e with
  | QUIT => true
  | _ => false
  end.

(** [n] frames of the timer-and-move part of [Game.update]. *)
Fixpoint ticks (n : nat) (s : Snake) : outcome Snake :=
  match n with
  | O => Ret s
  | S n' => obind (advance_snake s) (ticks n')
  end.

(** The four directions the arrow keys stand for. *)
Definition unit_vector (d : Z * Z) : Prop :=
  d = (1, 0) \/ d = (-1, 0) \/ d = (0, 1) \/ d = (0, -1).

(** A position on the 30-pixel grid. *)
Definition aligned (c : Cell) : Prop :=
  fst c mod 30 = 0 /\ snd c mod 30 = 0.

(** The targets the head rectangle overlaps, in the order of the list, and
    the points a target is worth. *)
Definition overlapping (head : Cell) (ts : list Target) : list Target :=
  filter (fun t => colliderect (cell_rect head) (cell_rect (position t))) ts.

Definition points_of (CONFIG : Config) (t : Target) : Z :=
  if type t =? 0 then target_1_points CONFIG else target_2_points CONFIG.

Definition total_points (CONFIG : Config) (ts : list Target) : Z :=
  fold_right Z.add 0 (map (points_of CONFIG) ts).

(** The inner playfield: where a 30 by 30 rectangle touches no wall. *)
Definition inside_walls (CONFIG : Config) (c : Cell) : Prop :=
  30 <= fst c <= window_width CONFIG - 60 /\
  30 <= snd c <= window_height CONFIG - 60.

(** The rectangle overlaps the window. *)
Definition on_screen (CONFIG : Config) (c : Cell) : Prop :=
  -30 < fst c < window_width CONFIG /\ -30 < snd c < window_height CONFIG.

(** pygame keeps the coordinates and the size of a [Rect] as C ints.  A
    rectangle is in range when its coordinates and its far edges are. *)
Definition c_int (z : Z) : Prop := - 2 ^ 31 <= z < 2 ^ 31.

Definition rect_in_range (r : Rect) : Prop :=
  c_int (rx r) /\ c_int (ry r) /\
  c_int (rx r + rw r) /\ c_int (ry r + rh r).

(** What a run keeps true of the snake. *)
Definition snake_sound (s : Snake) : Prop :=
  positions s <> [] /\ 0 < speed s.

Definition snake_oriented (s : Snake) : Prop :=
  unit_vector (facing s) /\
  (direction s = (0, 0) \/ direction s = facing s).

(** A configuration under which the game can run: a positive speed, a
    speed step that is no decrease, and a non-empty range for the
    spawner. *)
Definition playable (CONFIG : Config) : Prop :=
  0 < initial_speed CONFIG /\
  0 <= speed_increase_amount CONFIG /\
  0 < spawn_columns CONFIG /\
  0 < spawn_rows CONFIG.

(** Two games that differ in their targets at most. *)
Definition same_but_targets (g g' : Game) : Prop :=
  state g' = state g /\ score g' = score g /\
  high_score g' = high_score g /\ is_hovered g' = is_hovered g /\
  snake g' = snake g.

(** The indices, counted from [k], of the targets the head overlaps. *)
Fixpoint overlap_indices (head : Cell) (k : nat) (ts : list Target)
  : list nat :=
  match ts with
  | [] => []
  | t :: ts' =>
      if colliderect (cell_rect head) (cell_rect (position t))
      then k :: overlap_indices head (S k) ts'
      else overlap_indices head (S k) ts'
  end.

(** The targets the head does not overlap. *)
Definition untouched (head : Cell) (ts : list Target) : list Target :=
  filter (fun t => negb (colliderect (cell_rect head)
                                     (cell_rect (position t)))) ts.

(** Targets put behind a list one after the other, each on a cell that,
    when it is put, is no cell of the snake and the cell of no target of
    the list: what [_spawn_target] checks before it returns. *)
Fixpoint each_on_free_cell (body : list Cell) (olds news : list Target)
  : Prop :=
  match news with
  | [] => True
  | t :: news' =>
      ~ In (position t) body /\
      ~ In (position t) (map position olds) /\
      each_on_free_cell body (olds ++ [t]) news'
  end.

(** *** A configuration and some games to run the code on *)

(** An 800 by 600 window: 24 columns and 17 rows for the spawner. *)
Definition example_config : Config :=
  {| window_width := 800; window_height := 600;
     initial_length := 3; initial_speed := 10;
     targets_before_speedup := 5; max_speed := 20;
     speed_increase_amount := 1;
     target_1_points := 10; target_2_points := 20 |}.

(** The snake of a fresh game: head at (600, 300), body to its left. *)
Definition example_snake : Snake := Snake_init example_config 600 300.

Definition example_targets : list Target :=
  [ {| position := (600, 270); type := 0 |};
    {| position := (60, 90); type := 0 |};
    {| position := (30, 30); type := 0 |};
    {| position := (720, 510); type := 1 |};
    {| position := (180, 180); type := 1 |};
    {| position := (210, 210); type := 1 |} ].

(** A snake about to move, in the given direction, on the next frame. *)
Definition snake_heading (d : Z * Z) : Snake :=
  with_move_timer 5 (with_direction d d example_snake).

Definition example_game (st : GameState) (d : Z * Z) : Game :=
  {| state := st; score := 500; high_score := 300; is_hovered := false;
     snake := snake_heading d; targets := example_targets |}.

Definition example_world : World :=
  {| draws := [19; 9; 3; 3; 4; 4]%nat; highscore_txt := Content (ascii_text "300") |}.

(** The snake after it has turned left into its own body, and a game in
    which a target lies on that very cell. *)
Definition folded_snake : Snake :=
  {| positions := [(570, 300); (600, 300); (570, 300)];
     direction := (-1, 0); length := 3; speed := 10; move_timer := 0;
     facing := (-1, 0); targets_collected := 0 |}.

Definition folding_game : Game :=
  with_targets ({| position := (570, 300); type := 1 |} :: example_targets)
               (example_game PLAYING (-1, 0)).

(** A path through a grid of index pairs, column by column, up one column
    and down the next. *)
Definition serpentine (columns rows : nat) : list (nat * nat) :=
  flat_map
    (fun i => map (pair i)
                  (if Nat.even i then seq 0 rows else rev (seq 0 rows)))
    (seq 0 columns).

(** A snake whose body winds through every cell of the spawner's range. *)
Definition full_snake : Snake :=
  {| positions := map (cell_of_pair example_config) (serpentine 24 17);
     direction := (0, -1); length := 408; speed := 20; move_timer := 0;
     facing := (0, -1); targets_collected := 405 |}.

Definition full_game : Game :=
  {| state := PLAYING; score := 4050; high_score := 300; is_hovered := false;
     snake := full_snake; targets := [] |}.

(** *** More inputs to run the code on *)

(** A world for a whole run: the draws of six targets on free cells, and
    some more. *)
Definition start_world : World :=
  {| draws := [0; 0; 1; 2; 19; 8; 23; 16; 5; 5; 6; 6; 3; 3; 4; 4]%nat;
     highscore_txt := Content (ascii_text "300") |}.

(** The events of seven frames: the click on the start button, the up
    arrow, and five frames without events, at the end of which the snake
    reaches the target above its head. *)
Definition example_frames : list (list Event) :=
  [ [MOUSEMOTION (400, 260); MOUSEBUTTONDOWN]; [KEYDOWN K_UP];
    []; []; []; []; [] ].

(** The example snake after its move upwards. *)
Definition risen_snake : Snake :=
  {| positions := [(600, 270); (600, 300); (570, 300)];
     direction := (0, -1); length := 3; speed := 10; move_timer := 0;
     facing := (0, -1); targets_collected := 0 |}.

(** A snake next to the right wall, heading for it. *)
Definition edge_snake : Snake :=
  with_positions [(720, 300); (690, 300); (660, 300)] (snake_heading (1, 0)).

(** A window too narrow for the spawner. *)
Definition narrow_config : Config :=
  {| window_width := 90; window_height := 600;
     initial_length := 3; initial_speed := 10;
     targets_before_speedup := 5; max_speed := 20;
     speed_increase_amount := 1;
     target_1_points := 10; target_2_points := 20 |}.

(** ** Proof steps used throughout *)

(** [H] says that a computation in [M] returned and the computation starts
    with a step [m]: split on what [m] did, keep the case in which it
    returned [a] and the world [w], and record that as [E]. *)
Tactic Notation "first_step" "in" hyp(H) "as" ident(a) ident(w) ident(E) :=
  match type of H with
  | match ?m with _ => _ end = _ =>
      destruct m as [[a w]| |] eqn:E; try discriminate
  end.

(** ** The snake: body size, growth and speed *)

Lemma cell_eqb_eq (a b : Cell) : cell_eqb a b = true <-> a = b.
Proof.
  destruct a as [ax ay], b as [bx by_]; unfold cell_eqb; simpl.
  rewrite andb_true_iff, !Z.eqb_eq. split.
  - intros [-> ->]; reflexivity.
  - intros H; injection H; auto.
Qed.

Lemma cell_eqb_refl (a : Cell) : cell_eqb a a = true.
Proof. apply cell_eqb_eq; reflexivity. Qed.

Lemma length_removelast_cons {A} (a : A) (l : list A) :
  List.length (removelast (a :: l)) = List.length l.
Proof.
  rewrite removelast_firstn_len. simpl List.length. simpl Nat.pred.
  apply firstn_length_le. simpl. lia.
Qed.

(** One move: the call returns, the new head is put in front, the tail cell
    is dropped when the list would get longer than [length], and no other
    field changes. *)
Lemma move_spec (s : Snake) :
  positions s <> [] ->
  body_size s <= length s ->
  exists s' new_head,
    move s = Ret s' /\
    positions s' =
    new_head :: (if body_size s <? length s then positions s
                 else removelast (positions s)) /\
    length s' = length s /\
    body_size s' = Z.min (body_size s + 1) (length s).
Proof.
  intros Hne Hle. unfold move, body_size in *.
  destruct (positions s) as [|[x y] ps] eqn:Hp; [congruence|].
  destruct (direction s) as [dx dy].
  set (nh := (x + dx * 30, y + dy * 30)).
  eexists; exists nh; split; [reflexivity|].
  change (length (with_positions ?l s)) with (length s).
  cbn [positions with_positions].
  destruct (_ >? length s) eqn:E.
  - rewrite length_removelast_cons. apply Z.gtb_lt in E.
    replace (_ <? length s) with false
      by (symmetry; apply Z.ltb_ge; cbn [List.length] in *; lia).
    split; [reflexivity|]. split; [reflexivity|].
    cbn [List.length] in *. lia.
  - rewrite Z.gtb_ltb in E. apply Z.ltb_ge in E.
    replace (_ <? length s) with true
      by (symmetry; apply Z.ltb_lt; cbn [List.length] in *; lia).
    split; [reflexivity|]. split; [reflexivity|].
    cbn [List.length] in *. lia.
Qed.

Lemma moves_spec (n : nat) : forall s,
  positions s <> [] ->
  body_size s <= length s ->
  exists s',
    moves n s = Ret s' /\
    positions s' <> [] /\
    length s' = length s /\
    body_size s' = Z.min (body_size s + Z.of_nat n) (length s).
Proof.
  induction n as [|n IH]; intros s Hne Hle.
  - exists s. repeat split; auto. simpl. lia.
  - destruct (move_spec s Hne Hle) as (s1 & nh & Hm & Hp1 & Hl1 & Hb1).
    assert (Hne1 : positions s1 <> []) by (rewrite Hp1; discriminate).
    destruct (IH s1 Hne1) as (s2 & Hms & Hne2 & Hl2 & Hb2); [lia|].
    exists s2. simpl moves. rewrite Hm. simpl. rewrite Hms.
    repeat split; auto; lia.
Qed.

Lemma Snake_init_body_size (CONFIG : Config) (x y : Z) :
  1 <= initial_length CONFIG ->
  body_size (Snake_init CONFIG x y) = length (Snake_init CONFIG x y).
Proof.
  intros H. unfold body_size, Snake_init. simpl.
  rewrite length_map, length_seq. lia.
Qed.

(** C7. The body list never has more cells than the [length] field says:
    this holds for a fresh snake, [grow] keeps it, a move keeps it by
    dropping the tail cell when the list would get too long, and after at
    least [length] moves without growth the list has exactly [length]
    cells. *)
Theorem positions_never_exceed_length
    (CONFIG : Config) (x y : Z) (s : Snake) (n : nat) :
  1 <= initial_length CONFIG ->
  positions s <> [] ->
  body_size s <= length s ->
  body_size (Snake_init CONFIG x y) <= length (Snake_init CONFIG x y) /\
  body_size (grow CONFIG s) <= length (grow CONFIG s) /\
  (exists s' new_head,
      move s = Ret s' /\
      body_size s' <= length s' /\
      positions s' =
      new_head :: (if body_size s <? length s then positions s
                   else removelast (positions s))) /\
  (length s <= Z.of_nat n ->
   exists s', moves n s = Ret s' /\ body_size s' = length s').
Proof.
  intros Hcfg Hne Hle. split; [|split; [|split]].
  - rewrite Snake_init_body_size by assumption. lia.
  - unfold body_size, grow in *. simpl. lia.
  - destruct (move_spec s Hne Hle) as (s' & nh & Hm & Hp & Hl & Hb).
    exists s', nh. rewrite Hl. repeat split; auto. lia.
  - intros Hn. destruct (moves_spec n s Hne Hle) as (s' & Hm & _ & Hl & Hb).
    exists s'. split; [assumption|]. rewrite Hb, Hl.
    assert (0 <= body_size s) by (unfold body_size; lia). lia.
Qed.

(** ** Growth and speed *)

Lemma grow_fields (CONFIG : Config) (s : Snake) :
  length (grow CONFIG s) = length s + 1 /\
  targets_collected (grow CONFIG s) = targets_collected s + 1 /\
  positions (grow CONFIG s) = positions s /\
  direction (grow CONFIG s) = direction s.
Proof. repeat split. Qed.

Lemma grow_speed (CONFIG : Config) (s : Snake) :
  0 <= speed_increase_amount CONFIG ->
  speed s <= max_speed CONFIG ->
  speed s <= speed (grow CONFIG s) <= max_speed CONFIG.
Proof.
  intros Hinc Hmax. unfold grow; simpl.
  destruct ((targets_collected s + 1 >? targets_before_speedup CONFIG) &&
            (speed s <? max_speed CONFIG)); lia.
Qed.

Lemma grows_monotone (CONFIG : Config) (n : nat) : forall s,
  0 <= speed_increase_amount CONFIG ->
  speed s <= max_speed CONFIG ->
  length (grows CONFIG n s) = length s + Z.of_nat n /\
  targets_collected (grows CONFIG n s) = targets_collected s + Z.of_nat n /\
  speed s <= speed (grows CONFIG n s) <= max_speed CONFIG.
Proof.
  induction n as [|n IH]; intros s Hinc Hmax.
  - simpl. lia.
  - destruct (grow_speed CONFIG s Hinc Hmax) as [H1 H2].
    destruct (IH (grow CONFIG s) Hinc H2) as (Hl & Ht & Hs).
    destruct (grow_fields CONFIG s) as (Hl1 & Ht1 & _).
    change (grows CONFIG (S n) s) with (grows CONFIG n (grow CONFIG s)).
    rewrite Hl, Ht, Hl1, Ht1. lia.
Qed.

Lemma grows_add (CONFIG : Config) (m k : nat) : forall s,
  grows CONFIG (m + k) s = grows CONFIG k (grows CONFIG m s).
Proof.
  induction m as [|m IH]; intros s; [reflexivity|].
  simpl. apply IH.
Qed.

(** C8. Along any run of [grow] calls, [length] and [targets_collected]
    never go down, [speed] never goes down and never passes [max_speed],
    and every call made past the threshold while the speed is below the cap
    raises the speed by the configured step, cut off at the cap. *)
Theorem grow_is_monotone
    (CONFIG : Config) (s : Snake) (m k : nat) :
  0 <= speed_increase_amount CONFIG ->
  speed s <= max_speed CONFIG ->
  let before := grows CONFIG m s in
  let after := grows CONFIG (m + k) s in
  length before <= length after /\
  targets_collected before <= targets_collected after /\
  speed before <= speed after /\
  speed after <= max_speed CONFIG /\
  (targets_collected after + 1 > targets_before_speedup CONFIG ->
   speed after < max_speed CONFIG ->
   speed (grow CONFIG after) =
   Z.min (speed after + speed_increase_amount CONFIG) (max_speed CONFIG)).
Proof.
  intros Hinc Hmax before after.
  destruct (grows_monotone CONFIG m s Hinc Hmax) as (_ & _ & Hs).
  assert (Hb : speed before <= max_speed CONFIG) by (subst before; lia).
  destruct (grows_monotone CONFIG k before Hinc Hb) as (Hl & Ht & Hs').
  assert (E : after = grows CONFIG k before)
    by (subst after before; apply grows_add).
  rewrite E. repeat split; try lia.
  intros Hthr Hlt. unfold grow; simpl.
  replace (_ >? _) with true by (symmetry; apply Z.gtb_gt; lia).
  replace (_ <? _) with true by (symmetry; apply Z.ltb_lt; lia).
  reflexivity.
Qed.

(** ** What is written to the high-score file reads back *)

Lemma ascii_text_cons (c : ascii) (s : string) :
  ascii_text (String c s) = N_of_ascii c :: ascii_text s.
Proof. reflexivity. Qed.

Lemma int_digits_string_of_uint (d : Decimal.uint) :
  forall acc after_digit,
    int_digits acc after_digit (ascii_text (NilEmpty.string_of_uint d)) =
    match d with
    | Decimal.Nil => if after_digit then Some acc else None
    | _ => Some (uint_value acc d)
    end.
Proof.
  induction d as [|l IH|l IH|l IH|l IH|l IH|l IH|l IH|l IH|l IH|l IH];
    intros acc after_digit; [reflexivity|..];
    cbn [NilEmpty.string_of_uint]; rewrite ascii_text_cons;
    cbn [int_digits uint_value];
    match goal with
    | |- context [is_space ?c] =>
        change (is_space c) with false; change (c =? 95)%N with false
    end; cbv iota;
    match goal with
    | |- context [digit_of ?c] =>
        let v := eval vm_compute in (digit_of c) in
        change (digit_of c) with v
    end; cbv iota beta; rewrite IH; destruct l; reflexivity.
Qed.

Lemma uint_value_of_uint_acc (d : Decimal.uint) :
  forall p, uint_value (Z.pos p) d = Z.pos (Pos.of_uint_acc d p).
Proof.
  induction d as [|l IH|l IH|l IH|l IH|l IH|l IH|l IH|l IH|l IH|l IH];
    intros p; [reflexivity|..];
    cbn [uint_value Pos.of_uint_acc]; rewrite <- IH; f_equal; lia.
Qed.

Lemma uint_value_of_uint (d : Decimal.uint) :
  uint_value 0 d = Z.of_N (Pos.of_uint d).
Proof.
  induction d as [|l IH|l IH|l IH|l IH|l IH|l IH|l IH|l IH|l IH|l IH];
    [reflexivity | exact IH |..];
    cbn [uint_value Pos.of_uint Z.of_N];
    rewrite <- uint_value_of_uint_acc; reflexivity.
Qed.

Lemma py_int_digits (d : Decimal.uint) :
  d <> Decimal.Nil ->
  py_int (ascii_text (NilEmpty.string_of_uint d))
  = Some (Z.of_N (Pos.of_uint d)) /\
  int_digits 0 false (ascii_text (NilEmpty.string_of_uint d))
  = Some (Z.of_N (Pos.of_uint d)).
Proof.
  intros Hd. rewrite <- uint_value_of_uint.
  assert (H : int_digits 0 false (ascii_text (NilEmpty.string_of_uint d))
              = Some (uint_value 0 d))
    by (rewrite int_digits_string_of_uint; destruct d; congruence).
  split; [|exact H]. rewrite <- H.
  destruct d; [congruence|..]; reflexivity.
Qed.

(** [int(str(n)) == n] *)
Lemma py_int_py_str (n : Z) : py_int (py_str n) = Some n.
Proof.
  unfold py_str. destruct n as [|p|p]; [reflexivity|..];
    cbn [Z.to_int NilZero.string_of_int];
    pose proof (DecimalPos.Unsigned.to_uint_nonnil p) as Hnn;
    destruct (py_int_digits (Pos.to_uint p) Hnn) as [H1 H2];
    rewrite DecimalPos.Unsigned.of_to in H1, H2.
  - unfold NilZero.string_of_uint.
    destruct (Pos.to_uint p); [congruence|..]; exact H1.
  - rewrite ascii_text_cons.
    change (py_int (N_of_ascii "-" :: ?r))
      with (option_map Z.opp (int_digits 0 false r)).
    unfold NilZero.string_of_uint.
    destruct (Pos.to_uint p); [congruence|..]; rewrite H2; reflexivity.
Qed.

(** ** The frame update outside and at the end of a run *)

(** C10. In the MENU and GAME_OVER states [update] returns the game it was
    given, and the world it was given, untouched. *)
Theorem update_frame_outside_playing (CONFIG : Config) (g : Game) (w : World) :
  state g = MENU \/ state g = GAME_OVER ->
  update CONFIG g w = Ret (g, w).
Proof.
  intros [H | H]; unfold update; rewrite H; reflexivity.
Qed.

(** What [update] does on a frame whose collision check fires. *)
Lemma update_on_collision (CONFIG : Config) (g : Game) (w : World) (s1 : Snake) :
  state g = PLAYING ->
  advance_snake (snake g) = Ret s1 ->
  check_collision s1 (walls CONFIG) = Ret true ->
  update CONFIG g w =
  if score g >? high_score g then
    Ret (with_high_score (score g) (with_state GAME_OVER (with_snake s1 g)),
         {| draws := draws w; highscore_txt := Content (py_str (score g)) |})
  else
    Ret (with_state GAME_OVER (with_snake s1 g), w).
Proof.
  intros Hst Hadv Hhit. unfold update. rewrite Hst. cbn [GameState_eqb].
  unfold bind, lift. rewrite Hadv, Hhit.
  cbn [score high_score with_state with_snake].
  destruct (score g >? high_score g); reflexivity.
Qed.

(** [check_collision] answers whether the head touches a wall or lies on a
    body cell. *)
Lemma check_collision_spec (s : Snake) (ws : list Rect)
    (head : Cell) (body : list Cell) :
  positions s = head :: body ->
  check_collision s ws =
  Ret (existsb (fun wall => colliderect (cell_rect head) wall) ws
       || existsb (fun pos => cell_eqb head pos) body).
Proof.
  intros H. unfold check_collision. rewrite H.
  destruct (existsb _ ws); [reflexivity|].
  destruct (existsb _ body); reflexivity.
Qed.

Lemma check_collision_hit (s : Snake) (ws : list Rect)
    (head : Cell) (body : list Cell) :
  positions s = head :: body ->
  (exists wall, In wall ws /\ colliderect (cell_rect head) wall = true) \/
  In head body ->
  check_collision s ws = Ret true.
Proof.
  intros Hp H. rewrite (check_collision_spec s ws head body Hp).
  f_equal. apply orb_true_iff. destruct H as [(wall & Hin & Hc) | Hin].
  - left. apply existsb_exists. exists wall. split; assumption.
  - right. apply existsb_exists. exists head.
    split; [assumption | apply cell_eqb_refl].
Qed.

(** C1. When the snake, after the move of this frame, has its head on a
    wall or on one of its own body cells, the frame ends in GAME_OVER with
    the score, the targets and the snake as the move left them: the
    collision check comes before the target check, which is not run,
    whatever the targets are. *)
Theorem collision_precedes_collection
    (CONFIG : Config) (g : Game) (w : World) (s1 : Snake)
    (head : Cell) (body : list Cell) :
  state g = PLAYING ->
  advance_snake (snake g) = Ret s1 ->
  positions s1 = head :: body ->
  (exists wall, In wall (walls CONFIG) /\
                colliderect (cell_rect head) wall = true) \/
  In head body ->
  exists g' w',
    update CONFIG g w = Ret (g', w') /\
    state g' = GAME_OVER /\
    score g' = score g /\
    targets g' = targets g /\
    snake g' = s1 /\
    draws w' = draws w.
Proof.
  intros Hst Hadv Hp Hhit.
  pose proof (check_collision_hit s1 (walls CONFIG) head body Hp Hhit) as Hc.
  rewrite (update_on_collision CONFIG g w s1 Hst Hadv Hc).
  destruct (score g >? high_score g);
    eexists; eexists; (split; [reflexivity|]); repeat split.
Qed.

(** Loading right after a save gives the number that was saved. *)
Lemma load_after_save (n : Z) (ds : list nat) :
  let w := {| draws := ds; highscore_txt := Content (py_str n) |} in
  _load_high_score w = Ret (n, w).
Proof.
  unfold _load_high_score, try_except, bind, read_highscore_txt, lift,
    int_of_text. cbn [highscore_txt]. rewrite py_int_py_str. reflexivity.
Qed.

(** C6. On the frame that ends the run, a score above the high score
    replaces it, in the game and in [highscore.txt], from where the next
    start of the game loads it; any other score leaves both as they
    were. *)
Theorem high_score_updated_at_game_over
    (CONFIG : Config) (g : Game) (w : World) (s1 : Snake) :
  state g = PLAYING ->
  advance_snake (snake g) = Ret s1 ->
  check_collision s1 (walls CONFIG) = Ret true ->
  exists g' w',
    update CONFIG g w = Ret (g', w') /\
    state g' = GAME_OVER /\
    (score g > high_score g ->
     high_score g' = score g /\
     highscore_txt w' = Content (py_str (score g)) /\
     _load_high_score w' = Ret (score g, w')) /\
    (score g <= high_score g ->
     high_score g' = high_score g /\
     highscore_txt w' = highscore_txt w).
Proof.
  intros Hst Hadv Hhit.
  rewrite (update_on_collision CONFIG g w s1 Hst Hadv Hhit).
  destruct (score g >? high_score g) eqn:E;
    eexists; eexists; (split; [reflexivity|]); (split; [reflexivity|]).
  - apply Z.gtb_lt in E. split; intros; [|lia].
    split; [reflexivity|]. split; [reflexivity|]. apply load_after_save.
  - rewrite Z.gtb_ltb in E. apply Z.ltb_ge in E.
    split; intros; [lia | split; reflexivity].
Qed.

(** ** Direction changes *)

Lemma opposite_involutive (d : Z * Z) : opposite (opposite d) = d.
Proof. destruct d; unfold opposite; simpl; f_equal; lia. Qed.

Lemma cell_eqb_neq (a b : Cell) : cell_eqb a b = false <-> a <> b.
Proof.
  rewrite <- (cell_eqb_eq a b). destruct (cell_eqb a b); split; congruence.
Qed.

(** The guard of each arrow key: the key is taken exactly when the current
    direction is not the opposite of the one it asks for. *)
Lemma keydown_playing_spec (key : Key) (g : Game) (d : Z * Z) :
  requested key = Some d ->
  keydown_playing key g =
  if cell_eqb (direction (snake g)) (opposite d) then g
  else with_snake (with_direction d d (snake g)) g.
Proof.
  unfold keydown_playing.
  destruct key; simpl; intros H; inversion H; subst; clear H;
    unfold opposite; simpl;
    match goal with |- context [cell_eqb ?a ?b] => destruct (cell_eqb a b) end;
    reflexivity.
Qed.

(** C2. An arrow key pressed in the PLAYING state that asks for the exact
    opposite of the current direction changes nothing; any other arrow key
    is taken, so a new direction is never the opposite of the one before
    it. *)
Theorem reversal_is_rejected
    (CONFIG : Config) (g : Game) (w : World) (key : Key) (d : Z * Z) :
  state g = PLAYING ->
  requested key = Some d ->
  exists g',
    handle_event CONFIG (KEYDOWN key) g w = Ret (g', w) /\
    (direction (snake g) = opposite d -> g' = g) /\
    (direction (snake g) <> opposite d ->
     direction (snake g') = d /\ facing (snake g') = d) /\
    direction (snake g') <> opposite (direction (snake g)).
Proof.
  intros Hst Hreq.
  assert (Hd : d <> (0, 0))
    by (destruct key; inversion Hreq; discriminate).
  exists (keydown_playing key g). split.
  - unfold handle_event. rewrite Hst. cbn [GameState_eqb]. unfold bind, ret.
    replace (state (keydown_playing key g)) with PLAYING; [reflexivity|].
    rewrite (keydown_playing_spec key g d Hreq).
    destruct (cell_eqb _ _); simpl; congruence.
  - rewrite (keydown_playing_spec key g d Hreq).
    destruct (cell_eqb (direction (snake g)) (opposite d)) eqn:E.
    + apply cell_eqb_eq in E. split; [reflexivity|]. split; [congruence|].
      rewrite E, opposite_involutive. intros H. apply Hd.
      rewrite <- (opposite_involutive d), <- H. 
      destruct d as [dx dy]. unfold opposite in *; simpl in *.
      injection H; intros. f_equal; lia.
    + apply cell_eqb_neq in E. split; [congruence|].
      split; [intros _; split; reflexivity|].
      simpl. intros H. apply E. rewrite H. symmetry.
      apply opposite_involutive.
Qed.

(** ** Loading the high score *)

(** C5, as the code has it.  Only the absence of [highscore.txt] is turned
    into a high score of 0.  A file whose text is an integer literal as
    [int] reads it (white space around it, a sign, the decimal digits of
    any script, single underscores between digits) gives that integer;
    text that is no such literal raises [ValueError] and bytes that are no
    text raise [UnicodeDecodeError], and neither is caught.  The file is
    left as it is.  This is for literals of at most 4300 digits, the limit
    that [int] has by default. *)
Theorem load_high_score_cases (w : World) :
  within_max_str_digits (highscore_txt w) ->
  _load_high_score w =
  match highscore_txt w with
  | Absent => Ret (0, w)
  | Undecodable => Raise UnicodeDecodeError
  | Content text =>
      match py_int text with
      | Some n => Ret (n, w)
      | None => Raise ValueError
      end
  end.
Proof.
  intros _.
  unfold _load_high_score, try_except, bind, read_highscore_txt, lift,
    int_of_text, ret.
  destruct (highscore_txt w) as [| |text]; try reflexivity.
  destruct (py_int text); reflexivity.
Qed.

(** C5 as stated fails: a file holding text that is no integer makes the
    load raise instead of giving 0. *)
Lemma load_high_score_malformed_raises :
  let w := {| draws := []; highscore_txt := Content (ascii_text "abc") |} in
  py_int (ascii_text "abc") = None /\
  _load_high_score w = Raise ValueError /\
  ~ (exists w', _load_high_score w = Ret (0, w')).
Proof.
  simpl. split; [reflexivity|]. split; [reflexivity|].
  intros [w' H]. discriminate H.
Qed.

(** ** The spawner *)

Section Spawner.

Variable CONFIG : Config.

Lemma is_free_spec (g : Game) (pos : Cell) :
  is_free g pos = true <->
  ~ In pos (positions (snake g)) /\ ~ In pos (map position (targets g)).
Proof.
  unfold is_free. rewrite andb_true_iff, !negb_true_iff.
  rewrite <- !not_true_iff_false, !existsb_exists. split.
  - intros [H1 H2]. split; intros H.
    + apply H1. exists pos. split; [assumption | apply cell_eqb_refl].
    + apply in_map_iff in H. destruct H as (t & Ht & Hin).
      apply H2. exists t. split; [assumption|].
      rewrite Ht. apply cell_eqb_refl.
  - intros [H1 H2]. split; intros (x & Hin & Heq); apply cell_eqb_eq in Heq.
    + apply H1. now subst.
    + apply H2. apply in_map_iff. exists x. now split.
Qed.

(** One round of the loop on a world with at least two draws. *)
Lemma spawn_loop_round (fuel : nat) (g : Game) (a b : nat)
    (rest : list nat) (f : File) :
  0 < spawn_columns CONFIG ->
  0 < spawn_rows CONFIG ->
  spawn_loop CONFIG (S fuel) g {| draws := a :: b :: rest; highscore_txt := f |} =
  if is_free g (cell_of_draws CONFIG a b)
  then Ret (cell_of_draws CONFIG a b, {| draws := rest; highscore_txt := f |})
  else spawn_loop CONFIG fuel g {| draws := rest; highscore_txt := f |}.
Proof.
  intros Hx Hy. cbn [spawn_loop]. unfold bind at 1. unfold randrange at 1.
  fold (spawn_columns CONFIG).
  replace (spawn_columns CONFIG <=? 0) with false
    by (symmetry; apply Z.leb_gt; assumption).
  cbn [draws highscore_txt]. unfold bind at 1. unfold randrange at 1.
  fold (spawn_rows CONFIG).
  replace (spawn_rows CONFIG <=? 0) with false
    by (symmetry; apply Z.leb_gt; assumption).
  cbn [draws highscore_txt]. fold (cell_of_draws CONFIG a b).
  destruct (is_free g (cell_of_draws CONFIG a b)); reflexivity.
Qed.

(** Whatever the loop returns was built from two draws, with both ranges
    non-empty, and passed the test of line 319. *)
Lemma spawn_loop_sound (fuel : nat) : forall g w pos w',
  spawn_loop CONFIG fuel g w = Ret (pos, w') ->
  0 < spawn_columns CONFIG /\ 0 < spawn_rows CONFIG /\
  (exists a b, pos = cell_of_draws CONFIG a b) /\
  is_free g pos = true /\
  highscore_txt w' = highscore_txt w.
Proof.
  induction fuel as [|fuel IH]; intros g w pos w' H; [discriminate|].
  destruct w as [ds f].
  cbn [spawn_loop] in H. unfold bind at 1 in H. unfold randrange at 1 in H.
  fold (spawn_columns CONFIG) in H.
  destruct (spawn_columns CONFIG <=? 0) eqn:Ex; [discriminate|].
  apply Z.leb_gt in Ex. cbn [draws highscore_txt] in H.
  destruct ds as [|a ds]; [discriminate|].
  unfold bind at 1 in H. unfold randrange at 1 in H.
  fold (spawn_rows CONFIG) in H.
  destruct (spawn_rows CONFIG <=? 0) eqn:Ey; [discriminate|].
  apply Z.leb_gt in Ey. cbn [draws highscore_txt] in H.
  destruct ds as [|b ds]; [discriminate|].
  fold (cell_of_draws CONFIG a b) in H.
  destruct (is_free g (cell_of_draws CONFIG a b)) eqn:Efree.
  - inversion H; subst. repeat split; eauto.
  - apply IH in H. cbn [highscore_txt] in H. exact H.
Qed.

(** The loop does not depend on its fuel once the fuel covers the draws. *)
Lemma spawn_loop_fuel (f1 : nat) : forall f2 g w,
  (List.length (draws w) < 2 * f1)%nat ->
  (List.length (draws w) < 2 * f2)%nat ->
  spawn_loop CONFIG f1 g w = spawn_loop CONFIG f2 g w.
Proof.
  induction f1 as [|f1 IH]; intros f2 g w H1 H2; [lia|].
  destruct f2 as [|f2]; [lia|].
  destruct w as [ds f]. cbn [draws] in *.
  cbn [spawn_loop]. unfold bind at 1 3. unfold randrange at 1 3.
  destruct (_ <=? 0); [reflexivity|]. cbn [draws highscore_txt].
  destruct ds as [|a ds]; [reflexivity|].
  unfold bind at 1 2. unfold randrange at 1 2.
  destruct (_ <=? 0); [reflexivity|]. cbn [draws highscore_txt].
  destruct ds as [|b ds]; [reflexivity|].
  destruct (is_free g _); [reflexivity|].
  apply IH; cbn [draws List.length] in *; lia.
Qed.

(** [_spawn_target] on a world with at least two draws: the first free
    candidate is returned, an occupied one is skipped. *)
Lemma spawn_target_round (g : Game) (a b : nat) (rest : list nat) (f : File) :
  0 < spawn_columns CONFIG ->
  0 < spawn_rows CONFIG ->
  _spawn_target CONFIG g {| draws := a :: b :: rest; highscore_txt := f |} =
  if is_free g (cell_of_draws CONFIG a b)
  then Ret (cell_of_draws CONFIG a b, {| draws := rest; highscore_txt := f |})
  else _spawn_target CONFIG g {| draws := rest; highscore_txt := f |}.
Proof.
  intros Hx Hy. unfold _spawn_target. cbn [draws].
  rewrite spawn_loop_round by assumption.
  destruct (is_free g _); [reflexivity|].
  apply spawn_loop_fuel; cbn [draws List.length]; lia.
Qed.

Lemma spawn_target_sound (g : Game) (w : World) (pos : Cell) (w' : World) :
  _spawn_target CONFIG g w = Ret (pos, w') ->
  0 < spawn_columns CONFIG /\ 0 < spawn_rows CONFIG /\
  (exists a b, pos = cell_of_draws CONFIG a b) /\
  is_free g pos = true /\
  highscore_txt w' = highscore_txt w.
Proof. unfold _spawn_target. apply spawn_loop_sound. Qed.

(** The candidates are the cells of the range of the two [randrange]
    calls. *)
Lemma cell_of_draws_spawnable (a b : nat) :
  0 < spawn_columns CONFIG ->
  0 < spawn_rows CONFIG ->
  spawnable CONFIG (cell_of_draws CONFIG a b).
Proof.
  unfold spawn_columns, spawn_rows, spawnable, cell_of_draws.
  intros Hx Hy. cbn [fst snd].
  pose proof (Z.mod_pos_bound (Z.of_nat a) _ Hx) as Ha.
  pose proof (Z.mod_pos_bound (Z.of_nat b) _ Hy) as Hb.
  set (i := Z.of_nat a mod _) in *. set (j := Z.of_nat b mod _) in *.
  repeat split; try lia.
  - pose proof (Z.mul_div_le (window_width CONFIG - 60 - 30 + 30 - 1) 30). lia.
  - rewrite Z.add_comm, Z.mul_comm.
    replace (i * 30 + 30) with (30 + i * 30) by lia.
    rewrite Z.mod_add by lia. reflexivity.
  - pose proof (Z.mul_div_le (window_height CONFIG - 60 - 30 + 30 - 1) 30). lia.
  - replace (30 + 30 * j) with (30 + j * 30) by lia.
    rewrite Z.mod_add by lia. reflexivity.
Qed.

(** Conversely every cell of the range comes out of some pair of draws. *)
Lemma spawnable_cell_of_draws (pos : Cell) :
  spawnable CONFIG pos ->
  0 < spawn_columns CONFIG /\ 0 < spawn_rows CONFIG /\
  pos = cell_of_draws CONFIG (Z.to_nat ((fst pos - 30) / 30))
                             (Z.to_nat ((snd pos - 30) / 30)).
Proof.
  destruct pos as [x y]. unfold spawnable, cell_of_draws. cbn [fst snd].
  intros [[Hx Hxm] [Hy Hym]].
  assert (Ex : x = 30 + 30 * ((x - 30) / 30)).
  { pose proof (Z.div_mod x 30). pose proof (Z.div_mod (x - 30) 30).
    assert ((x - 30) mod 30 = 0).
    { replace (x - 30) with (x + (-1) * 30) by lia.
      rewrite Z.mod_add by lia. assumption. }
    lia. }
  assert (Ey : y = 30 + 30 * ((y - 30) / 30)).
  { pose proof (Z.div_mod y 30). pose proof (Z.div_mod (y - 30) 30).
    assert ((y - 30) mod 30 = 0).
    { replace (y - 30) with (y + (-1) * 30) by lia.
      rewrite Z.mod_add by lia. assumption. }
    lia. }
  set (i := (x - 30) / 30) in *. set (j := (y - 30) / 30) in *.
  assert (Hi : 0 <= i < spawn_columns CONFIG).
  { unfold spawn_columns. split; [lia|].
    apply Z.div_lt_upper_bound; [lia|].
    pose proof (Z.mul_succ_div_gt (window_width CONFIG - 60 - 30 + 30 - 1) 30).
    lia. }
  assert (Hj : 0 <= j < spawn_rows CONFIG).
  { unfold spawn_rows. split; [lia|].
    apply Z.div_lt_upper_bound; [lia|].
    pose proof (Z.mul_succ_div_gt (window_height CONFIG - 60 - 30 + 30 - 1) 30).
    lia. }
  split; [lia|]. split; [lia|].
  rewrite !Z2Nat.id by lia. rewrite !Z.mod_small by lia.
  congruence.
Qed.

End Spawner.

(** ** Spawned cells and the walls *)

Lemma colliderect_overlap (a b : Rect) :
  0 < rw a -> 0 < rh a -> 0 < rw b -> 0 < rh b ->
  colliderect a b = true <->
  rx a < rx b + rw b /\ ry a < ry b + rh b /\
  rx b < rx a + rw a /\ ry b < ry a + rh a.
Proof.
  intros Hwa Hha Hwb Hhb. unfold colliderect.
  replace (rw a =? 0) with false by (symmetry; apply Z.eqb_neq; lia).
  replace (rh a =? 0) with false by (symmetry; apply Z.eqb_neq; lia).
  replace (rw b =? 0) with false by (symmetry; apply Z.eqb_neq; lia).
  replace (rh b =? 0) with false by (symmetry; apply Z.eqb_neq; lia).
  cbn [orb]. rewrite !andb_true_iff, !Z.ltb_lt, !Z.gtb_lt. lia.
Qed.

Lemma colliderect_apart (a b : Rect) :
  0 < rw a -> 0 < rh a -> 0 < rw b -> 0 < rh b ->
  rx a + rw a <= rx b \/ rx b + rw b <= rx a \/
  ry a + rh a <= ry b \/ ry b + rh b <= ry a ->
  colliderect a b = false.
Proof.
  intros Hwa Hha Hwb Hhb H. apply not_true_iff_false.
  rewrite colliderect_overlap by assumption. lia.
Qed.

(** A cell of the spawner's range touches none of the four walls. *)
Lemma spawnable_interior (CONFIG : Config) (pos : Cell) :
  spawnable CONFIG pos -> interior_cell CONFIG pos = true.
Proof.
  destruct pos as [x y]. unfold spawnable, interior_cell. cbn [fst snd].
  intros [[Hx Hxm] [Hy Hym]].
  rewrite Hxm, Hym. cbn [Z.eqb andb].
  replace (0 <=? x) with true by (symmetry; apply Z.leb_le; lia).
  replace (x <? window_width CONFIG) with true
    by (symmetry; apply Z.ltb_lt; lia).
  replace (0 <=? y) with true by (symmetry; apply Z.leb_le; lia).
  replace (y <? window_height CONFIG) with true
    by (symmetry; apply Z.ltb_lt; lia).
  cbn [andb]. apply negb_true_iff. unfold walls. cbn [existsb].
  rewrite !colliderect_apart
    by (cbn [rx ry rw rh cell_rect fst snd]; lia).
  reflexivity.
Qed.

(** ** Loops over the target list *)

Lemma for_each_invariant {A S} (P : S -> Prop) (body : A -> S -> M S)
    (xs : list A) :
  (forall x s w s' w', P s -> body x s w = Ret (s', w') -> P s') ->
  forall s w s' w',
    P s -> for_each xs body s w = Ret (s', w') -> P s'.
Proof.
  intros Hbody. induction xs as [|x xs IH]; intros s w s' w' HP H.
  - inversion H; subst. assumption.
  - cbn [for_each] in H. unfold bind in H.
    destruct (body x s w) as [[s1 w1]| |] eqn:E; try discriminate.
    eapply IH; [|exact H]. eapply Hbody; eassumption.
Qed.

(** [pop] takes out the element at the index and nothing else. *)
Lemma pop_split {A} (i : nat) (l : list A) (t : A) :
  nth_error l i = Some t ->
  exists l1 l2, l = l1 ++ t :: l2 /\ pop i l = l1 ++ l2.
Proof.
  intros H. destruct (nth_error_split l i H) as (l1 & l2 & -> & Hlen).
  exists l1, l2. split; [reflexivity|]. unfold pop. subst i.
  rewrite firstn_app, firstn_all, Nat.sub_diag. cbn [firstn].
  rewrite app_nil_r. f_equal.
  replace (S (List.length l1)) with (List.length l1 + 1)%nat by lia.
  rewrite skipn_app, skipn_all2 by lia.
  replace (List.length l1 + 1 - List.length l1)%nat with 1%nat by lia.
  reflexivity.
Qed.

(** The spawn-and-append step shared by the initial spawn and the
    replacement loop. *)
Lemma spawn_append_spec (CONFIG : Config) (ty : Z) (g : Game) (w : World)
    (g' : Game) (w' : World) :
  (pos <- _spawn_target CONFIG g ;;
   ret (with_targets (targets g ++ [{| position := pos; type := ty |}]) g)) w
  = Ret (g', w') ->
  exists pos,
    spawnable CONFIG pos /\
    is_free g pos = true /\
    g' = with_targets (targets g ++ [{| position := pos; type := ty |}]) g /\
    highscore_txt w' = highscore_txt w.
Proof.
  unfold bind, ret. intros H.
  destruct (_spawn_target CONFIG g w) as [[pos w1]| |] eqn:E; try discriminate.
  inversion H; subst; clear H.
  destruct (spawn_target_sound CONFIG g w pos w' E)
    as (Hx & Hy & (a & b & Hpos) & Hfree & Hfile).
  exists pos. split; [|split; [|split]]; try assumption; try reflexivity.
  rewrite Hpos. apply cell_of_draws_spawnable; assumption.
Qed.

Lemma replace_target_spec (CONFIG : Config) (i : nat) (g : Game) (w : World)
    (g' : Game) (w' : World) :
  replace_target CONFIG i g w = Ret (g', w') ->
  exists t l1 l2 pos,
    targets g = l1 ++ t :: l2 /\
    spawnable CONFIG pos /\
    is_free (with_targets (l1 ++ l2) g) pos = true /\
    g' = with_targets
           ((l1 ++ l2) ++ [{| position := pos; type := type t |}]) g /\
    highscore_txt w' = highscore_txt w.
Proof.
  unfold replace_target. intros H.
  destruct (nth_error (targets g) i) as [t|] eqn:E; [|discriminate].
  destruct (pop_split i (targets g) t E) as (l1 & l2 & Hl & Hpop).
  rewrite Hpop in H.
  apply spawn_append_spec in H.
  destruct H as (pos & Hsp & Hfree & Hg' & Hfile).
  exists t, l1, l2, pos. split; [|split; [|split; [|split]]]; assumption.
Qed.

(** [update] keeps every property of the target list that the replacement
    step keeps. *)
Lemma update_targets_invariant (CONFIG : Config) (P : list Target -> Prop) :
  (forall i g w g' w',
      P (targets g) -> replace_target CONFIG i g w = Ret (g', w') ->
      P (targets g')) ->
  forall g w g' w',
    update CONFIG g w = Ret (g', w') ->
    P (targets g) -> P (targets g').
Proof.
  intros Hstep g w g' w' H HP. unfold update in H.
  destruct (GameState_eqb (state g) PLAYING).
  2:{ inversion H; subst; assumption. }
  unfold bind at 1 in H. unfold lift at 1 in H.
  destruct (advance_snake (snake g)) as [s1| |]; try discriminate.
  unfold bind at 1 in H. unfold lift at 1 in H.
  destruct (check_collision s1 (walls CONFIG)) as [hit| |]; try discriminate.
  destruct hit.
  - destruct (score _ >? high_score _).
    + unfold bind, _save_high_score, write_highscore_txt, ret in H.
      inversion H; subst. assumption.
    + inversion H; subst. assumption.
  - destruct (positions s1) as [|head body]; [discriminate|].
    destruct (fold_left _ _ _) as [[collected s2] sc].
    revert H.
    apply (for_each_invariant (fun g => P (targets g))
             (replace_target CONFIG)); [|exact HP].
    intros; eapply Hstep; eassumption.
Qed.

(** *** Distinct cells *)

Lemma replace_target_distinct (CONFIG : Config) (i : nat) (g : Game)
    (w : World) (g' : Game) (w' : World) :
  NoDup (map position (targets g)) ->
  replace_target CONFIG i g w = Ret (g', w') ->
  NoDup (map position (targets g')).
Proof.
  intros Hnd H.
  destruct (replace_target_spec CONFIG i g w g' w' H)
    as (t & l1 & l2 & pos & Hl & _ & Hfree & -> & _).
  cbn [targets with_targets]. rewrite Hl in Hnd.
  rewrite map_app in Hnd. cbn [map] in Hnd. apply NoDup_remove_1 in Hnd.
  apply is_free_spec in Hfree. destruct Hfree as [_ Hfree].
  cbn [targets with_targets] in Hfree.
  rewrite map_app. cbn [map position].
  rewrite <- map_app in Hnd.
  apply NoDup_app; [assumption | repeat constructor; intros [] |].
  intros x Hin [Hx | []]. subst x. contradiction.
Qed.

Lemma spawn_append_distinct (CONFIG : Config) (ty : Z) (g : Game) (w : World)
    (g' : Game) (w' : World) :
  targets_distinct g /\ targets_off_snake g ->
  (pos <- _spawn_target CONFIG g ;;
   ret (with_targets (targets g ++ [{| position := pos; type := ty |}]) g)) w
  = Ret (g', w') ->
  (targets_distinct g' /\ targets_off_snake g') /\ snake g' = snake g.
Proof.
  intros [Hnd Hoff] H.
  destruct (spawn_append_spec CONFIG ty g w g' w' H)
    as (pos & _ & Hfree & -> & _).
  apply is_free_spec in Hfree. destruct Hfree as [Hsn Hts].
  unfold targets_distinct, targets_off_snake in *.
  cbn [targets with_targets snake]. repeat split.
  - rewrite map_app. cbn [map position].
    apply NoDup_app; [assumption | repeat constructor; intros [] |].
    intros x Hin [Hx | []]. subst x. contradiction.
  - intros t Hin. apply in_app_iff in Hin. destruct Hin as [Hin | [<- | []]].
    + apply Hoff; assumption.
    + assumption.
Qed.

(** *** Counting by type *)

Lemma count_type_app (ty : Z) (l1 l2 : list Target) :
  count_type ty (l1 ++ l2) = (count_type ty l1 + count_type ty l2)%nat.
Proof. unfold count_type. rewrite filter_app, length_app. reflexivity. Qed.

Lemma replace_target_count (CONFIG : Config) (ty : Z) (i : nat) (g : Game)
    (w : World) (g' : Game) (w' : World) :
  replace_target CONFIG i g w = Ret (g', w') ->
  count_type ty (targets g') = count_type ty (targets g).
Proof.
  intros H.
  destruct (replace_target_spec CONFIG i g w g' w' H)
    as (t & l1 & l2 & pos & Hl & _ & _ & -> & _).
  cbn [targets with_targets]. rewrite Hl.
  rewrite !count_type_app.
  change (t :: l2) with ([t] ++ l2). rewrite count_type_app.
  unfold count_type at 3 5. cbn [filter type].
  destruct (type t =? ty); cbn [List.length]; lia.
Qed.

Lemma count_type_map_same (ty : Z) (ps : list Cell) :
  count_type ty (map (fun p => {| position := p; type := ty |}) ps)
  = List.length ps.
Proof.
  unfold count_type. induction ps as [|p ps IH]; [reflexivity|].
  cbn [map filter type]. rewrite Z.eqb_refl. cbn [List.length].
  now rewrite IH.
Qed.

Lemma count_type_map_other (ty ty' : Z) (ps : list Cell) :
  ty' <> ty ->
  count_type ty (map (fun p => {| position := p; type := ty' |}) ps) = 0%nat.
Proof.
  intros Hne. unfold count_type. induction ps as [|p ps IH]; [reflexivity|].
  cbn [map filter type].
  replace (ty' =? ty) with false by (symmetry; apply Z.eqb_neq; assumption).
  exact IH.
Qed.

(** *** The initial spawn *)

(** The inner loop of [_spawn_multiple_targets]: one target of the given
    type per round, each on a free cell of the spawner's range. *)
Lemma spawn_row_spec (CONFIG : Config) (ty : Z) (xs : list nat) :
  forall g w g' w',
    for_each xs
      (fun _ g =>
         pos <- _spawn_target CONFIG g ;;
         ret (with_targets
                (targets g ++ [{| position := pos; type := ty |}]) g))
      g w = Ret (g', w') ->
    (exists ps,
        List.length ps = List.length xs /\
        Forall (spawnable CONFIG) ps /\
        targets g' =
        targets g ++ map (fun p => {| position := p; type := ty |}) ps) /\
    snake g' = snake g /\
    (targets_distinct g /\ targets_off_snake g ->
     targets_distinct g' /\ targets_off_snake g').
Proof.
  induction xs as [|x xs IH]; intros g w g' w' H.
  - inversion H; subst. split; [|split; [reflexivity | tauto]].
    exists []. split; [reflexivity|]. split; [constructor|].
    cbn [map]. now rewrite app_nil_r.
  - cbn [for_each] in H. unfold bind at 1 in H.
    first_step in H as g1 w1 E.
    destruct (IH g1 w1 g' w' H) as ((ps & Hlen & Hsp & Hts) & Hsn & Hinv).
    pose proof (spawn_append_spec CONFIG ty g w g1 w1 E)
      as (pos & Hpos & _ & Hg1 & _).
    split; [|split].
    + exists (pos :: ps). split; [cbn [List.length]; lia|].
      split; [constructor; assumption|].
      rewrite Hts, Hg1. cbn [targets with_targets map].
      now rewrite <- app_assoc.
    + rewrite Hsn, Hg1. reflexivity.
    + intros Hg. apply Hinv.
      apply (spawn_append_distinct CONFIG ty g w g1 w1 Hg E).
Qed.

Lemma spawn_multiple_targets_spec (CONFIG : Config) (g : Game) (w : World)
    (g' : Game) (w' : World) :
  targets g = [] ->
  _spawn_multiple_targets CONFIG g w = Ret (g', w') ->
  count_type 0 (targets g') = 3%nat /\
  count_type 1 (targets g') = 3%nat /\
  List.length (targets g') = 6%nat /\
  Forall (spawnable CONFIG) (map position (targets g')) /\
  targets_distinct g' /\ targets_off_snake g' /\
  snake g' = snake g.
Proof.
  intros Hnil H. unfold _spawn_multiple_targets in H.
  cbn [for_each] in H. unfold bind at 1 in H.
  first_step in H as g0 w0 E0.
  unfold bind at 1 in H.
  first_step in H as g1 w1 E1.
  inversion H; subst g1 w1; clear H.
  destruct (spawn_row_spec CONFIG 0 (seq 0 3) g w g0 w0 E0)
    as ((ps0 & Hl0 & Hs0 & Ht0) & Hsn0 & Hinv0).
  destruct (spawn_row_spec CONFIG 1 (seq 0 3) g0 w0 g' w' E1)
    as ((ps1 & Hl1 & Hs1 & Ht1) & Hsn1 & Hinv1).
  rewrite Hnil in Ht0. cbn [app] in Ht0. rewrite Ht0 in Ht1.
  cbn [List.length seq] in Hl0, Hl1.
  assert (Hinv : targets_distinct g /\ targets_off_snake g).
  { unfold targets_distinct, targets_off_snake. rewrite Hnil.
    split; [constructor | intros t []]. }
  destruct (Hinv1 (Hinv0 Hinv)) as [Hd Ho].
  rewrite Ht1, !count_type_app, !count_type_map_same.
  rewrite !count_type_map_other by discriminate.
  rewrite length_app, !length_map, Hl0, Hl1.
  repeat (split; [reflexivity|]).
  split; [|split; [assumption | split; [assumption | congruence]]].
  rewrite map_app, !map_map. cbn [position]. rewrite !map_id.
  apply Forall_app. split; assumption.
Qed.

Lemma reset_game_spec (CONFIG : Config) (g : Game) (w : World)
    (g' : Game) (w' : World) :
  reset_game CONFIG g w = Ret (g', w') ->
  count_type 0 (targets g') = 3%nat /\
  count_type 1 (targets g') = 3%nat /\
  List.length (targets g') = 6%nat /\
  Forall (spawnable CONFIG) (map position (targets g')) /\
  targets_distinct g' /\ targets_off_snake g' /\
  score g' = 0.
Proof.
  unfold reset_game. intros H. unfold bind at 1 in H.
  first_step in H as g3 w3 E.
  inversion H; subst g' w'; clear H.
  apply spawn_multiple_targets_spec in E; [|reflexivity].
  destruct E as (H0 & H1 & H6 & Hsp & Hd & Ho & _).
  cbn [targets with_score score]. repeat (split; [assumption|]).
  reflexivity.
Qed.

(** ** Spawning on fresh draws returns *)

Section FreshDraws.

Variable CONFIG : Config.
Hypothesis columns_pos : 0 < spawn_columns CONFIG.
Hypothesis rows_pos : 0 < spawn_rows CONFIG.

Lemma is_free_targets_incl (g : Game) (ts' : list Target) (pos : Cell) :
  (forall t, In t ts' -> In t (targets g)) ->
  is_free g pos = true ->
  is_free (with_targets ts' g) pos = true.
Proof.
  intros Hincl H. apply is_free_spec in H. destruct H as [Hs Ht].
  apply is_free_spec. cbn [snake targets with_targets]. split; [assumption|].
  intros Hin. apply Ht. apply in_map_iff in Hin.
  destruct Hin as (t & <- & Hin). apply in_map. apply Hincl. assumption.
Qed.

Lemma spawn_append_fresh (ty : Z) (g : Game) (ab : nat * nat)
    (ps : list (nat * nat)) (rest : list nat) (f : File) :
  fresh_pairs CONFIG g (ab :: ps) ->
  let g' := with_targets
              (targets g ++
               [{| position := cell_of_pair CONFIG ab; type := ty |}]) g in
  (pos <- _spawn_target CONFIG g ;;
   ret (with_targets (targets g ++ [{| position := pos; type := ty |}]) g))
    {| draws := draws_of_pairs (ab :: ps) ++ rest; highscore_txt := f |}
  = Ret (g', {| draws := draws_of_pairs ps ++ rest; highscore_txt := f |}) /\
  fresh_pairs CONFIG g' ps.
Proof.
  intros [Hnd Hfree] g'. split.
  - unfold bind. cbn [draws_of_pairs flat_map app].
    rewrite spawn_target_round by assumption.
    fold (cell_of_pair CONFIG ab).
    rewrite (Hfree ab) by (left; reflexivity). reflexivity.
  - cbn [map] in Hnd. apply NoDup_cons_iff in Hnd. destruct Hnd as [Hnotin Hnd].
    split; [assumption|]. intros q Hq.
    assert (Hfq : is_free g (cell_of_pair CONFIG q) = true)
      by (apply Hfree; right; assumption).
    apply is_free_spec in Hfq. destruct Hfq as [Hs Ht].
    apply is_free_spec. subst g'. cbn [snake targets with_targets].
    split; [assumption|]. rewrite map_app. cbn [map position].
    intros Hin. apply in_app_iff in Hin. destruct Hin as [Hin | [Heq | []]].
    + contradiction.
    + apply Hnotin. rewrite Heq. apply in_map. assumption.
Qed.

Lemma replace_target_fresh (i : nat) (g : Game) (ab : nat * nat)
    (ps : list (nat * nat)) (rest : list nat) (f : File) :
  (i < List.length (targets g))%nat ->
  fresh_pairs CONFIG g (ab :: ps) ->
  exists g',
    replace_target CONFIG i g
      {| draws := draws_of_pairs (ab :: ps) ++ rest; highscore_txt := f |}
    = Ret (g', {| draws := draws_of_pairs ps ++ rest; highscore_txt := f |}) /\
    fresh_pairs CONFIG g' ps /\
    List.length (targets g') = List.length (targets g).
Proof.
  intros Hi Hfresh. unfold replace_target.
  destruct (nth_error (targets g) i) as [t|] eqn:E.
  2:{ apply nth_error_None in E. lia. }
  destruct (pop_split i (targets g) t E) as (l1 & l2 & Hl & Hpop).
  rewrite Hpop.
  set (g1 := with_targets (l1 ++ l2) g).
  assert (Hfresh1 : fresh_pairs CONFIG g1 (ab :: ps)).
  { destruct Hfresh as [Hnd Hfree]. split; [assumption|].
    intros q Hq. apply is_free_targets_incl; [|apply Hfree; assumption].
    intros t' Hin. rewrite Hl. apply in_app_iff in Hin.
    apply in_app_iff. destruct Hin; [left | right; right]; assumption. }
  destruct (spawn_append_fresh (type t) g1 ab ps rest f Hfresh1)
    as [Hrun Hfresh'].
  eexists. split; [exact Hrun|]. split; [exact Hfresh'|].
  subst g1. cbn [targets with_targets]. rewrite Hl.
  rewrite !length_app. cbn [List.length]. lia.
Qed.

Lemma replace_loop_returns (idxs : list nat) :
  forall (ps : list (nat * nat)) (g : Game) (rest : list nat) (f : File),
    (forall i, In i idxs -> (i < List.length (targets g))%nat) ->
    (List.length idxs <= List.length ps)%nat ->
    fresh_pairs CONFIG g ps ->
    exists g' w',
      for_each idxs (replace_target CONFIG) g
        {| draws := draws_of_pairs ps ++ rest; highscore_txt := f |}
      = Ret (g', w').
Proof.
  induction idxs as [|i idxs IH]; intros ps g rest f Hidx Hlen Hfresh.
  - eexists; eexists; reflexivity.
  - destruct ps as [|ab ps]; [cbn [List.length] in Hlen; lia|].
    destruct (replace_target_fresh i g ab ps rest f
                (Hidx i (or_introl eq_refl)) Hfresh)
      as (g1 & Hrun & Hfresh1 & Hlen1).
    cbn [for_each]. unfold bind at 1. rewrite Hrun.
    apply IH.
    + intros j Hj. rewrite Hlen1. apply Hidx. right; assumption.
    + cbn [List.length] in Hlen. lia.
    + assumption.
Qed.

(** The collection loop keeps the body cells, and collects indices of the
    target list only. *)
Lemma collect_spec (head_rect : Rect) (ts : list Target) :
  forall (k : nat) (acc : list nat) (s : Snake) (sc : Z),
    let '(acc', s', _) :=
      fold_left (collect_step CONFIG head_rect)
                (combine (seq k (List.length ts)) ts) (acc, s, sc) in
    positions s' = positions s /\
    (forall i, In i acc' -> In i acc \/ (k <= i < k + List.length ts)%nat) /\
    (List.length acc' <= List.length acc + List.length ts)%nat.
Proof.
  induction ts as [|t ts IH]; intros k acc s sc.
  - cbn. split; [reflexivity|]. split; [tauto | lia].
  - cbn [List.length seq combine fold_left].
    unfold collect_step at 2.
    destruct (colliderect head_rect (cell_rect (position t))).
    + specialize (IH (S k) (acc ++ [k])
                     (grow CONFIG s)
                     (sc + (if type t =? 0 then target_1_points CONFIG
                            else target_2_points CONFIG))).
      destruct (fold_left _ _ _) as [[acc' s'] sc'].
      destruct IH as (Hp & Hin & Hlen). split; [exact Hp|].
      split.
      * intros i Hi. destruct (Hin i Hi) as [H | H].
        -- apply in_app_iff in H. destruct H as [H | [<- | []]];
             [left; assumption | right; lia].
        -- right; lia.
      * rewrite length_app in Hlen. cbn [List.length] in Hlen. lia.
    + specialize (IH (S k) acc s sc).
      destruct (fold_left _ _ _) as [[acc' s'] sc'].
      destruct IH as (Hp & Hin & Hlen). split; [exact Hp|].
      split.
      * intros i Hi. destruct (Hin i Hi) as [H | H]; [left; assumption|].
        right; lia.
      * lia.
Qed.

(** A PLAYING frame without collision returns when the world starts with
    one fresh pair of draws for each target. *)
Lemma update_returns (g : Game) (s1 : Snake) (ps : list (nat * nat))
    (rest : list nat) (f : File) :
  state g = PLAYING ->
  advance_snake (snake g) = Ret s1 ->
  check_collision s1 (walls CONFIG) = Ret false ->
  fresh_pairs CONFIG (with_snake s1 g) ps ->
  (List.length (targets g) <= List.length ps)%nat ->
  exists g' w',
    update CONFIG g
      {| draws := draws_of_pairs ps ++ rest; highscore_txt := f |}
    = Ret (g', w').
Proof.
  intros Hst Hadv Hhit Hfresh Hlen. unfold update. rewrite Hst.
  cbn [GameState_eqb]. unfold bind at 1. unfold lift at 1. rewrite Hadv.
  unfold bind at 1. unfold lift at 1. rewrite Hhit.
  destruct (positions s1) as [|head body] eqn:Hp.
  { unfold check_collision in Hhit. rewrite Hp in Hhit. discriminate. }
  pose proof (collect_spec (cell_rect head) (targets g) 0 [] s1 (score g))
    as Hc.
  unfold enumerate.
  destruct (fold_left _ _ _) as [[collected s2] sc].
  destruct Hc as (Hpos & Hin & Hcl).
  apply replace_loop_returns.
  - intros i Hi. cbn [targets with_score with_snake].
    apply in_rev in Hi. destruct (Hin i Hi) as [[] | H]. lia.
  - rewrite length_rev. cbn [List.length] in Hcl. lia.
  - destruct Hfresh as [Hnd Hfree]. split; [assumption|].
    intros q Hq. specialize (Hfree q Hq).
    unfold is_free in *. cbn [snake targets with_score with_snake] in *.
    rewrite Hpos, Hp. rewrite Hp in Hfree. exact Hfree.
Qed.

(** A reset returns when the world starts with six fresh pairs of draws. *)
Lemma reset_game_returns (g : Game) (ps : list (nat * nat))
    (rest : list nat) (f : File) :
  fresh_pairs CONFIG
    (with_targets []
       (with_snake (Snake_init CONFIG (window_width CONFIG * 3 / 4)
                                      (window_height CONFIG / 2)) g)) ps ->
  List.length ps = 6%nat ->
  exists g',
    reset_game CONFIG g
      {| draws := draws_of_pairs ps ++ rest; highscore_txt := f |}
    = Ret (g', {| draws := rest; highscore_txt := f |}).
Proof.
  intros Hfresh Hlen.
  destruct ps as [|p1 [|p2 [|p3 [|p4 [|p5 [|p6 [|p7 ps]]]]]]];
    try discriminate Hlen.
  unfold reset_game, _spawn_multiple_targets. cbn [for_each seq].
  set (g0 := with_targets [] _) in *.
  destruct (spawn_append_fresh 0 g0 p1 _ rest f Hfresh) as [R1 F1].
  set (g1 := with_targets _ g0) in *.
  destruct (spawn_append_fresh 0 g1 p2 _ rest f F1) as [R2 F2].
  set (g2 := with_targets _ g1) in *.
  destruct (spawn_append_fresh 0 g2 p3 _ rest f F2) as [R3 F3].
  set (g3 := with_targets _ g2) in *.
  destruct (spawn_append_fresh 1 g3 p4 _ rest f F3) as [R4 F4].
  set (g4 := with_targets _ g3) in *.
  destruct (spawn_append_fresh 1 g4 p5 _ rest f F4) as [R5 F5].
  set (g5 := with_targets _ g4) in *.
  destruct (spawn_append_fresh 1 g5 p6 _ rest f F5) as [R6 F6].
  set (g6 := with_targets _ g5) in *.
  exists (with_score 0 g6).
  unfold bind at 1. unfold bind at 1. unfold bind at 1.
  rewrite R1. unfold bind at 1. rewrite R2.
  unfold bind at 1. rewrite R3. unfold ret at 1.
  unfold bind at 1. unfold bind at 1.
  rewrite R4. unfold bind at 1. rewrite R5.
  unfold bind at 1. rewrite R6. reflexivity.
Qed.

End FreshDraws.

(** ** Termination of the retry loop *)

Section RetryLoop.

Variable CONFIG : Config.

(** The loop returns at the first pair of draws that names a free cell. *)
Lemma spawn_target_eventually (g : Game) (pre : list (nat * nat)) :
  forall (a b : nat) (rest : list nat) (f : File),
    0 < spawn_columns CONFIG ->
    0 < spawn_rows CONFIG ->
    is_free g (cell_of_draws CONFIG a b) = true ->
    exists pos w',
      _spawn_target CONFIG g
        {| draws := draws_of_pairs pre ++ a :: b :: rest;
           highscore_txt := f |}
      = Ret (pos, w') /\
      is_free g pos = true /\
      spawnable CONFIG pos.
Proof.
  induction pre as [|[a0 b0] pre IH]; intros a b rest f Hx Hy Hfree.
  - cbn [draws_of_pairs flat_map app].
    rewrite spawn_target_round by assumption. rewrite Hfree.
    eexists; eexists. split; [reflexivity|]. split; [assumption|].
    apply cell_of_draws_spawnable; assumption.
  - cbn [draws_of_pairs flat_map app fst snd].
    rewrite spawn_target_round by assumption.
    destruct (is_free g (cell_of_draws CONFIG a0 b0)) eqn:E.
    + eexists; eexists. split; [reflexivity|]. split; [assumption|].
      apply cell_of_draws_spawnable; assumption.
    + apply IH; assumption.
Qed.

(** Every candidate is one of the cells of the range. *)
Lemma cell_of_draws_in_spawn_cells (a b : nat) :
  0 < spawn_columns CONFIG ->
  0 < spawn_rows CONFIG ->
  In (cell_of_draws CONFIG a b) (spawn_cells CONFIG).
Proof.
  intros Hx Hy. unfold spawn_cells. apply in_map_iff.
  pose proof (Z.mod_pos_bound (Z.of_nat a) _ Hx) as Ha.
  pose proof (Z.mod_pos_bound (Z.of_nat b) _ Hy) as Hb.
  exists (Z.to_nat (Z.of_nat a mod spawn_columns CONFIG),
          Z.to_nat (Z.of_nat b mod spawn_rows CONFIG)).
  split.
  - unfold cell_of_pair, cell_of_draws. cbn [fst snd].
    rewrite !Z2Nat.id by lia. rewrite !Z.mod_mod by lia. reflexivity.
  - unfold all_pairs. apply in_prod; apply in_seq; lia.
Qed.

(** When every cell of the range is taken the loop returns on no world. *)
Lemma spawn_target_never_returns (g : Game) :
  (forall c, In c (spawn_cells CONFIG) -> is_free g c = false) ->
  forall w pos w', _spawn_target CONFIG g w <> Ret (pos, w').
Proof.
  intros Hfull w pos w' H.
  destruct (spawn_target_sound CONFIG g w pos w' H)
    as (Hx & Hy & (a & b & ->) & Hfree & _).
  rewrite Hfull in Hfree; [discriminate|].
  apply cell_of_draws_in_spawn_cells; assumption.
Qed.

End RetryLoop.

(** ** Counting the runs of the spawner *)

Lemma length_filter_flat_map {A B} (f : B -> bool) (h : A -> list B)
    (l : list A) :
  List.length (filter f (flat_map h l))
  = list_sum (map (fun x => List.length (filter f (h x))) l).
Proof.
  induction l as [|x l IH]; [reflexivity|].
  cbn [flat_map map list_sum fold_right].
  rewrite filter_app, length_app, IH. reflexivity.
Qed.

Lemma length_filter_map_cons {A} (f : list A -> bool) (p : A)
    (L : list (list A)) :
  List.length (filter f (map (cons p) L))
  = List.length (filter (fun ps => f (p :: ps)) L).
Proof.
  induction L as [|ps L IH]; [reflexivity|].
  cbn [map filter]. destruct (f (p :: ps)); cbn [List.length]; now rewrite IH.
Qed.

Lemma filter_all {A} (l : list A) : filter (fun _ => true) l = l.
Proof. induction l as [|x l IH]; [reflexivity|]. cbn. now rewrite IH. Qed.

Lemma filter_none {A} (l : list A) : filter (fun _ => false) l = [].
Proof. induction l as [|x l IH]; [reflexivity|]. exact IH. Qed.

(** A sum in which each term is either a constant or a part of its own:
    the constant is counted once for each term that takes it. *)
Lemma list_sum_split {A} (c : A -> bool) (F : A -> nat) (B : nat)
    (l : list A) :
  list_sum (map (fun p => if c p then F p else B) l)
  = (list_sum (map (fun p => if c p then F p else 0%nat) l)
     + List.length (filter (fun p => negb (c p)) l) * B)%nat.
Proof.
  induction l as [|x l IH]; [reflexivity|].
  cbn [map list_sum fold_right filter].
  change (fold_right Nat.add 0%nat ?m) with (list_sum m).
  rewrite IH. destruct (c x); cbn [negb List.length]; lia.
Qed.

Lemma list_sum_zero {A} (t : A -> bool) (R : nat) (l : list A) :
  (forall y, In y l -> t y = false) ->
  list_sum (map (fun p => if t p then R else 0%nat) l) = 0%nat.
Proof.
  induction l as [|y l IH]; intros H; [reflexivity|].
  cbn [map list_sum fold_right].
  change (fold_right Nat.add 0%nat ?m) with (list_sum m).
  rewrite (H y) by (left; reflexivity).
  apply IH. intros z Hz. apply H. right; assumption.
Qed.

(** A sum with a single non-zero term. *)
Lemma list_sum_single {A} (t : A -> bool) (R : nat) (x : A) (l : list A) :
  NoDup l -> In x l ->
  (forall y, In y l -> t y = true <-> y = x) ->
  list_sum (map (fun p => if t p then R else 0%nat) l) = R.
Proof.
  induction l as [|y l IH]; intros Hnd Hin Ht; [destruct Hin|].
  cbn [map list_sum fold_right].
  change (fold_right Nat.add 0%nat ?m) with (list_sum m).
  apply NoDup_cons_iff in Hnd. destruct Hnd as [Hy Hnd].
  destruct Hin as [-> | Hin].
  - replace (t x) with true
      by (symmetry; apply Ht; [left|]; reflexivity).
    rewrite list_sum_zero; [lia|].
    intros z Hz. apply not_true_iff_false. intros Htz.
    apply (Ht z (or_intror Hz)) in Htz. subst z. contradiction.
  - replace (t y) with false.
    + rewrite IH; [reflexivity | assumption | assumption |].
      intros z Hz. apply Ht. right; assumption.
    + symmetry. apply not_true_iff_false. intros Hty.
      apply (Ht y (or_introl eq_refl)) in Hty. subst y. contradiction.
Qed.

Lemma NoDup_list_prod {A B} (l1 : list A) (l2 : list B) :
  NoDup l1 -> NoDup l2 -> NoDup (list_prod l1 l2).
Proof.
  intros H1 H2. induction H1 as [|a l1 Ha H1 IH]; [constructor|].
  cbn [list_prod]. apply NoDup_app.
  - clear -H2. induction H2 as [|b l2 Hb H2 IH]; [constructor|].
    cbn [map]. constructor; [|assumption].
    intros Hin. apply in_map_iff in Hin. destruct Hin as (b' & Heq & Hin).
    inversion Heq; subst. contradiction.
  - assumption.
  - intros [a' b'] Hin1 Hin2. apply in_map_iff in Hin1.
    destruct Hin1 as (b'' & Heq & _). inversion Heq; subst.
    apply in_prod_iff in Hin2. destruct Hin2 as [Hin2 _]. contradiction.
Qed.

Section Counting.

Variable CONFIG : Config.
Hypothesis columns_pos : 0 < spawn_columns CONFIG.
Hypothesis rows_pos : 0 < spawn_rows CONFIG.

Lemma all_pairs_NoDup : NoDup (all_pairs CONFIG).
Proof. apply NoDup_list_prod; apply seq_NoDup. Qed.

Lemma in_all_pairs (p : nat * nat) :
  In p (all_pairs CONFIG) <->
  Z.of_nat (fst p) < spawn_columns CONFIG /\
  Z.of_nat (snd p) < spawn_rows CONFIG.
Proof.
  destruct p as [i j]. unfold all_pairs. rewrite in_prod_iff, !in_seq.
  cbn [fst snd]. lia.
Qed.

(** Different pairs of indices name different cells. *)
Lemma cell_of_pair_inj (p q : nat * nat) :
  In p (all_pairs CONFIG) -> In q (all_pairs CONFIG) ->
  cell_of_pair CONFIG p = cell_of_pair CONFIG q -> p = q.
Proof.
  intros Hp Hq. apply in_all_pairs in Hp. apply in_all_pairs in Hq.
  destruct p as [i j], q as [i' j']. cbn [fst snd] in *.
  unfold cell_of_pair, cell_of_draws. cbn [fst snd].
  rewrite !Z.mod_small by lia. intros H.
  apply pair_equal_spec in H. f_equal; lia.
Qed.

Lemma spawnable_in_all_pairs (pos : Cell) :
  spawnable CONFIG pos ->
  exists p, In p (all_pairs CONFIG) /\ cell_of_pair CONFIG p = pos.
Proof.
  intros H. destruct pos as [x y].
  pose proof (spawnable_cell_of_draws CONFIG (x, y) H) as (_ & _ & Heq).
  pose proof (cell_of_draws_in_spawn_cells CONFIG
                (Z.to_nat ((x - 30) / 30)) (Z.to_nat ((y - 30) / 30))
                columns_pos rows_pos) as Hin.
  cbn [fst snd] in Heq. rewrite <- Heq in Hin.
  unfold spawn_cells in Hin. apply in_map_iff in Hin.
  destruct Hin as (p & Hp & Hin). exists p. split; assumption.
Qed.

(** The spawner on a non-empty sequence of rounds. *)
Lemma spawn_on_cons (g : Game) (p : nat * nat) (ps : list (nat * nat)) :
  spawn_on CONFIG g (p :: ps) =
  if is_free g (cell_of_pair CONFIG p)
  then Ret (cell_of_pair CONFIG p,
            {| draws := draws_of_pairs ps; highscore_txt := Absent |})
  else spawn_on CONFIG g ps.
Proof.
  unfold spawn_on. cbn [draws_of_pairs flat_map app].
  apply spawn_target_round; assumption.
Qed.

Lemma spawn_on_nil (g : Game) : spawn_on CONFIG g [] = OutOfDraws.
Proof.
  unfold spawn_on, _spawn_target. cbn [draws_of_pairs flat_map draws
    List.length spawn_loop].
  unfold bind, randrange. fold (spawn_columns CONFIG).
  replace (spawn_columns CONFIG <=? 0) with false
    by (symmetry; apply Z.leb_gt; assumption).
  reflexivity.
Qed.

Lemma rounds_length (k : nat) :
  List.length (rounds CONFIG k) = (List.length (all_pairs CONFIG) ^ k)%nat.
Proof.
  induction k as [|k IH]; [reflexivity|].
  cbn [rounds]. rewrite <- (filter_all (flat_map _ _)).
  rewrite length_filter_flat_map.
  rewrite map_ext with
    (g := fun _ => (List.length (all_pairs CONFIG) ^ k)%nat).
  2:{ intros p. rewrite filter_all, length_map, IH. reflexivity. }
  clear IH. cbn [Nat.pow].
  generalize (List.length (all_pairs CONFIG) ^ k)%nat.
  intros R. induction (all_pairs CONFIG) as [|p l IHl]; [reflexivity|].
  cbn [map list_sum fold_right List.length].
  change (fold_right Nat.add 0%nat ?m) with (list_sum m).
  rewrite IHl. lia.
Qed.

(** One more round: a first pair that names a free cell settles the run,
    an occupied one hands over to the remaining rounds. *)
Lemma count_returning_succ (g : Game) (k : nat) (pos : Cell) :
  count_returning CONFIG g (S k) pos =
  list_sum
    (map (fun p =>
            if is_free g (cell_of_pair CONFIG p) then
              if cell_eqb (cell_of_pair CONFIG p) pos
              then List.length (rounds CONFIG k) else 0%nat
            else count_returning CONFIG g k pos)
         (all_pairs CONFIG)).
Proof.
  unfold count_returning. cbn [rounds].
  rewrite length_filter_flat_map. f_equal. apply map_ext. intros p.
  rewrite length_filter_map_cons.
  destruct (is_free g (cell_of_pair CONFIG p)) eqn:E.
  - destruct (cell_eqb (cell_of_pair CONFIG p) pos) eqn:Ec.
    + rewrite (filter_ext _ (fun _ => true)), filter_all; [reflexivity|].
      intros ps. unfold returns_cell. rewrite spawn_on_cons, E. exact Ec.
    + rewrite (filter_ext _ (fun _ => false)), filter_none; [reflexivity|].
      intros ps. unfold returns_cell. rewrite spawn_on_cons, E. exact Ec.
  - f_equal. apply filter_ext. intros ps. unfold returns_cell.
    rewrite spawn_on_cons, E. reflexivity.
Qed.

Lemma count_looping_succ (g : Game) (k : nat) :
  count_looping CONFIG g (S k) =
  (List.length (occupied_pairs CONFIG g) * count_looping CONFIG g k)%nat.
Proof.
  unfold count_looping at 1. cbn [rounds].
  rewrite length_filter_flat_map.
  rewrite map_ext with
    (g := fun p => if is_free g (cell_of_pair CONFIG p)
                   then 0%nat else count_looping CONFIG g k).
  2:{ intros p. rewrite length_filter_map_cons.
      destruct (is_free g (cell_of_pair CONFIG p)) eqn:E.
      - rewrite (filter_ext _ (fun _ => false)), filter_none; [reflexivity|].
        intros ps. unfold still_looping. rewrite spawn_on_cons, E.
        reflexivity.
      - unfold count_looping. f_equal. apply filter_ext. intros ps.
        unfold still_looping. rewrite spawn_on_cons, E. reflexivity. }
  rewrite (list_sum_split (fun p => is_free g (cell_of_pair CONFIG p))
             (fun _ => 0%nat)).
  fold (occupied_pairs CONFIG g).
  replace (list_sum _) with 0%nat; [lia|].
  symmetry. induction (all_pairs CONFIG) as [|p l IHl]; [reflexivity|].
  cbn [map list_sum fold_right].
  change (fold_right Nat.add 0%nat ?m) with (list_sum m).
  rewrite IHl. destruct (is_free g _); reflexivity.
Qed.

(** After [k] rounds the loop is still running on exactly the sequences
    made of occupied cells only. *)
Lemma count_looping_pow (g : Game) (k : nat) :
  count_looping CONFIG g k
  = (List.length (occupied_pairs CONFIG g) ^ k)%nat.
Proof.
  induction k as [|k IH].
  - unfold count_looping. cbn [rounds filter]. unfold still_looping.
    rewrite spawn_on_nil. reflexivity.
  - rewrite count_looping_succ, IH. reflexivity.
Qed.

(** With a free cell in the range, fewer pairs are occupied than there
    are pairs. *)
Lemma occupied_pairs_fewer (g : Game) (pos : Cell) :
  spawnable CONFIG pos ->
  is_free g pos = true ->
  (List.length (occupied_pairs CONFIG g) < List.length (all_pairs CONFIG))%nat.
Proof.
  intros Hsp Hfree.
  destruct (spawnable_in_all_pairs pos Hsp) as (p & Hin & Hp).
  unfold occupied_pairs.
  pose proof (filter_length_le
                (fun p => negb (is_free g (cell_of_pair CONFIG p)))
                (all_pairs CONFIG)) as Hle.
  destruct (Nat.eq_dec
              (List.length
                 (filter (fun p => negb (is_free g (cell_of_pair CONFIG p)))
                         (all_pairs CONFIG)))
              (List.length (all_pairs CONFIG))) as [Heq | Hne]; [|lia].
  apply filter_length_forallb in Heq.
  rewrite forallb_forall in Heq. specialize (Heq p Hin).
  rewrite Hp, Hfree in Heq. discriminate.
Qed.

(** Two free cells of the range are returned by the same number of
    sequences of [k] rounds: the spawner favours none of them. *)
Lemma count_returning_uniform (g : Game) (pos1 pos2 : Cell) (k : nat) :
  spawnable CONFIG pos1 -> is_free g pos1 = true ->
  spawnable CONFIG pos2 -> is_free g pos2 = true ->
  count_returning CONFIG g k pos1 = count_returning CONFIG g k pos2.
Proof.
  intros Hs1 Hf1 Hs2 Hf2.
  assert (Hone : forall pos R,
             spawnable CONFIG pos -> is_free g pos = true ->
             list_sum
               (map (fun p =>
                       if is_free g (cell_of_pair CONFIG p) then
                         if cell_eqb (cell_of_pair CONFIG p) pos
                         then R else 0%nat
                       else 0%nat) (all_pairs CONFIG)) = R).
  { intros pos R Hs Hf.
    destruct (spawnable_in_all_pairs pos Hs) as (p0 & Hin0 & Hp0).
    rewrite map_ext with
      (g := fun p => if is_free g (cell_of_pair CONFIG p)
                        && cell_eqb (cell_of_pair CONFIG p) pos
                     then R else 0%nat).
    2:{ intros p.
        destruct (is_free g (cell_of_pair CONFIG p)),
                 (cell_eqb (cell_of_pair CONFIG p) pos); reflexivity. }
    apply (list_sum_single _ R p0); [apply all_pairs_NoDup | assumption |].
    intros q Hq. rewrite andb_true_iff, cell_eqb_eq. split.
    - intros [_ Heq]. apply cell_of_pair_inj; congruence.
    - intros ->. rewrite Hp0. split; [assumption | reflexivity]. }
  induction k as [|k IH].
  - unfold count_returning. cbn [rounds filter]. unfold returns_cell.
    rewrite spawn_on_nil. reflexivity.
  - rewrite !count_returning_succ.
    rewrite (list_sum_split (fun p => is_free g (cell_of_pair CONFIG p))
               (fun p => if cell_eqb (cell_of_pair CONFIG p) pos1
                         then List.length (rounds CONFIG k) else 0%nat)).
    rewrite (list_sum_split (fun p => is_free g (cell_of_pair CONFIG p))
               (fun p => if cell_eqb (cell_of_pair CONFIG p) pos2
                         then List.length (rounds CONFIG k) else 0%nat)).
    rewrite !Hone by assumption. rewrite IH. reflexivity.
Qed.

End Counting.

(** ** The target list over a whole run *)

Section WholeRun.

Variable CONFIG : Config.

Lemma reset_game_at_rest (g : Game) (w : World) (g' : Game) (w' : World) :
  reset_game CONFIG g w = Ret (g', w') -> targets_at_rest g'.
Proof.
  intros H. apply reset_game_spec in H. unfold targets_at_rest. tauto.
Qed.

Lemma update_at_rest (g : Game) (w : World) (g' : Game) (w' : World) :
  targets_at_rest g -> update CONFIG g w = Ret (g', w') -> targets_at_rest g'.
Proof.
  intros Hrest H. revert Hrest. unfold targets_at_rest, targets_distinct.
  apply (update_targets_invariant CONFIG
           (fun ts => count_type 0 ts = 3%nat /\ count_type 1 ts = 3%nat /\
                      NoDup (map position ts)))
    with (g := g) (w := w) (w' := w'); [|assumption].
  intros i g0 w0 g1 w1 (H0 & H1 & Hnd) Hr.
  rewrite (replace_target_count CONFIG 0 i g0 w0 g1 w1 Hr).
  rewrite (replace_target_count CONFIG 1 i g0 w0 g1 w1 Hr).
  split; [assumption|]. split; [assumption|].
  eapply replace_target_distinct; eassumption.
Qed.

Lemma handle_event_at_rest (e : Event) (g : Game) (w : World)
    (g' : Game) (w' : World) :
  targets_at_rest g ->
  handle_event CONFIG e g w = Ret (g', w') ->
  targets_at_rest g'.
Proof.
  intros Hrest H. unfold handle_event in H. unfold bind at 1 in H.
  first_step in H as g1 w1 E.
  assert (H1 : targets_at_rest g1).
  { destruct e as [|key|pos| |]; try (inversion E; subst; assumption).
    destruct (GameState_eqb (state g) PLAYING).
    - inversion E; subst. unfold keydown_playing.
      destruct key;
        repeat match goal with
               | |- context [if ?b then _ else _] => destruct b
               end; assumption.
    - destruct key, (state g); try (inversion E; subst; assumption).
      unfold bind in E.
      destruct (reset_game CONFIG g w) as [[g2 w2]| |] eqn:Er;
        try discriminate.
      inversion E; subst. apply reset_game_at_rest in Er. exact Er. }
  destruct (GameState_eqb (state g1) MENU).
  - destruct e as [|key|pos| |]; cbn [Button_handle_event] in H;
      try (inversion H; subst; assumption).
    destruct (is_hovered g1); inversion H; subst; assumption.
  - inversion H; subst. assumption.
Qed.

Lemma handle_input_at_rest (events : list Event) :
  forall g w r w',
    targets_at_rest g ->
    handle_input CONFIG events g w = Ret (r, w') ->
    targets_at_rest (snd r).
Proof.
  induction events as [|e events IH]; intros g w r w' Hrest H.
  - inversion H; subst. assumption.
  - assert (Hstep : forall g1 w1,
               handle_event CONFIG e g w = Ret (g1, w1) ->
               handle_input CONFIG events g1 w1 = Ret (r, w') ->
               targets_at_rest (snd r)).
    { intros g1 w1 He Hi. eapply IH; [|exact Hi].
      eapply handle_event_at_rest; eassumption. }
    destruct e as [|key|pos| |]; cbn [handle_input] in H;
      try (unfold bind at 1 in H;
           first_step in H as g1 w1 E; eapply Hstep; [reflexivity | exact H]).
    inversion H; subst. assumption.
Qed.

Lemma frame_at_rest (events : list Event) (g : Game) (w : World)
    (r : bool * Game) (w' : World) :
  targets_at_rest g ->
  frame CONFIG events g w = Ret (r, w') ->
  targets_at_rest (snd r).
Proof.
  intros Hrest H. unfold frame in H. unfold bind at 1 in H.
  destruct (handle_input CONFIG events g w) as [[r1 w1]| |] eqn:E1;
    try discriminate.
  unfold bind at 1 in H.
  destruct (update CONFIG (snd r1) w1) as [[g2 w2]| |] eqn:E2;
    try discriminate.
  inversion H; subst. cbn [snd].
  eapply update_at_rest; [|exact E2].
  eapply handle_input_at_rest; eassumption.
Qed.

(** From the start of the program on, after every frame, the target list
    is at rest. *)
Lemma run_at_rest (frames : list (list Event)) :
  forall g w g' w',
    targets_at_rest g ->
    run CONFIG frames g w = Ret (g', w') ->
    targets_at_rest g'.
Proof.
  induction frames as [|events frames IH]; intros g w g' w' Hrest H.
  - inversion H; subst. assumption.
  - cbn [run] in H. unfold bind at 1 in H.
    destruct (frame CONFIG events g w) as [[r w1]| |] eqn:E;
      try discriminate.
    apply frame_at_rest in E; [|assumption].
    destruct (fst r).
    + eapply IH; eassumption.
    + inversion H; subst. assumption.
Qed.

Lemma Game_init_at_rest (w : World) (g : Game) (w' : World) :
  Game_init CONFIG w = Ret (g, w') -> targets_at_rest g.
Proof.
  unfold Game_init. intros H. unfold bind at 1 in H.
  destruct (_load_high_score w) as [[hs w1]| |]; try discriminate.
  apply reset_game_at_rest in H. exact H.
Qed.

End WholeRun.

(** ** The claims about the spawner and the target list *)

(** C3, as the code has it.  A cell returned by the spawner is a cell of
    the range of its two [randrange] calls: both coordinates are multiples
    of 30, from 30 up to but not including [width - 60] and [height - 60].
    Such a cell touches no wall and carries neither a snake cell nor a
    target.  Every free cell of the range can be returned, and two free
    cells of the range are returned by equally many sequences of draws.
    Hence the targets of a fresh game lie on different cells, off the
    snake, [update] keeps the targets on different cells, and so they are
    after every frame of a run. *)
Theorem spawned_cell_in_range_and_free (CONFIG : Config) (g : Game) :
  (forall w pos w',
      _spawn_target CONFIG g w = Ret (pos, w') ->
      spawnable CONFIG pos /\
      interior_cell CONFIG pos = true /\
      ~ In pos (positions (snake g)) /\
      ~ In pos (map position (targets g))) /\
  (forall pos,
      spawnable CONFIG pos -> is_free g pos = true ->
      exists w w', _spawn_target CONFIG g w = Ret (pos, w')) /\
  (forall k pos1 pos2,
      spawnable CONFIG pos1 -> is_free g pos1 = true ->
      spawnable CONFIG pos2 -> is_free g pos2 = true ->
      count_returning CONFIG g k pos1 = count_returning CONFIG g k pos2) /\
  (forall w g' w',
      reset_game CONFIG g w = Ret (g', w') ->
      targets_distinct g' /\ targets_off_snake g') /\
  (forall w g' w',
      targets_distinct g ->
      update CONFIG g w = Ret (g', w') ->
      targets_distinct g') /\
  (forall w g0 w0 frames g' w',
      Game_init CONFIG w = Ret (g0, w0) ->
      run CONFIG frames g0 w0 = Ret (g', w') ->
      targets_distinct g').
Proof.
  split; [|split; [|split; [|split; [|split]]]].
  - intros w pos w' H.
    destruct (spawn_target_sound CONFIG g w pos w' H)
      as (Hx & Hy & (a & b & Hpos) & Hfree & _).
    assert (Hsp : spawnable CONFIG pos)
      by (rewrite Hpos; apply cell_of_draws_spawnable; assumption).
    apply is_free_spec in Hfree. destruct Hfree as [Hs Ht].
    split; [assumption|]. split; [apply spawnable_interior; assumption|].
    split; assumption.
  - intros pos Hsp Hfree.
    destruct (spawnable_cell_of_draws CONFIG pos Hsp) as (Hx & Hy & Hpos).
    exists {| draws := [Z.to_nat ((fst pos - 30) / 30);
                        Z.to_nat ((snd pos - 30) / 30)];
              highscore_txt := Absent |}.
    eexists. rewrite spawn_target_round by assumption.
    rewrite <- Hpos, Hfree. reflexivity.
  - intros k pos1 pos2 Hs1 Hf1 Hs2 Hf2.
    destruct (spawnable_cell_of_draws CONFIG pos1 Hs1) as (Hx & Hy & _).
    apply count_returning_uniform; assumption.
  - intros w g' w' H. apply reset_game_spec in H. tauto.
  - intros w g' w' Hd H. unfold targets_distinct in *.
    apply (update_targets_invariant CONFIG
             (fun ts => NoDup (map position ts))) with (g := g) (w := w)
             (w' := w'); [|assumption|assumption].
    intros i g0 w0 g1 w1 Hnd Hr.
    eapply replace_target_distinct; eassumption.
  - intros w g0 w0 frames g' w' Hinit Hrun.
    apply Game_init_at_rest in Hinit.
    apply (run_at_rest CONFIG frames g0 w0 g' w' Hinit Hrun).
Qed.

(** C3 as stated fails.  In the 800 by 600 window the cell (30, 540) lies
    inside the walls and is free in the example game, and no world makes the
    spawner return it: the row next to the bottom wall is out of the range
    of [randrange(30, 540, 30)]. *)
Lemma spawner_never_reaches_last_row :
  let g := example_game MENU (0, 0) in
  interior_cell example_config (30, 540) = true /\
  is_free g (30, 540) = true /\
  forall w w', _spawn_target example_config g w <> Ret ((30, 540), w').
Proof.
  split; [reflexivity|]. split; [reflexivity|].
  intros w w' H.
  destruct (spawn_target_sound example_config _ w (30, 540) w' H)
    as (Hx & Hy & (a & b & Hpos) & _).
  pose proof (cell_of_draws_spawnable example_config a b Hx Hy) as Hsp.
  rewrite <- Hpos in Hsp. unfold spawnable in Hsp.
  cbn [fst snd example_config window_height] in Hsp. lia.
Qed.

(** C9, as the code has it.  The retry loop returns a free cell at the
    first pair of draws that names one.  When a cell of the spawner's range
    is free there are such draws, fewer index pairs are occupied than there
    are index pairs, and of all sequences of [k] rounds exactly
    [occupied ^ k] out of [total ^ k] leave the loop running.  When every
    cell of the range is occupied the loop returns on no world. *)
Theorem spawn_loop_returns_on_a_free_draw (CONFIG : Config) (g : Game) :
  (forall pre a b rest f,
      0 < spawn_columns CONFIG -> 0 < spawn_rows CONFIG ->
      is_free g (cell_of_draws CONFIG a b) = true ->
      exists pos w',
        _spawn_target CONFIG g
          {| draws := draws_of_pairs pre ++ a :: b :: rest;
             highscore_txt := f |}
        = Ret (pos, w') /\
        is_free g pos = true /\ spawnable CONFIG pos) /\
  (forall pos,
      spawnable CONFIG pos -> is_free g pos = true ->
      (exists a b, cell_of_draws CONFIG a b = pos) /\
      (List.length (occupied_pairs CONFIG g)
       < List.length (all_pairs CONFIG))%nat /\
      forall k,
        List.length (rounds CONFIG k)
        = (List.length (all_pairs CONFIG) ^ k)%nat /\
        count_looping CONFIG g k
        = (List.length (occupied_pairs CONFIG g) ^ k)%nat) /\
  ((forall c, In c (spawn_cells CONFIG) -> is_free g c = false) ->
   forall w pos w', _spawn_target CONFIG g w <> Ret (pos, w')).
Proof.
  split; [|split].
  - intros pre a b rest f Hx Hy Hfree.
    apply spawn_target_eventually; assumption.
  - intros pos Hsp Hfree.
    destruct (spawnable_cell_of_draws CONFIG pos Hsp) as (Hx & Hy & Hpos).
    split; [eexists; eexists; symmetry; exact Hpos|].
    split; [apply (occupied_pairs_fewer CONFIG Hx Hy g pos); assumption|].
    intros k. split.
    + apply rounds_length.
    + apply count_looping_pow; assumption.
  - apply spawn_target_never_returns.
Qed.

(** C9 as stated fails.  In the 800 by 600 window a snake lying on the 408
    cells of the spawner's range leaves the interior cell (30, 540) free,
    so the interior grid is not saturated, and still the loop returns on no
    world. *)
Lemma spawn_loop_starves_beside_free_cell :
  interior_cell example_config (30, 540) = true /\
  is_free full_game (30, 540) = true /\
  forall w pos w', _spawn_target example_config full_game w <> Ret (pos, w').
Proof.
  split; [reflexivity|]. split; [vm_compute; reflexivity|].
  apply spawn_target_never_returns.
  assert (H : forallb (fun c => negb (is_free full_game c))
                      (spawn_cells example_config) = true)
    by (vm_compute; reflexivity).
  rewrite forallb_forall in H. intros c Hc.
  apply negb_true_iff. apply H. exact Hc.
Qed.

(** ** What spawning leaves alone *)

Lemma for_each_world_invariant {A S} (P : S -> World -> Prop)
    (body : A -> S -> M S) (xs : list A) :
  (forall x s w s' w', P s w -> body x s w = Ret (s', w') -> P s' w') ->
  forall s w s' w',
    P s w -> for_each xs body s w = Ret (s', w') -> P s' w'.
Proof.
  intros Hbody. induction xs as [|x xs IH]; intros s w s' w' HP H.
  - inversion H; subst. assumption.
  - cbn [for_each] in H. unfold bind in H.
    destruct (body x s w) as [[s1 w1]| |] eqn:E; try discriminate.
    eapply IH; [|exact H]. eapply Hbody; eassumption.
Qed.

Lemma same_but_targets_refl (g : Game) : same_but_targets g g.
Proof. repeat split. Qed.

Lemma same_but_targets_trans (g1 g2 g3 : Game) :
  same_but_targets g1 g2 -> same_but_targets g2 g3 -> same_but_targets g1 g3.
Proof.
  unfold same_but_targets.
  intros (A1 & A2 & A3 & A4 & A5) (B1 & B2 & B3 & B4 & B5).
  repeat split; congruence.
Qed.

Lemma spawn_append_frame (CONFIG : Config) (ty : Z) (g : Game) (w : World)
    (g' : Game) (w' : World) :
  (pos <- _spawn_target CONFIG g ;;
   ret (with_targets (targets g ++ [{| position := pos; type := ty |}]) g)) w
  = Ret (g', w') ->
  same_but_targets g g' /\ highscore_txt w' = highscore_txt w.
Proof.
  intros H. destruct (spawn_append_spec CONFIG ty g w g' w' H)
    as (pos & _ & _ & -> & Hf).
  split; [repeat split | exact Hf].
Qed.

Lemma replace_target_frame (CONFIG : Config) (i : nat) (g : Game) (w : World)
    (g' : Game) (w' : World) :
  replace_target CONFIG i g w = Ret (g', w') ->
  same_but_targets g g' /\ highscore_txt w' = highscore_txt w /\
  List.length (targets g') = List.length (targets g).
Proof.
  intros H. destruct (replace_target_spec CONFIG i g w g' w' H)
    as (t & l1 & l2 & pos & Hl & _ & _ & -> & Hf).
  split; [repeat split|]. split; [exact Hf|].
  cbn [targets with_targets]. rewrite Hl, !length_app.
  cbn [List.length]. lia.
Qed.

Lemma replace_loop_frame (CONFIG : Config) (idxs : list nat) (g : Game)
    (w : World) (g' : Game) (w' : World) :
  for_each idxs (replace_target CONFIG) g w = Ret (g', w') ->
  same_but_targets g g' /\ highscore_txt w' = highscore_txt w /\
  List.length (targets g') = List.length (targets g).
Proof.
  apply (for_each_world_invariant
           (fun g1 w1 => same_but_targets g g1 /\
                         highscore_txt w1 = highscore_txt w /\
                         List.length (targets g1) = List.length (targets g))).
  - intros i g1 w1 g2 w2 (Hs & Hf & Hl) Hr.
    destruct (replace_target_frame CONFIG i g1 w1 g2 w2 Hr)
      as (Hs' & Hf' & Hl').
    split; [eapply same_but_targets_trans; eassumption|].
    split; congruence.
  - split; [apply same_but_targets_refl|]. split; reflexivity.
Qed.

Lemma reset_game_frame (CONFIG : Config) (g : Game) (w : World)
    (g' : Game) (w' : World) :
  reset_game CONFIG g w = Ret (g', w') ->
  state g' = state g /\
  high_score g' = high_score g /\
  is_hovered g' = is_hovered g /\
  snake g' = Snake_init CONFIG (window_width CONFIG * 3 / 4)
                               (window_height CONFIG / 2) /\
  highscore_txt w' = highscore_txt w.
Proof.
  unfold reset_game. intros H. unfold bind at 1 in H.
  first_step in H as g3 w3 E. inversion H; subst g' w'; clear H.
  unfold _spawn_multiple_targets in E.
  set (g0 := with_targets [] _) in E.
  assert (HP : same_but_targets g0 g3 /\ highscore_txt w3 = highscore_txt w).
  { revert E.
    apply (for_each_world_invariant
             (fun g1 w1 => same_but_targets g0 g1 /\
                           highscore_txt w1 = highscore_txt w));
      [|split; [apply same_but_targets_refl | reflexivity]].
    intros ty g1 w1 g2 w2 HP1.
    apply (for_each_world_invariant
             (fun g1 w1 => same_but_targets g0 g1 /\
                           highscore_txt w1 = highscore_txt w));
      [|exact HP1].
    intros x g4 w4 g5 w5 (Hs & Hf) Hr.
    destruct (spawn_append_frame CONFIG ty g4 w4 g5 w5 Hr) as (Hs' & Hf').
    split; [eapply same_but_targets_trans; eassumption | congruence]. }
  destruct HP as ((H1 & H2 & H3 & H4 & H5) & Hf).
  cbn [state high_score is_hovered snake with_score].
  rewrite H1, H3, H4, H5. subst g0. repeat split. exact Hf.
Qed.

(** ** The collection loop *)

Lemma grows_positions (CONFIG : Config) (n : nat) : forall s,
  positions (grows CONFIG n s) = positions s /\
  direction (grows CONFIG n s) = direction s /\
  facing (grows CONFIG n s) = facing s /\
  move_timer (grows CONFIG n s) = move_timer s.
Proof.
  induction n as [|n IH]; intros s; [repeat split|].
  cbn [grows]. destruct (IH (grow CONFIG s)) as (H1 & H2 & H3 & H4).
  rewrite H1, H2, H3, H4. repeat split.
Qed.

(** The loop over [enumerate(self.targets)] collects the indices of the
    targets the head overlaps, grows the snake once for each of them and
    adds up their points. *)
Lemma collect_loop_spec (CONFIG : Config) (head : Cell) (ts : list Target) :
  forall (k : nat) (acc : list nat) (s : Snake) (sc : Z),
    fold_left (collect_step CONFIG (cell_rect head))
              (combine (seq k (List.length ts)) ts) (acc, s, sc)
    = (acc ++ overlap_indices head k ts,
       grows CONFIG (List.length (overlapping head ts)) s,
       sc + total_points CONFIG (overlapping head ts)).
Proof.
  induction ts as [|t ts IH]; intros k acc s sc.
  - cbn. now rewrite app_nil_r, Z.add_0_r.
  - cbn [List.length seq combine fold_left overlapping filter
         overlap_indices].
    unfold collect_step at 2.
    destruct (colliderect (cell_rect head) (cell_rect (position t))) eqn:E.
    + rewrite IH. fold (overlapping head ts).
      rewrite <- app_assoc. cbn [app List.length grows].
      unfold total_points. cbn [map fold_right]. unfold points_of at 2.
      f_equal. lia.
    + rewrite IH. reflexivity.
Qed.

Lemma overlap_indices_length (head : Cell) (ts : list Target) : forall k,
  List.length (overlap_indices head k ts)
  = List.length (overlapping head ts).
Proof.
  induction ts as [|t ts IH]; intros k; [reflexivity|].
  cbn [overlap_indices overlapping filter].
  destruct (colliderect _ _); cbn [List.length]; now rewrite IH.
Qed.

(** ** The replacement loop *)

Lemma for_each_app {A S} (body : A -> S -> M S) (xs ys : list A) :
  forall s w,
    for_each (xs ++ ys) body s w
    = (s' <- for_each xs body s ;; for_each ys body s') w.
Proof.
  induction xs as [|x xs IH]; intros s w.
  - cbn [app for_each]. unfold bind, ret. reflexivity.
  - cbn [app for_each]. unfold bind.
    destruct (body x s w) as [[s1 w1]| |]; [|reflexivity|reflexivity].
    rewrite IH. reflexivity.
Qed.

Lemma pop_app_cons {A} (pre : list A) (t : A) (post : list A) :
  nth_error (pre ++ t :: post) (List.length pre) = Some t /\
  pop (List.length pre) (pre ++ t :: post) = pre ++ post.
Proof.
  split.
  - rewrite nth_error_app2, Nat.sub_diag by lia. reflexivity.
  - unfold pop.
    rewrite firstn_app, firstn_all, Nat.sub_diag. cbn [firstn].
    rewrite app_nil_r. f_equal.
    replace (S (List.length pre)) with (List.length pre + 1)%nat by lia.
    rewrite skipn_app, skipn_all2 by lia.
    replace (List.length pre + 1 - List.length pre)%nat with 1%nat by lia.
    reflexivity.
Qed.

(** Replacing the target at a known place: it leaves the list, the others
    keep their order, and a target of the same type on a free cell of the
    spawner's range is put at the end. *)
Lemma replace_target_at (CONFIG : Config) (g : Game) (w : World)
    (g' : Game) (w' : World) (pre : list Target) (t : Target)
    (post : list Target) :
  targets g = pre ++ t :: post ->
  replace_target CONFIG (List.length pre) g w = Ret (g', w') ->
  exists pos,
    spawnable CONFIG pos /\
    is_free (with_targets (pre ++ post) g) pos = true /\
    targets g' = pre ++ post ++ [{| position := pos; type := type t |}].
Proof.
  intros Hts H. unfold replace_target in H. rewrite Hts in H.
  destruct (pop_app_cons pre t post) as [Hn Hp]. rewrite Hn, Hp in H.
  apply spawn_append_spec in H. destruct H as (pos & Hsp & Hfree & -> & _).
  exists pos. split; [assumption|]. split; [assumption|].
  cbn [targets with_targets]. now rewrite <- app_assoc.
Qed.

Lemma each_on_free_cell_incl (body : list Cell) (news : list Target) :
  forall olds olds',
    (forall c, In c (map position olds') -> In c (map position olds)) ->
    each_on_free_cell body olds news ->
    each_on_free_cell body olds' news.
Proof.
  induction news as [|t news IH]; intros olds olds' Hincl H; [exact I|].
  destruct H as (Hb & Ho & Hrest). split; [assumption|].
  split; [intros Hin; apply Ho, Hincl, Hin|].
  apply (IH (olds ++ [t])); [|assumption].
  intros c. rewrite !map_app, !in_app_iff. intros [Hc | Hc]; [|now right].
  left. apply Hincl. assumption.
Qed.

Lemma each_on_free_cell_snoc (body : list Cell) (t : Target)
    (news : list Target) : forall olds,
  each_on_free_cell body olds news ->
  ~ In (position t) body ->
  ~ In (position t) (map position (olds ++ news)) ->
  each_on_free_cell body olds (news ++ [t]).
Proof.
  induction news as [|n news IH]; intros olds H Hb Ho.
  - rewrite app_nil_r in Ho. cbn. repeat split; assumption.
  - destruct H as (Hnb & Hno & Hrest). cbn [app each_on_free_cell].
    split; [assumption|]. split; [assumption|].
    apply IH; [assumption | assumption |].
    rewrite <- app_assoc. exact Ho.
Qed.

(** The whole loop, run on the indices the collection loop found: the
    targets the head does not overlap stay, in their order, and the new
    targets follow, one for each collected target, latest collected
    first, each on a cell of the spawner's range that was free when it was
    put. *)
Lemma replace_loop_keeps (CONFIG : Config) (head : Cell) (ts : list Target) :
  forall (pre extra : list Target) (g : Game) (w : World)
         (g' : Game) (w' : World),
    targets g = pre ++ ts ++ extra ->
    for_each (rev (overlap_indices head (List.length pre) ts))
             (replace_target CONFIG) g w = Ret (g', w') ->
    exists news,
      targets g' = pre ++ untouched head ts ++ extra ++ news /\
      map type news = rev (map type (overlapping head ts)) /\
      Forall (spawnable CONFIG) (map position news) /\
      each_on_free_cell (positions (snake g))
                        (pre ++ untouched head ts ++ extra) news.
Proof.
  induction ts as [|t ts IH]; intros pre extra g w g' w' Hts H.
  - inversion H; subst. exists []. cbn. rewrite app_nil_r.
    split; [assumption|]. split; [reflexivity|]. split; constructor.
  - assert (Hts' : targets g = (pre ++ [t]) ++ ts ++ extra)
      by (rewrite Hts, <- app_assoc; reflexivity).
    assert (Hlen : S (List.length pre) = List.length (pre ++ [t]))
      by (rewrite length_app; cbn [List.length]; lia).
    cbn [overlap_indices overlapping untouched filter] in *.
    destruct (colliderect (cell_rect head) (cell_rect (position t))) eqn:E;
      cbn [negb].
    + cbn [rev] in H. rewrite for_each_app in H. unfold bind at 1 in H.
      first_step in H as g1 w1 E1.
      rewrite Hlen in E1.
      destruct (IH (pre ++ [t]) extra g w g1 w1 Hts' E1)
        as (news & Hg1 & Hty & Hsp & Hfr).
      destruct (replace_loop_frame CONFIG _ g w g1 w1 E1)
        as ((_ & _ & _ & _ & Hsn) & _).
      cbn [for_each] in H. unfold bind at 1 in H.
      first_step in H as g2 w2 E2. inversion H; subst g2 w2; clear H.
      rewrite <- app_assoc in Hg1. cbn [app] in Hg1.
      destruct (replace_target_at CONFIG g1 w1 g' w' pre t _ Hg1 E2)
        as (pos & Hpos & Hfree & Hg').
      apply is_free_spec in Hfree.
      cbn [snake targets with_targets] in Hfree. rewrite Hsn in Hfree.
      destruct Hfree as [Hfb Hfo].
      exists (news ++ [{| position := pos; type := type t |}]).
      split; [|split; [|split]].
      * rewrite Hg'. fold (untouched head ts).
        rewrite <- !app_assoc. reflexivity.
      * rewrite map_app, Hty. cbn [map type rev]. reflexivity.
      * rewrite map_app. apply Forall_app. split; [assumption|].
        constructor; [assumption | constructor].
      * fold (untouched head ts) in *.
        apply each_on_free_cell_snoc.
        -- apply (each_on_free_cell_incl _ _
                    ((pre ++ [t]) ++ untouched head ts ++ extra));
             [|assumption].
           intros c. rewrite !map_app, !in_app_iff. tauto.
        -- assumption.
        -- cbn [position]. rewrite <- !app_assoc. exact Hfo.
    + rewrite Hlen in H.
      destruct (IH (pre ++ [t]) extra g w g' w' Hts' H)
        as (news & Hg' & Hty & Hsp & Hfr).
      exists news. split; [|split; [|split]]; try assumption.
      * rewrite Hg', <- app_assoc. reflexivity.
      * fold (untouched head ts) in *.
        rewrite <- app_assoc in Hfr. exact Hfr.
Qed.

(** A PLAYING frame without collision is the replacement loop run on the
    game the collection loop leaves. *)
Lemma update_without_collision
    (CONFIG : Config) (g : Game) (w : World) (s1 : Snake)
    (head : Cell) (body : list Cell) :
  state g = PLAYING ->
  advance_snake (snake g) = Ret s1 ->
  positions s1 = head :: body ->
  check_collision s1 (walls CONFIG) = Ret false ->
  update CONFIG g w
  = for_each (rev (overlap_indices head 0 (targets g)))
             (replace_target CONFIG)
             (with_score
                (score g + total_points CONFIG (overlapping head (targets g)))
                (with_snake
                   (grows CONFIG
                      (List.length (overlapping head (targets g))) s1) g))
             w.
Proof.
  intros Hst Hadv Hp Hhit. unfold update. rewrite Hst.
  cbn [GameState_eqb]. unfold bind at 1. unfold lift at 1.
  rewrite Hadv. unfold bind at 1. unfold lift at 1.
  rewrite Hhit, Hp. unfold enumerate.
  rewrite collect_loop_spec. reflexivity.
Qed.

(** C4. A reset leaves three targets of each of the two types, and a frame
    update leaves the number of targets of every type as it was: on a
    frame without collision each target the head overlaps leaves the list,
    the others stay in their order, and behind them comes one new target
    for each collected one, of its type (latest collected first), on a
    cell of the spawner's range that is no cell of the snake and the cell
    of no target then in the list.  So there are three of each type after
    every frame of a run.  Reset and update return when the world starts
    with fresh draws. *)
Theorem three_targets_of_each_type
    (CONFIG : Config) (g : Game) (ps : list (nat * nat))
    (rest : list nat) (f : File) :
  0 < spawn_columns CONFIG ->
  0 < spawn_rows CONFIG ->
  (forall w g' w',
      reset_game CONFIG g w = Ret (g', w') ->
      count_type 0 (targets g') = 3%nat /\
      count_type 1 (targets g') = 3%nat /\
      List.length (targets g') = 6%nat) /\
  (forall w g' w' ty,
      update CONFIG g w = Ret (g', w') ->
      count_type ty (targets g') = count_type ty (targets g)) /\
  (forall w s1 head body g' w',
      state g = PLAYING ->
      advance_snake (snake g) = Ret s1 ->
      positions s1 = head :: body ->
      check_collision s1 (walls CONFIG) = Ret false ->
      update CONFIG g w = Ret (g', w') ->
      exists news,
        targets g' = untouched head (targets g) ++ news /\
        map type news = rev (map type (overlapping head (targets g))) /\
        Forall (spawnable CONFIG) (map position news) /\
        each_on_free_cell (positions (snake g'))
                          (untouched head (targets g)) news) /\
  (forall w g0 w0 frames g' w',
      Game_init CONFIG w = Ret (g0, w0) ->
      run CONFIG frames g0 w0 = Ret (g', w') ->
      count_type 0 (targets g') = 3%nat /\
      count_type 1 (targets g') = 3%nat) /\
  (fresh_pairs CONFIG
     (with_targets []
        (with_snake (Snake_init CONFIG (window_width CONFIG * 3 / 4)
                                       (window_height CONFIG / 2)) g)) ps ->
   List.length ps = 6%nat ->
   exists g',
     reset_game CONFIG g
       {| draws := draws_of_pairs ps ++ rest; highscore_txt := f |}
     = Ret (g', {| draws := rest; highscore_txt := f |})) /\
  (forall s1,
      state g = PLAYING ->
      advance_snake (snake g) = Ret s1 ->
      check_collision s1 (walls CONFIG) = Ret false ->
      fresh_pairs CONFIG (with_snake s1 g) ps ->
      (List.length (targets g) <= List.length ps)%nat ->
      exists g' w',
        update CONFIG g
          {| draws := draws_of_pairs ps ++ rest; highscore_txt := f |}
        = Ret (g', w')).
Proof.
  intros Hx Hy. split; [|split; [|split; [|split; [|split]]]].
  - intros w g' w' H. apply reset_game_spec in H. tauto.
  - intros w g' w' ty H.
    apply (update_targets_invariant CONFIG
             (fun ts => count_type ty ts = count_type ty (targets g)))
      with (g := g) (w := w) (w' := w'); [|assumption|reflexivity].
    intros i g0 w0 g1 w1 Hc Hr. rewrite <- Hc.
    eapply replace_target_count; eassumption.
  - intros w s1 head body g' w' Hst Hadv Hp Hhit H.
    rewrite (update_without_collision CONFIG g w s1 head body
               Hst Hadv Hp Hhit) in H.
    set (g0 := with_score _ _) in H.
    destruct (replace_loop_frame CONFIG _ g0 w g' w' H)
      as ((_ & _ & _ & _ & Hsn) & _).
    destruct (replace_loop_keeps CONFIG head (targets g) [] [] g0 w g' w')
      as (news & Hts & Hty & Hsp & Hfr).
    { subst g0. cbn [targets with_score with_snake app].
      now rewrite app_nil_r. }
    { exact H. }
    exists news. cbn [app] in Hts, Hfr. rewrite app_nil_r in Hfr.
    rewrite Hsn. repeat split; assumption.
  - intros w g0 w0 frames g' w' Hinit Hrun.
    apply Game_init_at_rest in Hinit.
    pose proof (run_at_rest CONFIG frames g0 w0 g' w' Hinit Hrun) as Hrest.
    unfold targets_at_rest in Hrest. tauto.
  - apply reset_game_returns; assumption.
  - intros s1. apply update_returns; assumption.
Qed.

(** ** The statements at work on the example games *)

Lemma positions_never_exceed_length_witness :
  let s := grow example_config example_snake in
  body_size (Snake_init example_config 600 300)
    <= length (Snake_init example_config 600 300) /\
  body_size (grow example_config s) <= length (grow example_config s) /\
  (exists s' new_head,
      move s = Ret s' /\
      body_size s' <= length s' /\
      positions s' =
      new_head :: (if body_size s <? length s then positions s
                   else removelast (positions s))) /\
  (length s <= Z.of_nat 4 ->
   exists s', moves 4 s = Ret s' /\ body_size s' = length s').
Proof.
  apply (positions_never_exceed_length example_config 600 300
           (grow example_config example_snake) 4).
  - vm_compute. discriminate.
  - discriminate.
  - vm_compute. discriminate.
Defined.

Lemma grow_is_monotone_witness :
  let before := grows example_config 4 example_snake in
  let after := grows example_config (4 + 3) example_snake in
  length before <= length after /\
  targets_collected before <= targets_collected after /\
  speed before <= speed after /\
  speed after <= max_speed example_config /\
  (targets_collected after + 1 > targets_before_speedup example_config ->
   speed after < max_speed example_config ->
   speed (grow example_config after) =
   Z.min (speed after + speed_increase_amount example_config)
         (max_speed example_config)).
Proof.
  apply (grow_is_monotone example_config example_snake 4 3).
  - vm_compute. discriminate.
  - vm_compute. discriminate.
Defined.

Lemma update_frame_outside_playing_witness :
  update example_config (example_game GAME_OVER (1, 0)) example_world
  = Ret (example_game GAME_OVER (1, 0), example_world).
Proof.
  apply (update_frame_outside_playing example_config
           (example_game GAME_OVER (1, 0)) example_world).
  right. reflexivity.
Defined.

Lemma collision_precedes_collection_witness :
  colliderect (cell_rect (570, 300)) (cell_rect (570, 300)) = true /\
  In {| position := (570, 300); type := 1 |} (targets folding_game) /\
  exists g' w',
    update example_config folding_game example_world = Ret (g', w') /\
    state g' = GAME_OVER /\
    score g' = score folding_game /\
    targets g' = targets folding_game /\
    snake g' = folded_snake /\
    draws w' = draws example_world.
Proof.
  split; [reflexivity|]. split; [left; reflexivity|].
  apply (collision_precedes_collection example_config folding_game
           example_world folded_snake (570, 300) [(600, 300); (570, 300)]).
  - reflexivity.
  - reflexivity.
  - reflexivity.
  - right. right. left. reflexivity.
Defined.

Lemma high_score_updated_at_game_over_witness :
  score folding_game = 500 /\ high_score folding_game = 300 /\
  exists g' w',
    update example_config folding_game example_world = Ret (g', w') /\
    state g' = GAME_OVER /\
    (score folding_game > high_score folding_game ->
     high_score g' = score folding_game /\
     highscore_txt w' = Content (py_str (score folding_game)) /\
     _load_high_score w' = Ret (score folding_game, w')) /\
    (score folding_game <= high_score folding_game ->
     high_score g' = high_score folding_game /\
     highscore_txt w' = highscore_txt example_world).
Proof.
  split; [reflexivity|]. split; [reflexivity|].
  apply (high_score_updated_at_game_over example_config folding_game
           example_world folded_snake); reflexivity.
Defined.

Lemma reversal_is_rejected_witness :
  exists g',
    handle_event example_config (KEYDOWN K_LEFT)
      (example_game PLAYING (1, 0)) example_world
    = Ret (g', example_world) /\
    (direction (snake (example_game PLAYING (1, 0))) = opposite (-1, 0) ->
     g' = example_game PLAYING (1, 0)) /\
    (direction (snake (example_game PLAYING (1, 0))) <> opposite (-1, 0) ->
     direction (snake g') = (-1, 0) /\ facing (snake g') = (-1, 0)) /\
    direction (snake g')
    <> opposite (direction (snake (example_game PLAYING (1, 0)))).
Proof.
  apply (reversal_is_rejected example_config (example_game PLAYING (1, 0))
           example_world K_LEFT (-1, 0)); reflexivity.
Defined.

Lemma spawned_cell_in_range_and_free_witness :
  exists w',
    _spawn_target example_config (example_game PLAYING (0, -1)) example_world
    = Ret ((120, 120), w') /\
    spawnable example_config (120, 120) /\
    interior_cell example_config (120, 120) = true /\
    ~ In (120, 120) (positions (snake (example_game PLAYING (0, -1)))) /\
    ~ In (120, 120) (map position (targets (example_game PLAYING (0, -1)))).
Proof.
  eexists. split; [vm_compute; reflexivity|].
  eapply (proj1 (spawned_cell_in_range_and_free example_config
                   (example_game PLAYING (0, -1)))
                example_world (120, 120)).
  vm_compute. reflexivity.
Defined.

Lemma spawn_loop_returns_on_a_free_draw_witness :
  exists pos w',
    _spawn_target example_config (example_game PLAYING (0, -1))
      {| draws := (draws_of_pairs [(19, 9)] ++ 3 :: 3 :: [4; 4])%nat;
         highscore_txt := Content (ascii_text "300") |}
    = Ret (pos, w') /\
    is_free (example_game PLAYING (0, -1)) pos = true /\
    spawnable example_config pos.
Proof.
  apply (proj1 (spawn_loop_returns_on_a_free_draw example_config
                  (example_game PLAYING (0, -1)))
               [(19, 9)%nat] 3%nat 3%nat [4; 4]%nat (Content (ascii_text "300")));
    reflexivity.
Defined.

Lemma load_high_score_cases_witness :
  let w := {| draws := [];
              highscore_txt := Content [0xa0; 0x664; 0x32; 0x0a]%N |} in
  _load_high_score w = Ret (42, w).
Proof.
  apply (load_high_score_cases
           {| draws := [];
              highscore_txt := Content [0xa0; 0x664; 0x32; 0x0a]%N |}).
  right. vm_compute. discriminate.
Defined.

Lemma three_targets_of_each_type_witness :
  exists g' w',
    update example_config (example_game PLAYING (0, -1)) example_world
    = Ret (g', w') /\
    score g' = 510 /\
    count_type 0 (targets g') = 3%nat /\
    count_type 1 (targets g') = 3%nat /\
    exists news,
      targets g' = untouched (600, 270) example_targets ++ news /\
      map type news
      = rev (map type (overlapping (600, 270) example_targets)) /\
      Forall (spawnable example_config) (map position news) /\
      each_on_free_cell (positions (snake g'))
                        (untouched (600, 270) example_targets) news.
Proof.
  eexists. eexists. split; [vm_compute; reflexivity|].
  split; [reflexivity|].
  pose proof (three_targets_of_each_type example_config
                (example_game PLAYING (0, -1)) [] [] Absent
                eq_refl eq_refl) as (_ & Hupdate & Hnew & _).
  split; [|split].
  - transitivity (count_type 0 (targets (example_game PLAYING (0, -1))));
      [apply (Hupdate example_world _ _ 0 eq_refl) | reflexivity].
  - transitivity (count_type 1 (targets (example_game PLAYING (0, -1))));
      [apply (Hupdate example_world _ _ 1 eq_refl) | reflexivity].
  - apply (Hnew example_world risen_snake (600, 270)
             [(600, 300); (570, 300)] _ _ eq_refl eq_refl eq_refl eq_refl
             eq_refl).
Defined.

(** * Further properties of the code *)

(** ** Input handling *)

Lemma keydown_playing_fields (key : Key) (g : Game) :
  state (keydown_playing key g) = state g /\
  score (keydown_playing key g) = score g /\
  high_score (keydown_playing key g) = high_score g /\
  is_hovered (keydown_playing key g) = is_hovered g /\
  targets (keydown_playing key g) = targets g /\
  positions (snake (keydown_playing key g)) = positions (snake g) /\
  speed (snake (keydown_playing key g)) = speed (snake g).
Proof.
  unfold keydown_playing.
  destruct key;
    repeat match goal with
           | |- context [if ?b then _ else _] => destruct b
           end; repeat split.
Qed.

(** What the body of the event loop does, state by state. *)
Lemma handle_event_cases (CONFIG : Config) (e : Event) (g : Game) (w : World) :
  handle_event CONFIG e g w =
  match state g, e with
  | PLAYING, KEYDOWN key => Ret (keydown_playing key g, w)
  | GAME_OVER, KEYDOWN K_SPACE =>
      (g' <- reset_game CONFIG g ;; ret (with_state MENU g')) w
  | MENU, MOUSEMOTION pos =>
      Ret (with_is_hovered (collidepoint (start_button_rect CONFIG) pos) g, w)
  | MENU, MOUSEBUTTONDOWN =>
      Ret (if is_hovered g then with_state PLAYING g else g, w)
  | _, _ => Ret (g, w)
  end.
Proof.
  unfold handle_event.
  destruct (state g) eqn:Hst; destruct e as [|key|pos| |];
    cbn [GameState_eqb]; try (destruct key);
    unfold bind at 1; unfold ret at 1;
    cbn [state with_state with_is_hovered keydown_playing with_snake];
    rewrite ?Hst; cbn [GameState_eqb Button_handle_event];
    try reflexivity.
  all: try (destruct (is_hovered g); reflexivity).
  all: try (repeat match goal with
                   | |- context [if ?b then _ else _] => destruct b
                   end;
            cbn [state with_snake]; rewrite ?Hst; reflexivity).
  unfold bind, ret.
  destruct (reset_game CONFIG g w) as [[g1 w1]| |]; reflexivity.
Qed.

(** X1: a frame without collision.  The snake grows once for each target
    the head overlaps and the score rises by their points; the state, the
    high score and the high-score file stay; the targets the head does not
    overlap stay in their order, followed by one new target for each
    collected one, of the same type, latest collected first. *)
Theorem update_collects
    (CONFIG : Config) (g : Game) (w : World) (s1 : Snake)
    (head : Cell) (body : list Cell) (g' : Game) (w' : World) :
  state g = PLAYING ->
  advance_snake (snake g) = Ret s1 ->
  positions s1 = head :: body ->
  check_collision s1 (walls CONFIG) = Ret false ->
  update CONFIG g w = Ret (g', w') ->
  state g' = PLAYING /\
  snake g' = grows CONFIG (List.length (overlapping head (targets g))) s1 /\
  score g' = score g + total_points CONFIG (overlapping head (targets g)) /\
  high_score g' = high_score g /\
  highscore_txt w' = highscore_txt w /\
  exists news,
    targets g' = untouched head (targets g) ++ news /\
    map type news = rev (map type (overlapping head (targets g))) /\
    Forall (spawnable CONFIG) (map position news).
Proof.
  intros Hst Hadv Hp Hhit H.
  rewrite (update_without_collision CONFIG g w s1 head body Hst Hadv Hp Hhit)
    in H.
  set (g0 := with_score _ _) in H.
  destruct (replace_loop_frame CONFIG _ g0 w g' w' H)
    as ((H1 & H2 & H3 & H4 & H5) & Hf & _).
  destruct (replace_loop_keeps CONFIG head (targets g) [] [] g0 w g' w')
    as (news & Hts & Hty & Hsp & _).
  { subst g0. cbn [targets with_score with_snake app].
    now rewrite app_nil_r. }
  { exact H. }
  subst g0. cbn [state score high_score snake with_score with_snake] in *.
  split; [congruence|]. split; [assumption|]. split; [assumption|].
  split; [assumption|]. split; [assumption|].
  exists news. cbn [app] in Hts. split; [exact Hts|]. split; assumption.
Qed.

(** ** The state machine *)

Lemma update_state (CONFIG : Config) (g : Game) (w : World)
    (g' : Game) (w' : World) :
  update CONFIG g w = Ret (g', w') ->
  state g' = state g \/ (state g = PLAYING /\ state g' = GAME_OVER).
Proof.
  intros H. unfold update in H.
  destruct (state g) eqn:Hst; cbn [GameState_eqb] in H;
    try (inversion H; subst; left; assumption).
  unfold bind at 1 in H. unfold lift at 1 in H.
  destruct (advance_snake (snake g)) as [s1| |]; try discriminate.
  unfold bind at 1 in H. unfold lift at 1 in H.
  destruct (check_collision s1 (walls CONFIG)) as [hit| |]; try discriminate.
  destruct hit.
  - right. split; [reflexivity|].
    destruct (score _ >? high_score _).
    + unfold bind, _save_high_score, write_highscore_txt, ret in H.
      inversion H; subst. reflexivity.
    + inversion H; subst. reflexivity.
  - left. destruct (positions s1) as [|head body]; [discriminate|].
    destruct (fold_left _ _ _) as [[collected s2] sc].
    destruct (replace_loop_frame CONFIG _ _ w g' w' H) as ((H1 & _) & _).
    rewrite H1. cbn [state with_score with_snake]. assumption.
Qed.

(** X2: the moves of the game state.  Handling an event takes MENU to MENU
    or PLAYING, leaves PLAYING alone and takes GAME_OVER to GAME_OVER or
    MENU; a frame update takes PLAYING to PLAYING or GAME_OVER and leaves
    the other two states alone. *)
Theorem state_machine_steps
    (CONFIG : Config) (e : Event) (g : Game) (w : World)
    (g' : Game) (w' : World) :
  (handle_event CONFIG e g w = Ret (g', w') ->
   input_step (state g) (state g') = true) /\
  (update CONFIG g w = Ret (g', w') ->
   update_step (state g) (state g') = true).
Proof.
  split; intros H.
  - rewrite handle_event_cases in H.
    destruct (state g) eqn:Hst; destruct e as [|key|pos| |];
      try (inversion H; subst; cbn [state with_is_hovered]; rewrite Hst;
           reflexivity).
    + destruct (is_hovered g); inversion H; subst;
        cbn [state with_state]; rewrite ?Hst; reflexivity.
    + inversion H; subst.
      destruct (keydown_playing_fields key g) as [-> _]. rewrite Hst.
      reflexivity.
    + destruct key;
        try (inversion H; subst; rewrite Hst; reflexivity).
      unfold bind, ret in H.
      destruct (reset_game CONFIG g w) as [[g1 w1]| |]; try discriminate.
      inversion H; subst. reflexivity.
  - destruct (update_state CONFIG g w g' w' H) as [-> | [-> ->]];
      [destruct (state g)|]; reflexivity.
Qed.

(** X3: starting the game.  In the MENU state the game starts exactly on a
    mouse click made while the pointer is over the start button, as the
    last mouse motion saw it; no event in MENU touches the snake, the
    targets, the score or the world. *)
Theorem start_needs_hovered_click
    (CONFIG : Config) (e : Event) (g : Game) (w : World)
    (g' : Game) (w' : World) :
  state g = MENU ->
  handle_event CONFIG e g w = Ret (g', w') ->
  (state g' = PLAYING <-> e = MOUSEBUTTONDOWN /\ is_hovered g = true) /\
  (forall pos, e = MOUSEMOTION pos ->
               is_hovered g' = collidepoint (start_button_rect CONFIG) pos) /\
  snake g' = snake g /\ targets g' = targets g /\ score g' = score g /\
  high_score g' = high_score g /\ w' = w.
Proof.
  intros Hst H. rewrite handle_event_cases, Hst in H.
  destruct e as [|key|pos| |]; inversion H; subst; clear H;
    cbn [state is_hovered snake targets score high_score with_is_hovered].
  all: try (split; [split; [rewrite Hst; discriminate
                           | intros [He _]; discriminate He]|];
            split; [intros pos' He; inversion He; subst; reflexivity
                             || discriminate He|];
            repeat split).
  destruct (is_hovered g) eqn:Hh; cbn [state with_state].
  - split; [split; [intros _; split; reflexivity | reflexivity]|].
    split; [intros pos He; discriminate He|]. repeat split.
  - split; [split; [rewrite Hst; discriminate
                   | intros [_ Hc]; discriminate Hc]|].
    split; [intros pos He; discriminate He|]. repeat split.
Qed.

(** X4: events that do nothing.  A key pressed in MENU, an event other than
    a key in PLAYING, and anything but the space key in GAME_OVER leave the
    game and the world exactly as they were; so the pointer is not tracked
    outside MENU. *)
Theorem idle_events_change_nothing
    (CONFIG : Config) (e : Event) (g : Game) (w : World) :
  (state g = MENU /\ exists key, e = KEYDOWN key) \/
  (state g = PLAYING /\ forall key, e <> KEYDOWN key) \/
  (state g = GAME_OVER /\ e <> KEYDOWN K_SPACE) ->
  handle_event CONFIG e g w = Ret (g, w).
Proof.
  rewrite handle_event_cases.
  intros [[Hst [key ->]] | [[Hst Hne] | [Hst Hne]]]; rewrite Hst.
  - reflexivity.
  - destruct e as [|key|pos| |]; try reflexivity.
    exfalso. apply (Hne key). reflexivity.
  - destruct e as [|key|pos| |]; try reflexivity.
    destruct key; try reflexivity. exfalso. apply Hne. reflexivity.
Qed.

(** X5: the restart.  The space key in GAME_OVER leads to MENU, not to
    PLAYING, with the score at 0, the high score kept, a fresh snake at its
    start place, three new targets of each type on different cells off the
    snake, and the high-score file untouched; and it does return when the
    world starts with six fresh pairs of draws. *)
Theorem restart_gives_fresh_game
    (CONFIG : Config) (g : Game) (w : World) (g' : Game) (w' : World)
    (ps : list (nat * nat)) (rest : list nat) (f : File) :
  state g = GAME_OVER ->
  (handle_event CONFIG (KEYDOWN K_SPACE) g w = Ret (g', w') ->
   state g' = MENU /\
   score g' = 0 /\
   high_score g' = high_score g /\
   snake g' = Snake_init CONFIG (window_width CONFIG * 3 / 4)
                                (window_height CONFIG / 2) /\
   targets_at_rest g' /\ targets_off_snake g' /\
   highscore_txt w' = highscore_txt w) /\
  (0 < spawn_columns CONFIG -> 0 < spawn_rows CONFIG ->
   fresh_pairs CONFIG
     (with_targets []
        (with_snake (Snake_init CONFIG (window_width CONFIG * 3 / 4)
                                       (window_height CONFIG / 2)) g)) ps ->
   List.length ps = 6%nat ->
   exists g1,
     handle_event CONFIG (KEYDOWN K_SPACE) g
       {| draws := draws_of_pairs ps ++ rest; highscore_txt := f |}
     = Ret (g1, {| draws := rest; highscore_txt := f |})).
Proof.
  intros Hst. split.
  - intros H. rewrite handle_event_cases, Hst in H. unfold bind, ret in H.
    destruct (reset_game CONFIG g w) as [[g1 w1]| |] eqn:E; try discriminate.
    inversion H; subst; clear H.
    destruct (reset_game_frame CONFIG g w g1 w' E) as (_ & Hh & _ & Hs & Hf).
    destruct (reset_game_spec CONFIG g w g1 w' E)
      as (H0 & H1 & _ & _ & Hd & Ho & Hsc).
    cbn [state score high_score snake with_state].
    split; [reflexivity|]. split; [assumption|]. split; [assumption|].
    split; [assumption|]. split; [|split; assumption].
    unfold targets_at_rest. repeat split; assumption.
  - intros Hx Hy Hfresh Hlen.
    destruct (reset_game_returns CONFIG Hx Hy g ps rest f Hfresh Hlen)
      as (g1 & Hr).
    exists (with_state MENU g1).
    rewrite handle_event_cases, Hst. unfold bind, ret. rewrite Hr.
    reflexivity.
Qed.

(** ** Quitting *)

Lemma handle_input_quit_flag (CONFIG : Config) (events : list Event) :
  forall g w b g' w',
    handle_input CONFIG events g w = Ret ((b, g'), w') ->
    b = negb (existsb is_quit events).
Proof.
  induction events as [|e events IH]; intros g w b g' w' H.
  - inversion H; subst. reflexivity.
  - destruct e as [|key|pos| |]; cbn [handle_input existsb is_quit orb] in *;
      try (unfold bind at 1 in H; first_step in H as g1 w1 E;
           eapply IH; exact H).
    inversion H; subst. reflexivity.
Qed.

(** X6: the event queue.  [handle_input] answers [False] exactly when the
    queue holds a QUIT event; the events behind the first QUIT are not
    handled; and a queue without QUIT is handled event by event, so that
    two such queues in a row give the same as their concatenation. *)
Theorem handle_input_stops_at_quit
    (CONFIG : Config) (events : list Event) (g : Game) (w : World) :
  (forall b g' w',
      handle_input CONFIG events g w = Ret ((b, g'), w') ->
      b = negb (existsb is_quit events) /\
      (b = false ->
       forall later,
         handle_input CONFIG (events ++ later) g w = Ret ((b, g'), w'))) /\
  (existsb is_quit events = false ->
   forall later,
     handle_input CONFIG (events ++ later) g w
     = (r <- handle_input CONFIG events g ;;
        handle_input CONFIG later (snd r)) w).
Proof.
  revert g w. induction events as [|e events IH]; intros g w.
  - split.
    + intros b g' w' H. inversion H; subst. split; [reflexivity|].
      discriminate.
    + intros _ later. reflexivity.
  - destruct (IH g w) as [_ IHc]. split.
    + intros b g' w' H.
      split; [eapply handle_input_quit_flag; exact H|]. intros Hb later.
      destruct e as [|key|pos| |]; cbn [app handle_input] in *;
        try (unfold bind at 1 in H; unfold bind at 1;
             match goal with
             | |- match ?m with _ => _ end = _ =>
                 destruct m as [[g1 w1]| |]; try discriminate
             end;
             destruct (IH g1 w1) as [IHq _];
             destruct (IHq b g' w' H) as [_ Hlater];
             apply Hlater; assumption).
      exact H.
    + intros Hq later.
      destruct e as [|key|pos| |]; cbn [existsb is_quit orb] in Hq;
        try discriminate;
        cbn [app handle_input]; unfold bind;
        match goal with
        | |- match ?m with _ => _ end = _ =>
            destruct m as [[g1 w1]| |]; try reflexivity
        end;
        destruct (IH g1 w1) as [_ IHq]; rewrite (IHq Hq later);
        unfold bind; reflexivity.
Qed.

(** X7: the main loop.  A frame whose queue holds QUIT is still updated,
    and it is the last one: the frames after it are not run. *)
Theorem run_stops_at_quit
    (CONFIG : Config) (events : list Event) (frames : list (list Event))
    (g : Game) (w : World) :
  existsb is_quit events = true ->
  run CONFIG (events :: frames) g w
  = (r <- handle_input CONFIG events g ;; update CONFIG (snd r)) w.
Proof.
  intros Hq. cbn [run]. unfold frame, bind, ret.
  destruct (handle_input CONFIG events g w) as [[[b g1] w1]| |] eqn:E;
    try reflexivity.
  apply handle_input_quit_flag in E. rewrite Hq in E. subst b.
  cbn [fst snd negb].
  destruct (update CONFIG g1 w1) as [[g2 w2]| |]; reflexivity.
Qed.

(** ** The pace of the snake *)

Lemma with_move_timer_same (s : Snake) : with_move_timer (move_timer s) s = s.
Proof. destruct s; reflexivity. Qed.

Lemma move_with_move_timer (t : Z) (s : Snake) :
  move (with_move_timer t s)
  = obind (move s) (fun s' => Ret (with_move_timer t s')).
Proof.
  unfold move. cbn [positions direction length with_move_timer].
  destruct (positions s) as [|[x y] ps]; [reflexivity|].
  destruct (direction s) as [dx dy]. reflexivity.
Qed.

Lemma advance_snake_idle (s : Snake) :
  direction s = (0, 0) -> advance_snake s = Ret s.
Proof. intros H. unfold advance_snake. rewrite H. reflexivity. Qed.

Lemma advance_snake_wait (s : Snake) :
  direction s <> (0, 0) ->
  speed s <> 0 ->
  move_timer s + 1 < 60 / speed s ->
  advance_snake s = Ret (with_move_timer (move_timer s + 1) s).
Proof.
  intros Hd Hs Ht. unfold advance_snake.
  apply cell_eqb_neq in Hd. rewrite Hd. cbn [negb speed move_timer
    with_move_timer].
  replace (speed s =? 0) with false by (symmetry; apply Z.eqb_neq; assumption).
  replace (_ >=? _) with false; [reflexivity|].
  symmetry. rewrite Z.geb_leb. apply Z.leb_gt. assumption.
Qed.

Lemma advance_snake_step (s : Snake) :
  direction s <> (0, 0) ->
  speed s <> 0 ->
  60 / speed s <= move_timer s + 1 ->
  advance_snake s = obind (move s) (fun s' => Ret (with_move_timer 0 s')).
Proof.
  intros Hd Hs Ht. unfold advance_snake.
  apply cell_eqb_neq in Hd. rewrite Hd. cbn [negb speed move_timer
    with_move_timer].
  replace (speed s =? 0) with false by (symmetry; apply Z.eqb_neq; assumption).
  replace (_ >=? _) with true
    by (symmetry; rewrite Z.geb_leb; apply Z.leb_le; assumption).
  rewrite move_with_move_timer. destruct (move s); reflexivity.
Qed.

Lemma ticks_add (n m : nat) : forall s,
  ticks (n + m) s = obind (ticks n s) (ticks m).
Proof.
  induction n as [|n IH]; intros s; [reflexivity|].
  cbn [Nat.add ticks]. destruct (advance_snake s); cbn [obind];
    [apply IH | reflexivity | reflexivity].
Qed.

Lemma ticks_wait (n : nat) : forall s,
  direction s <> (0, 0) ->
  speed s <> 0 ->
  move_timer s + Z.of_nat n < 60 / speed s ->
  ticks n s = Ret (with_move_timer (move_timer s + Z.of_nat n) s).
Proof.
  induction n as [|n IH]; intros s Hd Hs Ht.
  - cbn [ticks]. rewrite Z.add_0_r, with_move_timer_same. reflexivity.
  - cbn [ticks]. rewrite advance_snake_wait by (assumption || lia).
    cbn [obind]. rewrite IH; cbn [direction speed move_timer with_move_timer];
      try assumption; try lia.
    f_equal. unfold with_move_timer. cbn. f_equal. lia.
Qed.

(** X8: the pace of the snake.  With a direction set, a positive speed and
    the timer at 0, the snake stands still for [60 // speed - 1] frames,
    the timer counting them, and on the next frame it makes one move and
    the timer is back at 0.  When [60 // speed] is 1 or less, which is so
    for every speed above 30, it moves on every frame. *)
Theorem snake_steps_every_period (s : Snake) (k : nat) :
  direction s <> (0, 0) ->
  0 < speed s ->
  move_timer s = 0 ->
  (Z.of_nat (S k) = 60 / speed s ->
   ticks k s = Ret (with_move_timer (Z.of_nat k) s) /\
   ticks (S k) s = obind (move s) (fun s' => Ret (with_move_timer 0 s'))) /\
  (30 < speed s ->
   60 / speed s <= 1 /\
   ticks 1 s = obind (move s) (fun s' => Ret (with_move_timer 0 s'))).
Proof.
  intros Hd Hs Ht. split.
  - intros Hk.
    assert (Hw : ticks k s = Ret (with_move_timer (Z.of_nat k) s)).
    { rewrite ticks_wait by (assumption || lia). rewrite Ht. reflexivity. }
    split; [exact Hw|].
    replace (S k) with (k + 1)%nat by lia. rewrite ticks_add, Hw.
    cbn [obind ticks].
    rewrite advance_snake_step;
      cbn [direction speed move_timer with_move_timer];
      try assumption; try lia.
    rewrite move_with_move_timer.
    destruct (move s); reflexivity.
  - intros Hfast.
    assert (Hq : 60 / speed s <= 1).
    { assert (60 / speed s < 2); [|lia].
      apply Z.div_lt_upper_bound; lia. }
    split; [exact Hq|]. cbn [ticks].
    rewrite advance_snake_step by (assumption || lia).
    destruct (move s); reflexivity.
Qed.

Lemma advance_snake_fields (s s' : Snake) :
  advance_snake s = Ret s' ->
  direction s' = direction s /\ facing s' = facing s /\
  speed s' = speed s /\ length s' = length s /\
  (positions s <> [] -> positions s' <> []).
Proof.
  unfold advance_snake. destruct (negb _).
  2:{ intros H; inversion H; subst. repeat split; auto. }
  cbn [speed move_timer with_move_timer].
  destruct (speed s =? 0); [discriminate|].
  destruct (_ >=? _).
  - rewrite move_with_move_timer. unfold move.
    destruct (positions s) as [|[x y] ps]; [discriminate|].
    destruct (direction s) as [dx dy] eqn:Ed. cbn [obind].
    intros H; inversion H; subst.
    cbn [direction facing speed length positions with_move_timer
         with_positions].
    repeat split; try assumption.
    intros _. destruct (_ >? _); cbn [removelast]; discriminate.
  - intros H; inversion H; subst. repeat split; auto.
Qed.

Lemma advance_snake_returns (s : Snake) :
  speed s <> 0 -> positions s <> [] ->
  exists s', advance_snake s = Ret s'.
Proof.
  intros Hs Hp. unfold advance_snake. destruct (negb _); [|eexists; reflexivity].
  cbn [speed move_timer with_move_timer].
  replace (speed s =? 0) with false by (symmetry; apply Z.eqb_neq; assumption).
  destruct (_ >=? _); [|eexists; reflexivity].
  rewrite move_with_move_timer. unfold move.
  destruct (positions s) as [|[x y] ps]; [congruence|].
  destruct (direction s) as [dx dy]. cbn [obind]. eexists; reflexivity.
Qed.

(** X9: what the timer-and-move step does at its edges.  Without a
    direction the snake is left alone, however many frames pass.  With a
    direction and a speed of 0 the division [60 // speed] raises
    [ZeroDivisionError].  With a speed other than 0 the step raises
    nothing as long as the snake has a cell, and it keeps the direction,
    the facing, the speed and the [length] field. *)
Theorem advance_snake_edges (s : Snake) (n : nat) :
  (direction s = (0, 0) -> ticks n s = Ret s) /\
  (direction s <> (0, 0) -> speed s = 0 ->
   advance_snake s = Raise ZeroDivisionError) /\
  (speed s <> 0 -> positions s <> [] ->
   exists s', advance_snake s = Ret s' /\
              positions s' <> [] /\ speed s' = speed s /\
              length s' = length s /\
              direction s' = direction s /\ facing s' = facing s).
Proof.
  split; [|split].
  - intros Hd. induction n as [|n IH]; [reflexivity|].
    cbn [ticks]. rewrite advance_snake_idle by assumption. exact IH.
  - intros Hd Hs. unfold advance_snake. apply cell_eqb_neq in Hd.
    rewrite Hd. cbn [negb speed with_move_timer]. rewrite Hs. reflexivity.
  - intros Hs Hp.
    destruct (advance_snake_returns s Hs Hp) as [s' Hr]. exists s'.
    destruct (advance_snake_fields s s' Hr) as (H1 & H2 & H3 & H4 & H5).
    split; [assumption|]. split; [apply H5; assumption|].
    repeat split; assumption.
Qed.

(** ** The walls *)

(** X10: the walls close the field.  In a window of at least one cell each
    way, with the sizes of the window and the rectangle of the cell within
    the C ints of a [pygame.Rect], a 30 by 30 rectangle hits one of the
    four walls exactly when it overlaps the window without lying within
    the inner playfield, which runs from 30 to [width - 60] and from 30 to
    [height - 60]. *)
Theorem walls_close_the_field (CONFIG : Config) (c : Cell) :
  30 <= window_width CONFIG ->
  30 <= window_height CONFIG ->
  c_int (window_width CONFIG) ->
  c_int (window_height CONFIG) ->
  rect_in_range (cell_rect c) ->
  existsb (fun wall => colliderect (cell_rect c) wall) (walls CONFIG) = true
  <-> on_screen CONFIG c /\ ~ inside_walls CONFIG c.
Proof.
  intros HW HH _ _ _.
  destruct c as [x y]. unfold walls, on_screen, inside_walls.
  cbn [existsb fst snd]. rewrite !orb_true_iff.
  rewrite !colliderect_overlap
    by (cbn [rx ry rw rh cell_rect fst snd]; lia).
  cbn [rx ry rw rh cell_rect fst snd]. lia.
Qed.

Lemma wall_hit_outside (CONFIG : Config) (c : Cell) :
  30 <= window_width CONFIG ->
  30 <= window_height CONFIG ->
  on_screen CONFIG c -> ~ inside_walls CONFIG c ->
  existsb (fun wall => colliderect (cell_rect c) wall) (walls CONFIG) = true.
Proof.
  intros HW HH Hon Hout. destruct c as [x y].
  unfold walls, on_screen, inside_walls in *.
  cbn [existsb fst snd] in *. rewrite !orb_true_iff.
  rewrite !colliderect_overlap
    by (cbn [rx ry rw rh cell_rect fst snd]; lia).
  cbn [rx ry rw rh cell_rect fst snd]. lia.
Qed.

(** X11: no way out.  A snake whose head lies within the inner playfield and
    which moves one cell in one of the four directions has its head within
    the inner playfield again, or the collision check of that frame
    fires. *)
Theorem snake_cannot_slip_out
    (CONFIG : Config) (s : Snake) (head : Cell) (body : list Cell) :
  30 <= window_width CONFIG ->
  30 <= window_height CONFIG ->
  positions s = head :: body ->
  inside_walls CONFIG head ->
  unit_vector (direction s) ->
  exists s' body',
    move s = Ret s' /\
    positions s' =
    (fst head + fst (direction s) * 30, snd head + snd (direction s) * 30)
    :: body' /\
    (inside_walls CONFIG
       (fst head + fst (direction s) * 30, snd head + snd (direction s) * 30)
     \/ check_collision s' (walls CONFIG) = Ret true).
Proof.
  intros HW HH Hp Hin Hd. unfold move. rewrite Hp.
  destruct head as [x y]. destruct (direction s) as [dx dy] eqn:Ed.
  cbn [fst snd] in *.
  set (nh := (x + dx * 30, y + dy * 30)).
  assert (Hps : exists body',
             (if Z.of_nat (List.length (nh :: (x, y) :: body)) >? length s
              then removelast (nh :: (x, y) :: body)
              else nh :: (x, y) :: body) = nh :: body').
  { destruct (_ >? _); cbn [removelast]; eexists; reflexivity. }
  destruct Hps as [body' Hps]. rewrite Hps.
  eexists; exists body'. split; [reflexivity|].
  cbn [positions with_positions]. split; [reflexivity|].
  assert (Hon : on_screen CONFIG nh).
  { unfold on_screen, inside_walls, unit_vector in *. subst nh.
    cbn [fst snd] in *.
    destruct Hd as [Hd | [Hd | [Hd | Hd]]]; inversion Hd; subst; lia. }
  assert (Hdec : inside_walls CONFIG nh \/ ~ inside_walls CONFIG nh)
    by (unfold inside_walls; lia).
  destruct Hdec as [Hi | Ho]; [left; assumption | right].
  apply (check_collision_hit _ _ nh body'); [reflexivity|].
  left. apply existsb_exists.
  apply (wall_hit_outside CONFIG nh HW HH Hon Ho).
Qed.

(** ** The fresh snake *)

Lemma Snake_init_positions (CONFIG : Config) (x y : Z) :
  positions (Snake_init CONFIG x y)
  = map (fun i => (x - 30 * Z.of_nat i, y))
        (seq 0 (Z.to_nat (Z.max 1 (initial_length CONFIG)))).
Proof.
  unfold Snake_init. cbn [positions].
  replace (Z.to_nat (Z.max 1 (initial_length CONFIG)))
    with (S (Z.to_nat (initial_length CONFIG - 1))) by lia.
  cbn [seq map]. f_equal; [f_equal; lia|].
  rewrite <- seq_shift, map_map. apply map_ext. intros i. f_equal. lia.
Qed.

Lemma NoDup_map_injective {A B} (f : A -> B) (l : list A) :
  (forall a b, f a = f b -> a = b) -> NoDup l -> NoDup (map f l).
Proof.
  intros Hinj Hnd. induction Hnd as [|a l Ha Hnd IH]; [constructor|].
  cbn [map]. constructor; [|assumption].
  intros Hin. apply in_map_iff in Hin. destruct Hin as (b & Hb & Hin).
  apply Hinj in Hb. subst b. contradiction.
Qed.

(** X12: the fresh snake.  Whatever the configured length, a new snake has
    its head at the given place and its other cells in a row to the left,
    30 pixels apart, with one cell when the configured length is below 1;
    no cell occurs twice, it does not collide with itself, and it stands
    still. *)
Theorem fresh_snake_shape (CONFIG : Config) (x y : Z) :
  let s := Snake_init CONFIG x y in
  positions s
  = map (fun i => (x - 30 * Z.of_nat i, y))
        (seq 0 (Z.to_nat (Z.max 1 (initial_length CONFIG)))) /\
  NoDup (positions s) /\
  check_collision s [] = Ret false /\
  direction s = (0, 0) /\
  advance_snake s = Ret s.
Proof.
  intros s. subst s.
  assert (Hnd : NoDup (positions (Snake_init CONFIG x y))).
  { rewrite Snake_init_positions. apply NoDup_map_injective.
    - intros a b H. apply pair_equal_spec in H. lia.
    - apply seq_NoDup. }
  split; [apply Snake_init_positions|]. split; [exact Hnd|].
  split; [|split; [reflexivity | apply advance_snake_idle; reflexivity]].
  unfold check_collision.
  destruct (positions (Snake_init CONFIG x y)) as [|head body] eqn:E.
  - discriminate E.
  - cbn [existsb]. apply NoDup_cons_iff in Hnd. destruct Hnd as [Hh _].
    replace (existsb _ body) with false; [reflexivity|].
    symmetry. apply not_true_iff_false. intros H.
    apply existsb_exists in H. destruct H as (p & Hin & Hp).
    apply cell_eqb_eq in Hp. subst p. contradiction.
Qed.

(** X13: the first key.  On a fresh snake of three or more cells the left
    arrow is accepted, the direction being (0, 0) and not (1, 0); the move
    it leads to puts the head on the second body cell, so that the
    collision check fires whatever the walls are. *)
Theorem first_key_left_folds_the_snake
    (CONFIG : Config) (g : Game) (w : World) (x y : Z) :
  3 <= initial_length CONFIG ->
  state g = PLAYING ->
  snake g = Snake_init CONFIG x y ->
  exists g1 s',
    handle_event CONFIG (KEYDOWN K_LEFT) g w = Ret (g1, w) /\
    direction (snake g1) = (-1, 0) /\
    move (snake g1) = Ret s' /\
    forall ws, check_collision s' ws = Ret true.
Proof.
  intros Hlen Hst Hs.
  rewrite handle_event_cases, Hst. unfold keydown_playing. rewrite Hs.
  cbn [direction Snake_init cell_eqb fst snd Z.eqb andb negb].
  fold (Snake_init CONFIG x y).
  eexists; eexists. split; [reflexivity|].
  cbn [snake with_snake direction with_direction]. split; [reflexivity|].
  unfold move. cbn [positions direction length with_direction].
  pose proof (Snake_init_body_size CONFIG x y ltac:(lia)) as Hsize.
  unfold body_size in Hsize. cbn [length Snake_init] in Hsize.
  rewrite Snake_init_positions in *.
  replace (Z.to_nat (Z.max 1 (initial_length CONFIG)))
    with (S (S (S (Z.to_nat (initial_length CONFIG - 3))))) in * by lia.
  cbn [seq map] in *.
  set (tail := map _ (seq 3 _)) in *.
  cbn [Snake_init length].
  replace (_ >? initial_length CONFIG) with true.
  2:{ symmetry. apply Z.gtb_lt. cbn [List.length] in *. lia. }
  split; [reflexivity|]. intros ws.
  eapply check_collision_hit.
  - cbn [positions with_positions removelast]. reflexivity.
  - right. right. left. f_equal; lia.
Qed.

(** ** Collecting on the grid *)

Lemma colliderect_cells (a b : Cell) :
  colliderect (cell_rect a) (cell_rect b) = true <->
  Z.abs (fst a - fst b) < 30 /\ Z.abs (snd a - snd b) < 30.
Proof.
  rewrite colliderect_overlap by (cbn; lia).
  cbn [rx ry rw rh cell_rect]. lia.
Qed.

Lemma aligned_overlap (a b : Cell) :
  aligned a -> aligned b ->
  colliderect (cell_rect a) (cell_rect b) = cell_eqb b a.
Proof.
  intros [Hax Hay] [Hbx Hby].
  destruct (cell_eqb b a) eqn:E.
  - apply cell_eqb_eq in E. subst b. apply colliderect_cells. lia.
  - apply not_true_iff_false. intros H. apply colliderect_cells in H.
    apply cell_eqb_neq in E. apply E.
    destruct a as [ax ay], b as [bx by_]. cbn [fst snd] in *.
    apply Z.mod_divide in Hax, Hay, Hbx, Hby; try lia.
    destruct Hax as [i ->], Hay as [j ->], Hbx as [k ->], Hby as [l ->].
    f_equal; lia.
Qed.

Lemma filter_unique_position (head : Cell) (ts : list Target) :
  NoDup (map position ts) ->
  filter (fun t => cell_eqb (position t) head) ts = [] /\
  ~ In head (map position ts)
  \/
  exists t, filter (fun t => cell_eqb (position t) head) ts = [t] /\
            In t ts /\ position t = head.
Proof.
  induction ts as [|t ts IH]; intros Hnd.
  - left. split; [reflexivity | intros []].
  - cbn [map] in Hnd. apply NoDup_cons_iff in Hnd. destruct Hnd as [Ht Hnd].
    cbn [filter]. destruct (cell_eqb (position t) head) eqn:E.
    + apply cell_eqb_eq in E. right. exists t.
      split; [|split; [left; reflexivity | assumption]].
      f_equal. destruct (IH Hnd) as [[Hf _] | (t' & Hf & Hin & Hp)];
        [assumption|]. exfalso. apply Ht. rewrite E, <- Hp.
      apply in_map. assumption.
    + apply cell_eqb_neq in E.
      destruct (IH Hnd) as [[Hf Hn] | (t' & Hf & Hin & Hp)].
      * left. split; [assumption|]. cbn [map]. intros [H | H];
          [contradiction | contradiction].
      * right. exists t'. split; [assumption|].
        split; [right; assumption | assumption].
Qed.

Lemma overlapping_aligned (head : Cell) (ts : list Target) :
  aligned head ->
  Forall aligned (map position ts) ->
  overlapping head ts = filter (fun t => cell_eqb (position t) head) ts /\
  untouched head ts
  = filter (fun t => negb (cell_eqb (position t) head)) ts.
Proof.
  intros Hh Hts. unfold overlapping, untouched.
  split; apply filter_ext_in; intros t Hin;
    rewrite aligned_overlap; try reflexivity; try assumption;
    rewrite Forall_forall in Hts; apply Hts; apply in_map; assumption.
Qed.

(** X14: one target at a time.  When the head and the targets lie on the
    30-pixel grid and no two targets share a cell, a frame without
    collision either finds no target on the head's cell and changes
    nothing but the snake's move, or collects the one target on that cell:
    the score rises by that target's points, the snake grows once, and the
    target is replaced by one of its type at the end of the list. *)
Theorem one_target_per_frame
    (CONFIG : Config) (g : Game) (w : World) (s1 : Snake)
    (head : Cell) (body : list Cell) (g' : Game) (w' : World) :
  state g = PLAYING ->
  advance_snake (snake g) = Ret s1 ->
  positions s1 = head :: body ->
  check_collision s1 (walls CONFIG) = Ret false ->
  aligned head ->
  Forall aligned (map position (targets g)) ->
  targets_distinct g ->
  update CONFIG g w = Ret (g', w') ->
  (~ In head (map position (targets g)) /\
   g' = with_snake s1 g /\ w' = w)
  \/
  (exists t pos,
      In t (targets g) /\ position t = head /\
      score g' = score g + points_of CONFIG t /\
      snake g' = grow CONFIG s1 /\
      targets g'
      = filter (fun t => negb (cell_eqb (position t) head)) (targets g)
        ++ [{| position := pos; type := type t |}] /\
      spawnable CONFIG pos /\
      ~ In pos (positions s1)).
Proof.
  intros Hst Hadv Hp Hhit Hah Hat Hnd H.
  rewrite (update_without_collision CONFIG g w s1 head body Hst Hadv Hp Hhit)
    in H.
  destruct (overlapping_aligned head (targets g) Hah Hat) as [Hov Hun].
  assert (Hidx : forall k,
             overlap_indices head k (targets g) = []
             \/ exists i, overlap_indices head k (targets g) = [i]).
  { intros k. pose proof (overlap_indices_length head (targets g) k) as Hl.
    rewrite Hov in Hl. unfold targets_distinct in Hnd.
    destruct (filter_unique_position head (targets g) Hnd)
      as [[Hf _] | (t & Hf & _)]; rewrite Hf in Hl; cbn [List.length] in Hl.
    - left. destruct (overlap_indices head k (targets g));
        [reflexivity | discriminate].
    - right. destruct (overlap_indices head k (targets g)) as [|i [|j l]];
        try discriminate. exists i. reflexivity. }
  unfold targets_distinct in Hnd.
  destruct (filter_unique_position head (targets g) Hnd)
    as [[Hf Hn] | (t & Hf & Hin & Hpt)].
  - left. split; [assumption|]. rewrite Hov, Hf in H.
    pose proof (overlap_indices_length head (targets g) 0) as Hl.
    rewrite Hov, Hf in Hl. cbn [List.length] in Hl.
    destruct (overlap_indices head 0 (targets g)); [|discriminate].
    cbn [rev for_each List.length grows total_points map fold_right] in H.
    rewrite Z.add_0_r in H. inversion H; subst.
    split; [|reflexivity]. destruct g; reflexivity.
  - right.
    set (g0 := with_score _ _) in H.
    destruct (replace_loop_frame CONFIG _ g0 w g' w' H)
      as ((H1 & H2 & H3 & H4 & H5) & Hfile & _).
    destruct (replace_loop_keeps CONFIG head (targets g) [] [] g0 w g' w')
      as (news & Hts & Hty & Hsp & _).
    { subst g0. cbn [targets with_score with_snake app].
      now rewrite app_nil_r. }
    { exact H. }
    cbn [app] in Hts. rewrite Hov, Hf in Hty. cbn [map rev app] in Hty.
    destruct news as [|n [|n' news]]; try discriminate.
    cbn [map] in Hty, Hsp. inversion Hty as [Hn]. apply Forall_inv in Hsp.
    destruct (Hidx 0%nat) as [Hi | [i Hi]].
    { pose proof (overlap_indices_length head (targets g) 0) as Hl.
      rewrite Hov, Hf, Hi in Hl. discriminate. }
    rewrite Hi in H. cbn [rev app for_each] in H.
    unfold bind at 1 in H. first_step in H as g2 w2 E2.
    inversion H; subst g2 w2; clear H.
    destruct (replace_target_spec CONFIG i g0 w g' w' E2)
      as (t' & l1 & l2 & pos & _ & _ & Hfree & Hg' & _).
    apply is_free_spec in Hfree. destruct Hfree as [Hfs _].
    assert (Hpos : position n = pos).
    { rewrite Hg' in Hts. cbn [targets with_targets] in Hts.
      apply (f_equal (fun l => last l n)) in Hts.
      rewrite !last_last in Hts. now subst n. }
    exists t, (position n).
    split; [assumption|]. split; [assumption|].
    subst g0. cbn [score snake targets with_score with_snake
                   with_targets] in *.
    split.
    { rewrite H2, Hov, Hf. unfold total_points. cbn [map fold_right]. lia. }
    split.
    { rewrite H5, Hov, Hf. reflexivity. }
    split.
    { rewrite Hts, Hun. f_equal. destruct n as [pn tn].
      cbn [position type] in *. subst tn. reflexivity. }
    split; [assumption|].
    rewrite Hpos.
    pose proof (grows_positions CONFIG
                  (List.length (overlapping head (targets g))) s1)
      as (Hgp & _).
    rewrite Hgp in Hfs. exact Hfs.
Qed.

(** ** Speed after a number of targets *)

(** X15: the speed in closed form.  With a speed step that is no decrease
    and a speed that starts at or below the cap, [n] calls of [grow] raise
    the speed by one step for each call made past the threshold, cut off
    at the cap. *)
Theorem speed_after_grows (CONFIG : Config) (n : nat) : forall s,
  0 <= speed_increase_amount CONFIG ->
  speed s <= max_speed CONFIG ->
  speed (grows CONFIG n s)
  = Z.min (max_speed CONFIG)
          (speed s
           + speed_increase_amount CONFIG
             * Z.max 0 (Z.min (Z.of_nat n)
                              (targets_collected s + Z.of_nat n
                               - targets_before_speedup CONFIG))).
Proof.
  induction n as [|n IH]; intros s Hinc Hmax.
  - cbn [grows]. replace (Z.max 0 _) with 0 by lia. lia.
  - cbn [grows].
    pose proof (grow_speed CONFIG s Hinc Hmax) as [Hlo Hhi].
    rewrite (IH (grow CONFIG s) Hinc Hhi).
    unfold grow at 1 2. cbn [speed targets_collected].
    set (v := speed s) in *. set (c := targets_collected s).
    set (m := max_speed CONFIG) in *.
    set (i := speed_increase_amount CONFIG) in *.
    set (T := targets_before_speedup CONFIG).
    assert (Hn : 0 <= i * Z.of_nat n) by (apply Z.mul_nonneg_nonneg; lia).
    destruct (Z.gtb_spec (c + 1) T) as [Hgt | Hle].
    + replace (Z.max 0 (Z.min (Z.of_nat n) (c + 1 + Z.of_nat n - T)))
        with (Z.of_nat n) by lia.
      replace (Z.max 0 (Z.min (Z.of_nat (S n)) (c + Z.of_nat (S n) - T)))
        with (Z.of_nat n + 1) by lia.
      rewrite Z.mul_add_distr_l, Z.mul_1_r.
      destruct (Z.ltb_spec v m); cbn [andb]; lia.
    + cbn [andb].
      replace (c + 1 + Z.of_nat n - T) with (c + Z.of_nat (S n) - T) by lia.
      replace (Z.min (Z.of_nat (S n)) (c + Z.of_nat (S n) - T))
        with (Z.min (Z.of_nat n) (c + Z.of_nat (S n) - T)) by lia.
      reflexivity.
Qed.

(** ** Saving and loading the high score *)

(** X16: the round trip of the high score.  Whatever [highscore.txt] held,
    for a high score of at most 4300 digits, the limit that [str] and
    [int] have by default, a call of [_load_high_score] after
    [_save_high_score] gives the high score of the game back, the file
    holding its decimal text. *)
Theorem save_then_load (g : Game) (w : World) :
  Z.abs (high_score g) < 10 ^ max_str_digits ->
  (_save_high_score g ;;; _load_high_score) w
  = Ret (high_score g,
         {| draws := draws w;
            highscore_txt := Content (py_str (high_score g)) |}).
Proof.
  intros _.
  unfold bind at 1. unfold _save_high_score, write_highscore_txt.
  unfold _load_high_score, try_except, bind, read_highscore_txt, lift,
    int_of_text. cbn [highscore_txt]. rewrite py_int_py_str. reflexivity.
Qed.

(** ** What a whole run keeps *)

Section RunInvariant.

Variable CONFIG : Config.
Variable P : Game -> World -> Prop.

Hypothesis event_keeps : forall e g w g' w',
  P g w -> handle_event CONFIG e g w = Ret (g', w') -> P g' w'.
Hypothesis update_keeps : forall g w g' w',
  P g w -> update CONFIG g w = Ret (g', w') -> P g' w'.

Lemma handle_input_keeps (events : list Event) :
  forall g w r w',
    P g w -> handle_input CONFIG events g w = Ret (r, w') -> P (snd r) w'.
Proof.
  induction events as [|e events IH]; intros g w r w' HP H.
  - inversion H; subst. assumption.
  - destruct e as [|key|pos| |]; cbn [handle_input] in H;
      try (unfold bind at 1 in H;
           match type of H with
           | match ?m with _ => _ end = _ =>
               destruct m as [[g1 w1]| |] eqn:E
           end; try discriminate;
           eapply IH; [|exact H]; eapply event_keeps; eassumption).
    inversion H; subst. assumption.
Qed.

Lemma frame_keeps (events : list Event) (g : Game) (w : World)
    (r : bool * Game) (w' : World) :
  P g w -> frame CONFIG events g w = Ret (r, w') -> P (snd r) w'.
Proof.
  intros HP H. unfold frame in H. unfold bind at 1 in H.
  destruct (handle_input CONFIG events g w) as [[r1 w1]| |] eqn:E1;
    try discriminate.
  unfold bind at 1 in H.
  destruct (update CONFIG (snd r1) w1) as [[g2 w2]| |] eqn:E2;
    try discriminate.
  inversion H; subst. cbn [snd].
  eapply update_keeps; [|exact E2].
  eapply handle_input_keeps; eassumption.
Qed.

Lemma run_keeps (frames : list (list Event)) :
  forall g w g' w',
    P g w -> run CONFIG frames g w = Ret (g', w') -> P g' w'.
Proof.
  induction frames as [|events frames IH]; intros g w g' w' HP H.
  - inversion H; subst. assumption.
  - cbn [run] in H. unfold bind at 1 in H.
    destruct (frame CONFIG events g w) as [[r w1]| |] eqn:E;
      try discriminate.
    apply frame_keeps in E; [|assumption].
    destruct (fst r).
    + eapply IH; eassumption.
    + inversion H; subst. assumption.
Qed.

End RunInvariant.

(** *** The snake along a frame *)

Lemma grows_speed_positive (CONFIG : Config) (n : nat) : forall s,
  0 <= speed_increase_amount CONFIG ->
  0 < speed s -> 0 < speed (grows CONFIG n s).
Proof.
  induction n as [|n IH]; intros s Hinc Hs; [assumption|].
  cbn [grows]. apply IH; [assumption|].
  unfold grow. cbn [speed].
  destruct (_ && _) eqn:E; [|assumption].
  apply andb_true_iff in E. destruct E as [_ E]. apply Z.ltb_lt in E. lia.
Qed.

(** The snake after a frame update: untouched, or advanced and then grown
    some number of times. *)
Lemma update_snake (CONFIG : Config) (g : Game) (w : World)
    (g' : Game) (w' : World) :
  update CONFIG g w = Ret (g', w') ->
  snake g' = snake g \/
  exists s1 n,
    advance_snake (snake g) = Ret s1 /\ snake g' = grows CONFIG n s1.
Proof.
  intros H. unfold update in H.
  destruct (GameState_eqb (state g) PLAYING).
  2:{ inversion H; subst. left. reflexivity. }
  unfold bind at 1 in H. unfold lift at 1 in H.
  destruct (advance_snake (snake g)) as [s1| |] eqn:Ea; try discriminate.
  unfold bind at 1 in H. unfold lift at 1 in H.
  destruct (check_collision s1 (walls CONFIG)) as [hit| |]; try discriminate.
  right. exists s1. destruct hit.
  - exists 0%nat. split; [reflexivity|].
    destruct (score _ >? high_score _).
    + unfold bind, _save_high_score, write_highscore_txt, ret in H.
      inversion H; subst. reflexivity.
    + inversion H; subst. reflexivity.
  - destruct (positions s1) as [|head body] eqn:Hp; [discriminate|].
    unfold enumerate in H. rewrite collect_loop_spec in H.
    destruct (replace_loop_frame CONFIG _ _ w g' w' H)
      as ((_ & _ & _ & _ & H5) & _).
    eexists. split; [reflexivity|]. rewrite H5. reflexivity.
Qed.

(** The high score and its file after a frame update: both as before, or
    the high score raised and written. *)
Lemma update_high_score (CONFIG : Config) (g : Game) (w : World)
    (g' : Game) (w' : World) :
  update CONFIG g w = Ret (g', w') ->
  (high_score g' = high_score g /\ highscore_txt w' = highscore_txt w /\
   (state g' = GAME_OVER -> state g = PLAYING -> score g' <= high_score g'))
  \/
  (high_score g < high_score g' /\ state g' = GAME_OVER /\
   score g' = high_score g' /\
   highscore_txt w' = Content (py_str (high_score g'))).
Proof.
  intros H. unfold update in H.
  destruct (state g) eqn:Hst; cbn [GameState_eqb] in H;
    try (inversion H; subst; left; rewrite Hst;
         split; [reflexivity|]; split; [reflexivity|]; discriminate).
  unfold bind at 1 in H. unfold lift at 1 in H.
  destruct (advance_snake (snake g)) as [s1| |] eqn:Ea; try discriminate.
  unfold bind at 1 in H. unfold lift at 1 in H.
  destruct (check_collision s1 (walls CONFIG)) as [hit| |]; try discriminate.
  destruct hit.
  - cbn [score high_score with_state with_snake] in H.
    destruct (score g >? high_score g) eqn:E.
    + right. unfold bind, _save_high_score, write_highscore_txt, ret in H.
      inversion H; subst. apply Z.gtb_lt in E.
      cbn [score high_score state with_high_score with_state with_snake].
      repeat split. assumption.
    + left. inversion H; subst.
      cbn [score high_score state with_state with_snake].
      split; [reflexivity|]. split; [reflexivity|]. intros _ _.
      rewrite Z.gtb_ltb in E. apply Z.ltb_ge in E. assumption.
  - left. destruct (positions s1) as [|head body] eqn:Hp; [discriminate|].
    unfold enumerate in H. rewrite collect_loop_spec in H.
    destruct (replace_loop_frame CONFIG _ _ w g' w' H)
      as ((H1 & _ & H3 & _ & _) & Hf & _).
    cbn [state high_score with_score with_snake] in *.
    split; [assumption|]. split; [assumption|].
    intros Hg. rewrite H1, Hst in Hg. discriminate.
Qed.

Lemma load_high_score_by_file (w1 w2 : World) (n : Z) :
  highscore_txt w1 = highscore_txt w2 ->
  _load_high_score w1 = Ret (n, w1) ->
  _load_high_score w2 = Ret (n, w2).
Proof.
  unfold _load_high_score, try_except, bind, read_highscore_txt, lift,
    int_of_text, ret.
  intros <-. destruct (highscore_txt w1) as [| |text]; cbn [exn_eqb].
  - intros H; inversion H; subst. reflexivity.
  - discriminate.
  - destruct (py_int text); [|discriminate].
    intros H; inversion H; subst. reflexivity.
Qed.

Lemma load_high_score_world (w : World) (n : Z) (w' : World) :
  _load_high_score w = Ret (n, w') -> w' = w.
Proof.
  unfold _load_high_score, try_except, bind, read_highscore_txt, lift,
    int_of_text, ret.
  destruct (highscore_txt w) as [| |text]; cbn [exn_eqb].
  - intros H; inversion H; subst. reflexivity.
  - discriminate.
  - destruct (py_int text); [|discriminate].
    intros H; inversion H; subst. reflexivity.
Qed.

(** *** What the handling of an event can change *)

Lemma handle_event_summary (CONFIG : Config) (e : Event) (g : Game)
    (w : World) (g' : Game) (w' : World) :
  handle_event CONFIG e g w = Ret (g', w') ->
  high_score g' = high_score g /\
  highscore_txt w' = highscore_txt w /\
  (score g' = score g \/ score g' = 0) /\
  (state g' = GAME_OVER -> state g = GAME_OVER /\ score g' = score g) /\
  (snake g' = snake g \/
   snake g' = Snake_init CONFIG (window_width CONFIG * 3 / 4)
                                (window_height CONFIG / 2) \/
   exists key, state g = PLAYING /\ g' = keydown_playing key g).
Proof.
  intros H. rewrite handle_event_cases in H.
  destruct (state g) eqn:Hst; destruct e as [|key|pos| |];
    try (inversion H; subst; clear H;
         cbn [high_score score state snake with_is_hovered];
         rewrite ?Hst;
         repeat split; try (left; reflexivity); try discriminate;
         intros; assumption).
  - destruct (is_hovered g); inversion H; subst; clear H;
      cbn [high_score score state snake with_state]; rewrite ?Hst;
      repeat split; try (left; reflexivity); discriminate.
  - inversion H; subst; clear H.
    destruct (keydown_playing_fields key g) as (K1 & K2 & K3 & _).
    rewrite K1, K2, K3, Hst.
    repeat split; try (left; reflexivity); try discriminate.
    right. right. exists key. split; reflexivity.
  - destruct key;
      try (inversion H; subst; clear H; rewrite ?Hst;
           repeat split; try (left; reflexivity); intros; assumption).
    unfold bind, ret in H.
    destruct (reset_game CONFIG g w) as [[g1 w1]| |] eqn:E; try discriminate.
    inversion H; subst; clear H.
    destruct (reset_game_frame CONFIG g w g1 w' E) as (_ & Hh & _ & Hs & Hf).
    destruct (reset_game_spec CONFIG g w g1 w' E) as (_ & _ & _ & _ & _ & _ & Hsc).
    cbn [high_score score state snake with_state].
    split; [assumption|]. split; [assumption|].
    split; [right; assumption|]. split; [discriminate|].
    right. left. assumption.
Qed.

(** ** The high score over a run *)

(** X17: the high score and its file.  From the start of the program on,
    after every frame, loading [highscore.txt] would give the high score
    the game holds, and that high score is never below the one the
    program started with. *)
Theorem high_score_follows_file
    (CONFIG : Config) (w : World) (g0 : Game) (w0 : World)
    (frames : list (list Event)) (g' : Game) (w' : World) :
  Game_init CONFIG w = Ret (g0, w0) ->
  run CONFIG frames g0 w0 = Ret (g', w') ->
  _load_high_score w' = Ret (high_score g', w') /\
  high_score g0 <= high_score g'.
Proof.
  intros Hinit Hrun.
  apply (run_keeps CONFIG
           (fun g1 w1 => _load_high_score w1 = Ret (high_score g1, w1) /\
                         high_score g0 <= high_score g1))
    with (frames := frames) (g := g0) (w := w0); [| | |exact Hrun].
  - intros e g1 w1 g2 w2 [Hl Hle] He.
    destruct (handle_event_summary CONFIG e g1 w1 g2 w2 He)
      as (Hh & Hf & _).
    rewrite Hh. split; [|assumption].
    apply (load_high_score_by_file w1 w2); [congruence | assumption].
  - intros g1 w1 g2 w2 [Hl Hle] Hu.
    destruct (update_high_score CONFIG g1 w1 g2 w2 Hu)
      as [(Hh & Hf & _) | (Hlt & _ & _ & Hf)].
    + rewrite Hh. split; [|assumption].
      apply (load_high_score_by_file w1 w2); [congruence | assumption].
    + split; [|lia]. destruct w2 as [ds f]. cbn [highscore_txt] in Hf.
      subst f. apply load_after_save.
  - split; [|lia]. unfold Game_init in Hinit. unfold bind at 1 in Hinit.
    destruct (_load_high_score w) as [[hs w1]| |] eqn:El; try discriminate.
    pose proof (load_high_score_world w hs w1 El) as ->.
    destruct (reset_game_frame CONFIG _ w g0 w0 Hinit) as (_ & Hh & _ & _ & Hf).
    rewrite Hh. cbn [high_score].
    apply (load_high_score_by_file w w0); [congruence | assumption].
Qed.

Lemma total_points_nonneg (CONFIG : Config) (ts : list Target) :
  0 <= target_1_points CONFIG -> 0 <= target_2_points CONFIG ->
  0 <= total_points CONFIG ts.
Proof.
  intros H1 H2. unfold total_points.
  induction ts as [|t ts IH]; cbn [map fold_right]; [lia|].
  unfold points_of at 1. destruct (type t =? 0); lia.
Qed.

Lemma update_score (CONFIG : Config) (g : Game) (w : World)
    (g' : Game) (w' : World) :
  update CONFIG g w = Ret (g', w') ->
  (state g' = state g /\ score g' = score g /\ state g <> PLAYING) \/
  (state g = PLAYING /\ state g' = GAME_OVER /\ score g' = score g) \/
  (state g' = PLAYING /\
   exists ts, score g' = score g + total_points CONFIG ts).
Proof.
  intros H. unfold update in H.
  destruct (state g) eqn:Hst; cbn [GameState_eqb] in H;
    try (inversion H; subst; left; rewrite Hst;
         repeat split; discriminate).
  unfold bind at 1 in H. unfold lift at 1 in H.
  destruct (advance_snake (snake g)) as [s1| |] eqn:Ea; try discriminate.
  unfold bind at 1 in H. unfold lift at 1 in H.
  destruct (check_collision s1 (walls CONFIG)) as [hit| |]; try discriminate.
  destruct hit.
  - right. left. cbn [score high_score with_state with_snake] in H.
    destruct (score g >? high_score g).
    + unfold bind, _save_high_score, write_highscore_txt, ret in H.
      inversion H; subst. repeat split.
    + inversion H; subst. repeat split.
  - right. right.
    destruct (positions s1) as [|head body] eqn:Hp; [discriminate|].
    unfold enumerate in H. rewrite collect_loop_spec in H.
    destruct (replace_loop_frame CONFIG _ _ w g' w' H)
      as ((H1 & H2 & _) & _).
    cbn [state score with_score with_snake] in *.
    split; [congruence|]. eexists. exact H2.
Qed.

(** X18: the score over a run.  With target points that are not negative,
    from the start of the program on and after every frame the score is
    not negative, and in the GAME_OVER state the high score is at least
    the score. *)
Theorem score_bounds_over_a_run
    (CONFIG : Config) (w : World) (g0 : Game) (w0 : World)
    (frames : list (list Event)) (g' : Game) (w' : World) :
  0 <= target_1_points CONFIG ->
  0 <= target_2_points CONFIG ->
  Game_init CONFIG w = Ret (g0, w0) ->
  run CONFIG frames g0 w0 = Ret (g', w') ->
  0 <= score g' /\
  (state g' = GAME_OVER -> score g' <= high_score g').
Proof.
  intros Hp1 Hp2 Hinit Hrun.
  apply (run_keeps CONFIG
           (fun g1 (_ : World) =>
              0 <= score g1 /\
              (state g1 = GAME_OVER -> score g1 <= high_score g1)))
    with (frames := frames) (g := g0) (w := w0) (w' := w');
    [| | |exact Hrun].
  - intros e g1 w1 g2 w2 [Hs Hg] He.
    destruct (handle_event_summary CONFIG e g1 w1 g2 w2 He)
      as (Hh & _ & Hsc & Hgo & _).
    split; [destruct Hsc; lia|].
    intros Hst. destruct (Hgo Hst) as [Hst1 Hsame].
    specialize (Hg Hst1). lia.
  - intros g1 w1 g2 w2 [Hs Hg] Hu.
    destruct (update_score CONFIG g1 w1 g2 w2 Hu)
      as [(Est & Esc & Hnp) | [(Est & Est' & Esc) | (Est' & ts & Esc)]].
    + split; [lia|]. intros Hgo. rewrite Est in Hgo. specialize (Hg Hgo).
      destruct (update_high_score CONFIG g1 w1 g2 w2 Hu)
        as [(Hh & _) | (Hlt & _)]; lia.
    + split; [lia|]. intros _.
      destruct (update_high_score CONFIG g1 w1 g2 w2 Hu)
        as [(_ & _ & Hle) | (_ & _ & Heq & _)]; [apply Hle; assumption | lia].
    + split.
      * pose proof (total_points_nonneg CONFIG ts Hp1 Hp2). lia.
      * intros Hgo. rewrite Est' in Hgo. discriminate.
  - unfold Game_init in Hinit. unfold bind at 1 in Hinit.
    destruct (_load_high_score w) as [[hs w1]| |]; try discriminate.
    destruct (reset_game_frame CONFIG _ w1 g0 w0 Hinit) as (Hst & _).
    destruct (reset_game_spec CONFIG _ w1 g0 w0 Hinit)
      as (_ & _ & _ & _ & _ & _ & Hsc).
    split; [lia|]. rewrite Hst. cbn [state]. discriminate.
Qed.

(** ** The direction the snake is drawn in *)

Lemma keydown_playing_oriented (key : Key) (g : Game) :
  snake_oriented (snake g) -> snake_oriented (snake (keydown_playing key g)).
Proof.
  intros Ho. unfold keydown_playing.
  destruct key;
    repeat match goal with
           | |- context [if ?b then _ else _] => destruct b
           end;
    try assumption;
    cbn [snake with_snake]; unfold snake_oriented, unit_vector;
    cbn [facing direction with_direction]; split; auto.
Qed.

(** X19: the angle of the snake.  From the start of the program on, after
    every frame, the facing of the snake is one of the four arrow
    directions and its direction is (0, 0) or its facing; so the angle the
    snake is drawn with is the angle of its facing, and the closing
    [return 180] of [_get_rotation_angle] is never what decides it. *)
Theorem snake_is_drawn_along_its_facing
    (CONFIG : Config) (w : World) (g0 : Game) (w0 : World)
    (frames : list (list Event)) (g' : Game) (w' : World) :
  Game_init CONFIG w = Ret (g0, w0) ->
  run CONFIG frames g0 w0 = Ret (g', w') ->
  snake_oriented (snake g') /\
  _get_rotation_angle (snake g') (direction (snake g'))
  = _get_rotation_angle (snake g') (facing (snake g')) /\
  (facing (snake g') = (1, 0) /\
   _get_rotation_angle (snake g') (direction (snake g')) = 0
   \/ facing (snake g') = (-1, 0) /\
      _get_rotation_angle (snake g') (direction (snake g')) = 180
   \/ facing (snake g') = (0, -1) /\
      _get_rotation_angle (snake g') (direction (snake g')) = 90
   \/ facing (snake g') = (0, 1) /\
      _get_rotation_angle (snake g') (direction (snake g')) = -90).
Proof.
  intros Hinit Hrun.
  assert (Ho : snake_oriented (snake g')).
  { apply (run_keeps CONFIG (fun g1 (_ : World) => snake_oriented (snake g1)))
      with (frames := frames) (g := g0) (w := w0) (w' := w');
      [| | |exact Hrun].
    - intros e g1 w1 g2 w2 Ho He.
      destruct (handle_event_summary CONFIG e g1 w1 g2 w2 He)
        as (_ & _ & _ & _ & [Hs | [Hs | (key & _ & ->)]]).
      + rewrite Hs. assumption.
      + rewrite Hs. unfold snake_oriented, unit_vector. cbn. auto.
      + apply keydown_playing_oriented. assumption.
    - intros g1 w1 g2 w2 Ho Hu.
      destruct (update_snake CONFIG g1 w1 g2 w2 Hu)
        as [Hs | (s1 & n & Ha & Hs)]; rewrite Hs; [assumption|].
      destruct (advance_snake_fields _ _ Ha) as (Hd & Hf & _).
      destruct (grows_positions CONFIG n s1) as (_ & Hd' & Hf' & _).
      unfold snake_oriented in *. rewrite Hd', Hf', Hd, Hf. assumption.
    - unfold Game_init in Hinit. unfold bind at 1 in Hinit.
      destruct (_load_high_score w) as [[hs w1]| |]; try discriminate.
      destruct (reset_game_frame CONFIG _ w1 g0 w0 Hinit)
        as (_ & _ & _ & Hs & _).
      rewrite Hs. unfold snake_oriented, unit_vector. cbn. auto. }
  split; [exact Ho|].
  destruct Ho as [Hu Hd].
  assert (Heq : _get_rotation_angle (snake g') (direction (snake g'))
                = _get_rotation_angle (snake g') (facing (snake g'))).
  { destruct Hd as [Hd | Hd]; rewrite Hd; [|reflexivity].
    unfold _get_rotation_angle. cbn [cell_eqb fst snd Z.eqb andb].
    destruct Hu as [Hu | [Hu | [Hu | Hu]]]; rewrite Hu; reflexivity. }
  split; [exact Heq|]. rewrite Heq. unfold _get_rotation_angle.
  destruct Hu as [Hu | [Hu | [Hu | Hu]]]; rewrite Hu; cbn; auto 10.
Qed.

(** ** What the game logic never raises *)

Section NeverRaises.

Variable CONFIG : Config.
Hypothesis columns_pos : 0 < spawn_columns CONFIG.
Hypothesis rows_pos : 0 < spawn_rows CONFIG.

Lemma spawn_loop_never_raises (fuel : nat) : forall g w e,
  spawn_loop CONFIG fuel g w <> Raise e.
Proof.
  induction fuel as [|fuel IH]; intros g w e; [discriminate|].
  destruct w as [ds f].
  cbn [spawn_loop]. unfold bind at 1. unfold randrange at 1.
  fold (spawn_columns CONFIG).
  replace (spawn_columns CONFIG <=? 0) with false
    by (symmetry; apply Z.leb_gt; assumption).
  cbn [draws highscore_txt]. destruct ds as [|a ds]; [discriminate|].
  unfold bind at 1. unfold randrange at 1. fold (spawn_rows CONFIG).
  replace (spawn_rows CONFIG <=? 0) with false
    by (symmetry; apply Z.leb_gt; assumption).
  cbn [draws highscore_txt]. destruct ds as [|b ds]; [discriminate|].
  destruct (is_free g _); [discriminate | apply IH].
Qed.

Lemma spawn_append_never_raises (ty : Z) (g : Game) (w : World) (e : exn) :
  (pos <- _spawn_target CONFIG g ;;
   ret (with_targets (targets g ++ [{| position := pos; type := ty |}]) g)) w
  <> Raise e.
Proof.
  unfold bind, ret.
  destruct (_spawn_target CONFIG g w) as [[pos w1]| |] eqn:E;
    try discriminate.
  exfalso. apply (spawn_loop_never_raises _ g w e0 E).
Qed.

Lemma for_each_never_raises {A S} (Q : S -> Prop) (body : A -> S -> M S)
    (xs : list A) :
  (forall x s w, In x xs -> Q s ->
                 (forall e, body x s w <> Raise e) /\
                 (forall s' w', body x s w = Ret (s', w') -> Q s')) ->
  forall s w e, Q s -> for_each xs body s w <> Raise e.
Proof.
  induction xs as [|x xs IH]; intros Hbody s w e HQ; [discriminate|].
  cbn [for_each]. unfold bind.
  destruct (Hbody x s w (or_introl eq_refl) HQ) as [Hnr Hq].
  destruct (body x s w) as [[s1 w1]| |] eqn:E.
  - apply IH; [|apply (Hq s1 w1 eq_refl)].
    intros y s2 w2 Hy. apply Hbody. right; assumption.
  - exfalso. apply (Hnr e0). reflexivity.
  - discriminate.
Qed.

Lemma reset_game_never_raises (g : Game) (w : World) (e : exn) :
  reset_game CONFIG g w <> Raise e.
Proof.
  unfold reset_game, bind, ret.
  match goal with
  | |- match ?m with _ => _ end <> _ => destruct m as [[g1 w1]| |] eqn:E
  end; try discriminate.
  exfalso. revert E. unfold _spawn_multiple_targets.
  apply (for_each_never_raises (fun _ => True)); [|exact I].
  intros ty g2 w2 _ _. split; [|trivial]. intros e1.
  apply (for_each_never_raises (fun _ => True)); [|exact I].
  intros x g3 w3 _ _. split; [|trivial]. intros e2.
  apply spawn_append_never_raises.
Qed.

Lemma handle_event_never_raises (ev : Event) (g : Game) (w : World)
    (e : exn) :
  handle_event CONFIG ev g w <> Raise e.
Proof.
  rewrite handle_event_cases.
  destruct (state g); destruct ev as [|key|pos| |]; try discriminate.
  destruct key; try discriminate.
  unfold bind, ret.
  destruct (reset_game CONFIG g w) as [[g1 w1]| |] eqn:E; try discriminate.
  exfalso. apply (reset_game_never_raises g w e0 E).
Qed.

Lemma overlap_indices_bound (head : Cell) (ts : list Target) :
  forall k i, In i (overlap_indices head k ts) ->
              (k <= i < k + List.length ts)%nat.
Proof.
  induction ts as [|t ts IH]; intros k i Hi; [destruct Hi|].
  cbn [overlap_indices List.length] in *.
  destruct (colliderect _ _).
  - destruct Hi as [<- | Hi]; [lia|]. specialize (IH _ _ Hi). lia.
  - specialize (IH _ _ Hi). lia.
Qed.

Lemma replace_target_never_raises (i : nat) (g : Game) (w : World) :
  (i < List.length (targets g))%nat ->
  forall e, replace_target CONFIG i g w <> Raise e.
Proof.
  intros Hi e. unfold replace_target.
  destruct (nth_error (targets g) i) as [t|] eqn:E.
  - apply spawn_append_never_raises.
  - apply nth_error_None in E. lia.
Qed.

Lemma update_never_raises (g : Game) (w : World) (e : exn) :
  snake_sound (snake g) -> update CONFIG g w <> Raise e.
Proof.
  intros [Hp Hs]. unfold update.
  destruct (GameState_eqb (state g) PLAYING); [|discriminate].
  unfold bind at 1. unfold lift at 1.
  destruct (advance_snake_returns (snake g)) as [s1 Ha];
    [lia | assumption |].
  rewrite Ha. destruct (advance_snake_fields _ _ Ha) as (_ & _ & _ & _ & Hp1).
  specialize (Hp1 Hp).
  unfold bind at 1. unfold lift at 1. unfold check_collision.
  destruct (positions s1) as [|head body] eqn:Ep; [congruence|].
  destruct (existsb _ (walls CONFIG)).
  - destruct (score _ >? high_score _); discriminate.
  - destruct (existsb _ body).
    + destruct (score _ >? high_score _); discriminate.
    + unfold enumerate. rewrite collect_loop_spec.
      apply (for_each_never_raises
               (fun g1 => List.length (targets g1) = List.length (targets g))).
      * intros i g1 w1 Hi Hl. split.
        -- apply replace_target_never_raises.
           apply in_rev in Hi. apply overlap_indices_bound in Hi. lia.
        -- intros g2 w2 Hr.
           destruct (replace_target_frame CONFIG i g1 w1 g2 w2 Hr)
             as (_ & _ & Hl'). congruence.
      * reflexivity.
Qed.

End NeverRaises.

Lemma snake_sound_kept_by_event (CONFIG : Config) (e : Event) (g : Game)
    (w : World) (g' : Game) (w' : World) :
  0 < initial_speed CONFIG ->
  snake_sound (snake g) ->
  handle_event CONFIG e g w = Ret (g', w') ->
  snake_sound (snake g').
Proof.
  intros Hi Hs He.
  destruct (handle_event_summary CONFIG e g w g' w' He)
    as (_ & _ & _ & _ & [H | [H | (key & _ & ->)]]).
  - rewrite H. assumption.
  - rewrite H. unfold snake_sound. cbn [positions speed Snake_init].
    split; [discriminate | assumption].
  - destruct (keydown_playing_fields key g) as (_ & _ & _ & _ & _ & Hp & Hv).
    unfold snake_sound. rewrite Hp, Hv. assumption.
Qed.

Lemma snake_sound_kept_by_update (CONFIG : Config) (g : Game) (w : World)
    (g' : Game) (w' : World) :
  0 <= speed_increase_amount CONFIG ->
  snake_sound (snake g) ->
  update CONFIG g w = Ret (g', w') ->
  snake_sound (snake g').
Proof.
  intros Hinc [Hp Hs] Hu.
  destruct (update_snake CONFIG g w g' w' Hu) as [H | (s1 & n & Ha & H)];
    rewrite H; [split; assumption|].
  destruct (advance_snake_fields _ _ Ha) as (_ & _ & Hv & _ & Hp1).
  destruct (grows_positions CONFIG n s1) as (Hgp & _).
  split; [rewrite Hgp; apply Hp1; assumption|].
  apply grows_speed_positive; [assumption | lia].
Qed.

(** What the event loop, the frame update and the frames of a run keep of
    a snake with a cell and a positive speed, and that they raise
    nothing. *)
Lemma handle_input_keeps_snake_sound (CONFIG : Config) :
  playable CONFIG ->
  forall evs g w,
    snake_sound (snake g) ->
    (forall e, handle_input CONFIG evs g w <> Raise e) /\
    (forall r w', handle_input CONFIG evs g w = Ret (r, w') ->
                  snake_sound (snake (snd r))).
Proof.
  intros (Hspeed & Hinc & Hx & Hy).
  induction evs as [|ev evs IHe]; intros g w Hs.
  - split; [discriminate|]. intros r w' H. inversion H; subst. assumption.
  - assert (Hquit : ev = QUIT \/ ev <> QUIT)
      by (destruct ev; (left; reflexivity) || (right; discriminate)).
    destruct Hquit as [-> | Hq].
    + cbn [handle_input]. split; [discriminate|].
      intros r w' H. inversion H; subst. assumption.
    + assert (Hstep : handle_input CONFIG (ev :: evs) g w
                      = (g1 <- handle_event CONFIG ev g ;;
                         handle_input CONFIG evs g1) w)
        by (destruct ev; [congruence|..]; reflexivity).
      rewrite Hstep. unfold bind.
      pose proof (handle_event_never_raises CONFIG Hx Hy ev g w) as Hnr.
      destruct (handle_event CONFIG ev g w) as [[g1 w1]| |] eqn:E.
      * apply IHe.
        apply (snake_sound_kept_by_event CONFIG ev g w g1 w1 Hspeed Hs E).
      * exfalso. apply (Hnr e). reflexivity.
      * split; discriminate.
Qed.

Lemma run_keeps_snake_sound (CONFIG : Config) (frames : list (list Event)) :
  playable CONFIG ->
  forall g w,
    snake_sound (snake g) ->
    (forall e, run CONFIG frames g w <> Raise e) /\
    (forall g' w', run CONFIG frames g w = Ret (g', w') ->
                   snake_sound (snake g')).
Proof.
  intros Hplay. pose proof Hplay as (Hspeed & Hinc & Hx & Hy).
  induction frames as [|events frames IH]; intros g w Hs.
  { split; [discriminate|]. intros g' w' H. inversion H; subst.
    assumption. }
  cbn [run]. unfold bind at 1 2. unfold frame. unfold bind at 1 3.
  destruct (handle_input_keeps_snake_sound CONFIG Hplay events g w Hs)
    as [Hnr Hk].
  destruct (handle_input CONFIG events g w) as [[r w1]| |] eqn:E1;
    [|exfalso; apply (Hnr e); reflexivity | split; discriminate].
  specialize (Hk r w1 eq_refl).
  unfold bind at 1 2.
  pose proof (fun e => update_never_raises CONFIG Hx Hy (snd r) w1 e Hk)
    as Hur.
  destruct (update CONFIG (snd r) w1) as [[g2 w2]| |] eqn:E2;
    [|exfalso; apply (Hur e); reflexivity | split; discriminate].
  pose proof (snake_sound_kept_by_update CONFIG (snd r) w1 g2 w2 Hinc Hk E2)
    as Hs2.
  unfold ret. cbn [fst snd].
  destruct (fst r); [apply IH; assumption|].
  split; [discriminate|]. intros g' w' H. inversion H; subst. assumption.
Qed.

(** X20: what the game logic never raises.  Under a playable configuration
    (a positive initial speed, a speed step that is no decrease, a
    non-empty range for the spawner) the game the program starts with has
    a snake with a cell and a positive speed, and every game that a run
    reaches from such a game has one too.  On such a game [handle_input]
    and [update] raise neither an [IndexError] (from [positions[0]],
    [self.targets[i]] and [pop(i)]) nor a [ZeroDivisionError] (from
    [60 // speed]), and they return a game of that kind; and the spawner
    raises nothing, its [randrange] calls having a range to choose from.
    The sound calls, the drawing and the loading of images are not part of
    this. *)
Theorem game_logic_stays_defined
    (CONFIG : Config) (g : Game) (w : World)
    (frames : list (list Event)) (events : list Event) :
  playable CONFIG ->
  (forall w0 g0 w1,
      Game_init CONFIG w0 = Ret (g0, w1) -> snake_sound (snake g0)) /\
  (snake_sound (snake g) ->
   (forall g' w', run CONFIG frames g w = Ret (g', w') ->
                  snake_sound (snake g')) /\
   handle_input CONFIG events g w <> Raise IndexError /\
   handle_input CONFIG events g w <> Raise ZeroDivisionError /\
   (forall r w', handle_input CONFIG events g w = Ret (r, w') ->
                 snake_sound (snake (snd r))) /\
   update CONFIG g w <> Raise IndexError /\
   update CONFIG g w <> Raise ZeroDivisionError /\
   (forall g' w', update CONFIG g w = Ret (g', w') ->
                  snake_sound (snake g'))) /\
  (forall e, _spawn_target CONFIG g w <> Raise e).
Proof.
  intros Hplay. pose proof Hplay as (Hspeed & Hinc & Hx & Hy).
  split; [|split].
  - intros w0 g0 w1 Hinit. unfold Game_init in Hinit.
    unfold bind at 1 in Hinit.
    destruct (_load_high_score w0) as [[hs w2]| |]; try discriminate.
    destruct (reset_game_frame CONFIG _ w2 g0 w1 Hinit)
      as (_ & _ & _ & Hs & _).
    rewrite Hs. split; [discriminate | assumption].
  - intros Hs.
    destruct (run_keeps_snake_sound CONFIG frames Hplay g w Hs) as [_ Hk].
    destruct (handle_input_keeps_snake_sound CONFIG Hplay events g w Hs)
      as [Hnr Hki].
    split; [exact Hk|]. split; [apply Hnr|]. split; [apply Hnr|].
    split; [exact Hki|].
    split; [apply update_never_raises; assumption|].
    split; [apply update_never_raises; assumption|].
    intros g' w' Hu.
    apply (snake_sound_kept_by_update CONFIG g w g' w' Hinc Hs Hu).
  - intros e. apply spawn_loop_never_raises; assumption.
Qed.

(** ** The start of the program *)

(** X21: the game the program starts with.  When [Game.__init__] returns,
    the game is in MENU with the score at 0 and the start button not
    hovered, the snake is fresh with its head at three quarters of the
    width and half the height, there are three targets of each type on
    different cells off the snake, the high score is 0 if [highscore.txt]
    is absent and the integer that [int] reads in its text otherwise, and
    the file is as it was.  This is for files whose integer literal has at
    most 4300 digits, the limit that [int] has by default. *)
Theorem game_starts_in_menu
    (CONFIG : Config) (w : World) (g0 : Game) (w0 : World) :
  within_max_str_digits (highscore_txt w) ->
  Game_init CONFIG w = Ret (g0, w0) ->
  state g0 = MENU /\ score g0 = 0 /\ is_hovered g0 = false /\
  snake g0 = Snake_init CONFIG (window_width CONFIG * 3 / 4)
                               (window_height CONFIG / 2) /\
  targets_at_rest g0 /\ targets_off_snake g0 /\
  highscore_txt w0 = highscore_txt w /\
  match highscore_txt w with
  | Absent => high_score g0 = 0
  | Undecodable => False
  | Content text => py_int text = Some (high_score g0)
  end.
Proof.
  intros _ Hinit. unfold Game_init in Hinit. unfold bind at 1 in Hinit.
  destruct (_load_high_score w) as [[hs w1]| |] eqn:El; try discriminate.
  pose proof (load_high_score_world w hs w1 El) as ->.
  destruct (reset_game_frame CONFIG _ w g0 w0 Hinit)
    as (Hst & Hh & Hhov & Hs & Hf).
  destruct (reset_game_spec CONFIG _ w g0 w0 Hinit)
    as (H0 & H1 & _ & _ & Hd & Ho & Hsc).
  cbn [state high_score is_hovered] in *.
  split; [assumption|]. split; [assumption|]. split; [assumption|].
  split; [assumption|]. split; [repeat split; assumption|].
  split; [assumption|]. split; [assumption|].
  rewrite Hh. revert El.
  unfold _load_high_score, try_except, bind, read_highscore_txt, lift,
    int_of_text, ret.
  destruct (highscore_txt w) as [| |text]; cbn [exn_eqb].
  - intros H; inversion H; subst. reflexivity.
  - discriminate.
  - destruct (py_int text); [|discriminate].
    intros H; inversion H; subst. reflexivity.
Qed.

(** X22: a window too narrow.  When the window is at most 90 pixels wide the
    range of [randrange(30, width - 60, 30)] is empty: the spawner raises
    [ValueError] before any draw is made, and so do [reset_game] and, with
    no high-score file in the way, the start of the program. *)
Theorem narrow_window_cannot_start
    (CONFIG : Config) (g : Game) (w : World) :
  window_width CONFIG <= 90 ->
  _spawn_target CONFIG g w = Raise ValueError /\
  reset_game CONFIG g w = Raise ValueError /\
  (highscore_txt w = Absent -> Game_init CONFIG w = Raise ValueError).
Proof.
  intros HW.
  assert (Hn : ((window_width CONFIG - 60 - 30 + 30 - 1) / 30 <=? 0) = true).
  { apply Z.leb_le.
    assert ((window_width CONFIG - 60 - 30 + 30 - 1) / 30 < 1); [|lia].
    apply Z.div_lt_upper_bound; lia. }
  assert (Hsp : forall g1 w1, _spawn_target CONFIG g1 w1 = Raise ValueError).
  { intros g1 w1. unfold _spawn_target. cbn [spawn_loop].
    unfold bind at 1. unfold randrange at 1. rewrite Hn. reflexivity. }
  assert (Hr : forall g1 w1, reset_game CONFIG g1 w1 = Raise ValueError).
  { intros g1 w1. unfold reset_game, _spawn_multiple_targets.
    cbn [for_each seq]. unfold bind. rewrite Hsp. reflexivity. }
  split; [apply Hsp|]. split; [apply Hr|].
  intros Hf. unfold Game_init. unfold bind at 1.
  unfold _load_high_score, try_except, bind, read_highscore_txt.
  rewrite Hf. cbn [exn_eqb]. unfold ret. apply Hr.
Qed.

(** ** The grid over a run *)

Lemma aligned_shift (c : Cell) (dx dy : Z) :
  aligned c -> aligned (fst c + dx * 30, snd c + dy * 30).
Proof.
  intros [Hx Hy]. unfold aligned. cbn [fst snd].
  rewrite !Z.mod_add by lia. split; assumption.
Qed.

Lemma spawnable_aligned (CONFIG : Config) (c : Cell) :
  spawnable CONFIG c -> aligned c.
Proof. intros [[_ Hx] [_ Hy]]. split; assumption. Qed.

Lemma Forall_removelast {A} (Q : A -> Prop) (l : list A) :
  Forall Q l -> Forall Q (removelast l).
Proof.
  intros H. rewrite Forall_forall in *. intros x Hx. apply H.
  clear H. induction l as [|a [|b l] IH]; cbn [removelast] in *;
    [destruct Hx | destruct Hx |].
  destruct Hx as [-> | Hx]; [left; reflexivity | right; apply IH; assumption].
Qed.

Lemma advance_snake_aligned (s s' : Snake) :
  Forall aligned (positions s) ->
  advance_snake s = Ret s' ->
  Forall aligned (positions s').
Proof.
  intros Ha. unfold advance_snake. destruct (negb _).
  2:{ intros H; inversion H; subst. assumption. }
  cbn [speed move_timer with_move_timer].
  destruct (speed s =? 0); [discriminate|].
  destruct (_ >=? _).
  - rewrite move_with_move_timer. unfold move.
    destruct (positions s) as [|[x y] ps] eqn:Ep; [discriminate|].
    destruct (direction s) as [dx dy]. cbn [obind].
    assert (Hall : Forall aligned ((x + dx * 30, y + dy * 30) :: (x, y) :: ps)).
    { constructor; [|assumption].
      apply (aligned_shift (x, y) dx dy). apply (Forall_inv Ha). }
    intros H. injection H as <-.
    cbn [positions with_move_timer with_positions].
    destruct (_ >? _);
      [exact (Forall_removelast aligned _ Hall) | exact Hall].
  - intros H; inversion H; subst. assumption.
Qed.

(** X23: the grid.  When the start place of the snake, three quarters of the
    width and half the height, lies on the 30-pixel grid, then from the
    start of the program on and after every frame every cell of the snake
    and every target lies on that grid; so a target is collected exactly
    when the head is on its cell. *)
Theorem grid_is_kept_over_a_run
    (CONFIG : Config) (w : World) (g0 : Game) (w0 : World)
    (frames : list (list Event)) (g' : Game) (w' : World) :
  (window_width CONFIG * 3 / 4) mod 30 = 0 ->
  (window_height CONFIG / 2) mod 30 = 0 ->
  Game_init CONFIG w = Ret (g0, w0) ->
  run CONFIG frames g0 w0 = Ret (g', w') ->
  Forall aligned (positions (snake g')) /\
  Forall aligned (map position (targets g')) /\
  forall head body,
    positions (snake g') = head :: body ->
    overlapping head (targets g')
    = filter (fun t => cell_eqb (position t) head) (targets g').
Proof.
  intros Hx Hy Hinit Hrun.
  assert (Hfresh : forall g1 w1 g2 w2,
             reset_game CONFIG g1 w1 = Ret (g2, w2) ->
             Forall aligned (positions (snake g2)) /\
             Forall aligned (map position (targets g2))).
  { intros g1 w1 g2 w2 Hr.
    destruct (reset_game_frame CONFIG g1 w1 g2 w2 Hr) as (_ & _ & _ & Hs & _).
    destruct (reset_game_spec CONFIG g1 w1 g2 w2 Hr) as (_ & _ & _ & Hsp & _).
    split.
    - rewrite Hs, Snake_init_positions. apply Forall_forall.
      intros c Hc. apply in_map_iff in Hc. destruct Hc as (i & <- & _).
      unfold aligned. cbn [fst snd]. split; [|assumption].
      replace (window_width CONFIG * 3 / 4 - 30 * Z.of_nat i)
        with (window_width CONFIG * 3 / 4 + (- Z.of_nat i) * 30) by lia.
      rewrite Z.mod_add by lia. assumption.
    - eapply Forall_impl; [|exact Hsp]. apply spawnable_aligned. }
  assert (Hinv : Forall aligned (positions (snake g')) /\
                 Forall aligned (map position (targets g'))).
  { apply (run_keeps CONFIG
             (fun g1 (_ : World) =>
                Forall aligned (positions (snake g1)) /\
                Forall aligned (map position (targets g1))))
      with (frames := frames) (g := g0) (w := w0) (w' := w');
      [| | |exact Hrun].
    - intros e g1 w1 g2 w2 [Hs Ht] He.
      rewrite handle_event_cases in He.
      destruct (state g1); destruct e as [|key|pos| |];
        try (inversion He; subst; split; assumption).
      + destruct (is_hovered g1); inversion He; subst; split; assumption.
      + inversion He; subst.
        destruct (keydown_playing_fields key g1)
          as (_ & _ & _ & _ & Hts & Hp & _).
        rewrite Hts, Hp. split; assumption.
      + destruct key; try (inversion He; subst; split; assumption).
        unfold bind, ret in He.
        destruct (reset_game CONFIG g1 w1) as [[g3 w3]| |] eqn:Er;
          try discriminate.
        inversion He; subst. apply (Hfresh g1 w1 g3 w2 Er).
    - intros g1 w1 g2 w2 [Hs Ht] Hu. split.
      + destruct (update_snake CONFIG g1 w1 g2 w2 Hu)
          as [H | (s1 & n & Ha & H)]; rewrite H; [assumption|].
        destruct (grows_positions CONFIG n s1) as (-> & _).
        apply (advance_snake_aligned _ _ Hs Ha).
      + revert Ht.
        apply (update_targets_invariant CONFIG
                 (fun ts => Forall aligned (map position ts)))
          with (g := g1) (w := w1) (w' := w2); [|exact Hu].
        intros i g3 w3 g4 w4 Hal Hr.
        destruct (replace_target_spec CONFIG i g3 w3 g4 w4 Hr)
          as (t & l1 & l2 & pos & Hl & Hsp & _ & -> & _).
        cbn [targets with_targets]. rewrite Hl in Hal.
        rewrite !map_app in *. cbn [map position] in *.
        apply Forall_app in Hal. destruct Hal as [Hl1 Hl2].
        apply Forall_inv_tail in Hl2.
        repeat (apply Forall_app; split); try assumption.
        constructor; [apply (spawnable_aligned CONFIG); assumption
                     | constructor].
    - unfold Game_init in Hinit. unfold bind at 1 in Hinit.
      destruct (_load_high_score w) as [[hs w1]| |]; try discriminate.
      apply (Hfresh _ w1 g0 w0 Hinit). }
  destruct Hinv as [Hs Ht]. split; [assumption|]. split; [assumption|].
  intros head body Hp. rewrite Hp in Hs.
  apply (overlapping_aligned head (targets g') (Forall_inv Hs) Ht).
Qed.

(** ** The further properties at work on the example games *)

Lemma update_collects_witness :
  exists g' w',
    update example_config (example_game PLAYING (0, -1)) example_world
    = Ret (g', w') /\
    state g' = PLAYING /\
    snake g'
    = grows example_config
        (List.length (overlapping (600, 270) example_targets)) risen_snake /\
    score g'
    = 500 + total_points example_config
              (overlapping (600, 270) example_targets) /\
    high_score g' = 300 /\
    highscore_txt w' = Content (ascii_text "300") /\
    exists news,
      targets g' = untouched (600, 270) example_targets ++ news /\
      map type news
      = rev (map type (overlapping (600, 270) example_targets)) /\
      Forall (spawnable example_config) (map position news).
Proof.
  eexists. eexists. split; [vm_compute; reflexivity|].
  apply (update_collects example_config (example_game PLAYING (0, -1))
           example_world risen_snake (600, 270) [(600, 300); (570, 300)]);
    reflexivity.
Defined.

Lemma state_machine_steps_witness :
  let g := with_is_hovered true (example_game MENU (0, 0)) in
  exists g',
    handle_event example_config MOUSEBUTTONDOWN g example_world
    = Ret (g', example_world) /\
    state g' = PLAYING /\
    input_step (state g) (state g') = true.
Proof.
  eexists. split; [reflexivity|]. split; [reflexivity|].
  apply (proj1 (state_machine_steps example_config MOUSEBUTTONDOWN
                  (with_is_hovered true (example_game MENU (0, 0)))
                  example_world _ example_world)).
  reflexivity.
Defined.

Lemma start_needs_hovered_click_witness :
  let g := example_game MENU (0, 0) in
  exists g',
    handle_event example_config MOUSEBUTTONDOWN g example_world
    = Ret (g', example_world) /\
    (state g' = PLAYING <->
     MOUSEBUTTONDOWN = MOUSEBUTTONDOWN /\ is_hovered g = true) /\
    (forall pos, MOUSEBUTTONDOWN = MOUSEMOTION pos ->
                 is_hovered g'
                 = collidepoint (start_button_rect example_config) pos) /\
    snake g' = snake g /\ targets g' = targets g /\ score g' = score g /\
    high_score g' = high_score g /\ example_world = example_world.
Proof.
  eexists. split; [reflexivity|].
  apply (start_needs_hovered_click example_config MOUSEBUTTONDOWN
           (example_game MENU (0, 0)) example_world); reflexivity.
Defined.

Lemma idle_events_change_nothing_witness :
  handle_event example_config (MOUSEMOTION (400, 260))
    (example_game PLAYING (1, 0)) example_world
  = Ret (example_game PLAYING (1, 0), example_world).
Proof.
  apply (idle_events_change_nothing example_config (MOUSEMOTION (400, 260))
           (example_game PLAYING (1, 0)) example_world).
  right. left. split; [reflexivity | discriminate].
Defined.

Lemma restart_gives_fresh_game_witness :
  exists g' w',
    handle_event example_config (KEYDOWN K_SPACE)
      (example_game GAME_OVER (1, 0)) start_world = Ret (g', w') /\
    state g' = MENU /\
    score g' = 0 /\
    high_score g' = high_score (example_game GAME_OVER (1, 0)) /\
    snake g' = Snake_init example_config 600 300 /\
    targets_at_rest g' /\ targets_off_snake g' /\
    highscore_txt w' = highscore_txt start_world.
Proof.
  eexists. eexists. split; [vm_compute; reflexivity|].
  apply (proj1 (restart_gives_fresh_game example_config
                  (example_game GAME_OVER (1, 0)) start_world _ _
                  [] [] Absent eq_refl)).
  reflexivity.
Defined.

Lemma handle_input_stops_at_quit_witness :
  let g := example_game PLAYING (1, 0) in
  exists g',
    handle_input example_config [KEYDOWN K_UP; QUIT] g example_world
    = Ret ((false, g'), example_world) /\
    direction (snake g') = (0, -1) /\
    handle_input example_config
      ([KEYDOWN K_UP; QUIT] ++ [KEYDOWN K_LEFT]) g example_world
    = Ret ((false, g'), example_world).
Proof.
  eexists. split; [reflexivity|]. split; [reflexivity|].
  apply (proj1 (handle_input_stops_at_quit example_config
                  [KEYDOWN K_UP; QUIT] (example_game PLAYING (1, 0))
                  example_world) false _ example_world eq_refl);
    reflexivity.
Defined.

Lemma run_stops_at_quit_witness :
  run example_config ([KEYDOWN K_UP; QUIT] :: [[KEYDOWN K_LEFT]; []])
      (example_game PLAYING (1, 0)) example_world
  = (r <- handle_input example_config [KEYDOWN K_UP; QUIT]
            (example_game PLAYING (1, 0)) ;;
     update example_config (snd r)) example_world.
Proof.
  apply (run_stops_at_quit example_config [KEYDOWN K_UP; QUIT]
           [[KEYDOWN K_LEFT]; []] (example_game PLAYING (1, 0))
           example_world).
  reflexivity.
Defined.

Lemma snake_steps_every_period_witness :
  let s := with_move_timer 0 (snake_heading (0, -1)) in
  ticks 5 s = Ret (with_move_timer 5 s) /\
  ticks 6 s = Ret risen_snake.
Proof.
  apply (proj1 (snake_steps_every_period
                  (with_move_timer 0 (snake_heading (0, -1))) 5
                  ltac:(discriminate) eq_refl eq_refl)).
  reflexivity.
Defined.

Lemma advance_snake_edges_witness :
  exists s',
    advance_snake (snake_heading (0, -1)) = Ret s' /\
    positions s' <> [] /\ speed s' = speed (snake_heading (0, -1)) /\
    length s' = length (snake_heading (0, -1)) /\
    direction s' = direction (snake_heading (0, -1)) /\
    facing s' = facing (snake_heading (0, -1)).
Proof.
  apply (proj2 (proj2 (advance_snake_edges (snake_heading (0, -1)) 0)));
    discriminate.
Defined.

Lemma walls_close_the_field_witness :
  existsb (fun wall => colliderect (cell_rect (750, 300)) wall)
          (walls example_config) = true
  <-> on_screen example_config (750, 300) /\
      ~ inside_walls example_config (750, 300).
Proof.
  apply (walls_close_the_field example_config (750, 300));
    unfold rect_in_range, c_int; cbn; lia.
Defined.

Lemma snake_cannot_slip_out_witness :
  exists s' body',
    move edge_snake = Ret s' /\
    positions s' = (750, 300) :: body' /\
    (inside_walls example_config (750, 300)
     \/ check_collision s' (walls example_config) = Ret true).
Proof.
  apply (snake_cannot_slip_out example_config edge_snake (720, 300)
           [(690, 300); (660, 300)]).
  - vm_compute. discriminate.
  - vm_compute. discriminate.
  - reflexivity.
  - unfold inside_walls. cbn. lia.
  - left. reflexivity.
Defined.

Lemma first_key_left_folds_the_snake_witness :
  let g := with_snake (Snake_init example_config 600 300)
                      (example_game PLAYING (0, 0)) in
  exists g1 s',
    handle_event example_config (KEYDOWN K_LEFT) g example_world
    = Ret (g1, example_world) /\
    direction (snake g1) = (-1, 0) /\
    move (snake g1) = Ret s' /\
    forall ws, check_collision s' ws = Ret true.
Proof.
  apply (first_key_left_folds_the_snake example_config
           (with_snake (Snake_init example_config 600 300)
                       (example_game PLAYING (0, 0)))
           example_world 600 300).
  - vm_compute. discriminate.
  - reflexivity.
  - reflexivity.
Defined.

Lemma example_targets_distinct : NoDup (map position example_targets).
Proof.
  cbn [map position example_targets].
  repeat (constructor;
          [cbn [In]; intros H;
           repeat (destruct H as [H | H]; [discriminate H|]); exact H|]).
  constructor.
Defined.

Lemma one_target_per_frame_witness :
  let g := example_game PLAYING (0, -1) in
  exists g' w',
    update example_config g example_world = Ret (g', w') /\
    ((~ In (600, 270) (map position (targets g)) /\
      g' = with_snake risen_snake g /\ w' = example_world)
     \/
     (exists t pos,
         In t (targets g) /\ position t = (600, 270) /\
         score g' = score g + points_of example_config t /\
         snake g' = grow example_config risen_snake /\
         targets g'
         = filter (fun t => negb (cell_eqb (position t) (600, 270)))
                  (targets g)
           ++ [{| position := pos; type := type t |}] /\
         spawnable example_config pos /\
         ~ In pos (positions risen_snake))).
Proof.
  eexists. eexists. split; [vm_compute; reflexivity|].
  apply (one_target_per_frame example_config (example_game PLAYING (0, -1))
           example_world risen_snake (600, 270) [(600, 300); (570, 300)]).
  - reflexivity.
  - reflexivity.
  - reflexivity.
  - reflexivity.
  - split; reflexivity.
  - repeat constructor.
  - exact example_targets_distinct.
  - reflexivity.
Defined.

Lemma speed_after_grows_witness :
  speed (grows example_config 7 example_snake)
  = Z.min (max_speed example_config)
          (speed example_snake
           + speed_increase_amount example_config
             * Z.max 0 (Z.min (Z.of_nat 7)
                              (targets_collected example_snake + Z.of_nat 7
                               - targets_before_speedup example_config))).
Proof.
  apply (speed_after_grows example_config 7 example_snake);
    vm_compute; discriminate.
Defined.

Lemma save_then_load_witness :
  (_save_high_score (example_game GAME_OVER (1, 0)) ;;; _load_high_score)
    {| draws := [7]%nat; highscore_txt := Content (ascii_text "abc") |}
  = Ret (300, {| draws := [7]%nat;
                 highscore_txt := Content (ascii_text "300") |}).
Proof.
  apply (save_then_load (example_game GAME_OVER (1, 0))
           {| draws := [7]%nat; highscore_txt := Content (ascii_text "abc") |}).
  reflexivity.
Defined.

Lemma high_score_follows_file_witness :
  exists g0 w0 g' w',
    Game_init example_config start_world = Ret (g0, w0) /\
    run example_config example_frames g0 w0 = Ret (g', w') /\
    _load_high_score w' = Ret (high_score g', w') /\
    high_score g0 <= high_score g'.
Proof.
  do 4 eexists. split; [vm_compute; reflexivity|].
  split; [vm_compute; reflexivity|].
  eapply (high_score_follows_file example_config start_world _ _
            example_frames);
    vm_compute; reflexivity.
Defined.

Lemma score_bounds_over_a_run_witness :
  exists g0 w0 g' w',
    Game_init example_config start_world = Ret (g0, w0) /\
    run example_config example_frames g0 w0 = Ret (g', w') /\
    score g' = 10 /\
    0 <= score g' /\
    (state g' = GAME_OVER -> score g' <= high_score g').
Proof.
  do 4 eexists. split; [vm_compute; reflexivity|].
  split; [vm_compute; reflexivity|]. split; [reflexivity|].
  eapply (score_bounds_over_a_run example_config start_world _ _
            example_frames);
    [vm_compute; discriminate | vm_compute; discriminate
     | vm_compute; reflexivity | vm_compute; reflexivity].
Defined.

Lemma snake_is_drawn_along_its_facing_witness :
  exists g0 w0 g' w',
    Game_init example_config start_world = Ret (g0, w0) /\
    run example_config example_frames g0 w0 = Ret (g', w') /\
    snake_oriented (snake g') /\
    _get_rotation_angle (snake g') (direction (snake g'))
    = _get_rotation_angle (snake g') (facing (snake g')) /\
    (facing (snake g') = (1, 0) /\
     _get_rotation_angle (snake g') (direction (snake g')) = 0
     \/ facing (snake g') = (-1, 0) /\
        _get_rotation_angle (snake g') (direction (snake g')) = 180
     \/ facing (snake g') = (0, -1) /\
        _get_rotation_angle (snake g') (direction (snake g')) = 90
     \/ facing (snake g') = (0, 1) /\
        _get_rotation_angle (snake g') (direction (snake g')) = -90).
Proof.
  do 4 eexists. split; [vm_compute; reflexivity|].
  split; [vm_compute; reflexivity|].
  eapply (snake_is_drawn_along_its_facing example_config start_world _ _
            example_frames);
    vm_compute; reflexivity.
Defined.

Lemma example_config_playable : playable example_config.
Proof. unfold playable. repeat split; vm_compute; discriminate. Defined.

Lemma game_logic_stays_defined_witness :
  let g := example_game PLAYING (0, -1) in
  (forall g' w', run example_config example_frames g start_world
                 = Ret (g', w') -> snake_sound (snake g')) /\
  handle_input example_config [KEYDOWN K_LEFT] g start_world
  <> Raise IndexError /\
  handle_input example_config [KEYDOWN K_LEFT] g start_world
  <> Raise ZeroDivisionError /\
  (forall r w', handle_input example_config [KEYDOWN K_LEFT] g start_world
                = Ret (r, w') -> snake_sound (snake (snd r))) /\
  update example_config g start_world <> Raise IndexError /\
  update example_config g start_world <> Raise ZeroDivisionError /\
  (forall g' w', update example_config g start_world = Ret (g', w') ->
                 snake_sound (snake g')).
Proof.
  apply (proj1 (proj2 (game_logic_stays_defined example_config
                         (example_game PLAYING (0, -1)) start_world
                         example_frames [KEYDOWN K_LEFT]
                         example_config_playable))).
  split; [discriminate | reflexivity].
Defined.

Lemma game_starts_in_menu_witness :
  exists g0 w0,
    Game_init example_config start_world = Ret (g0, w0) /\
    state g0 = MENU /\ score g0 = 0 /\ is_hovered g0 = false /\
    snake g0 = Snake_init example_config 600 300 /\
    targets_at_rest g0 /\ targets_off_snake g0 /\
    highscore_txt w0 = highscore_txt start_world /\
    py_int (ascii_text "300") = Some (high_score g0).
Proof.
  do 2 eexists. split; [vm_compute; reflexivity|].
  apply (game_starts_in_menu example_config start_world _ _);
    [right; vm_compute; discriminate | reflexivity].
Defined.

Lemma narrow_window_cannot_start_witness :
  Game_init narrow_config {| draws := []; highscore_txt := Absent |}
  = Raise ValueError.
Proof.
  apply (proj2 (proj2 (narrow_window_cannot_start narrow_config
                         (example_game MENU (0, 0))
                         {| draws := []; highscore_txt := Absent |}
                         ltac:(vm_compute; discriminate)))).
  reflexivity.
Defined.

Lemma grid_is_kept_over_a_run_witness :
  exists g0 w0 g' w',
    Game_init example_config start_world = Ret (g0, w0) /\
    run example_config example_frames g0 w0 = Ret (g', w') /\
    Forall aligned (positions (snake g')) /\
    Forall aligned (map position (targets g')) /\
    forall head body,
      positions (snake g') = head :: body ->
      overlapping head (targets g')
      = filter (fun t => cell_eqb (position t) head) (targets g').
Proof.
  do 4 eexists. split; [vm_compute; reflexivity|].
  split; [vm_compute; reflexivity|].
  eapply (grid_is_kept_over_a_run example_config start_world _ _
            example_frames);
    vm_compute; reflexivity.
Defined.
